(** * BufferManager: layout and buffer synchronisation between the host editor
      and the neovim backend

    A shallow embedding of [BufferManager] (buffer_manager.ts): the identity
    maps, the redraw handler, the handler of backend-originated requests, the
    layout reconciler [syncLayout], the active-editor synchroniser and the
    buffer initialiser, the lookups by value and [forceResync], and the
    [Logger] of logger.ts, followed by the properties stated about them.

    Conventions of the embedding.
    - Documents and editors of the host are reference stable JS objects
      (source line 9): they are modelled as handles ([positive]) whose
      fields are read through the host state, so that two handles are
      identity-equal exactly when they are equal.
    - A JS [Map] is a [gmap]; [Map.set], [Map.delete], [Map.get], [Map.has]
      are insert, delete, lookup and [is_Some] of the lookup.  The order
      of insertion is not kept: a function that spreads a map takes the
      listing of its entries, and what is proved of it holds for every
      order.
    - Backend ids are integers ([Z]); a JS [number] that may be [NaN] or
      an infinity (the result of [parseInt]) is a [number].
    - A JS string is kept as its UTF-8 encoding, one [ascii] per byte.
    - An [async] function is a computation in the monad [M] (state and
      exceptions); each [await] is sequential composition, so a handler runs
      from its first statement to its last without another handler running
      in between.  The scheduling of handlers against each other is the
      subject of the [EventLoop] module.
    - The handlers are given twice.  First as they run with a logger that
      does not throw: there [logger.debug] is left out and [logger.error]
      is recorded.  Then, in [Logged], with every call of the logger at
      its place and a logger that may throw, as the logger of logger.ts
      does when a write to its file fails.  The two agree when the logger
      does not throw ([agrees_syncLayout], [agrees_handleExtensionRequest]). *)

From Stdlib Require Import ZArith Lia Ascii String.
From stdpp Require Import gmap strings list fin_maps pretty.

Local Open Scope string_scope.
Local Open Scope Z_scope.
Local Open Scope list_scope.
Set Warnings "-register-all,-clear-no-such-hyp".

(** ** JavaScript values and built-ins used by the source *)

Module JS.

(** A JS number that holds an integer, [NaN] or an infinity. *)
Inductive number :=
| Int (z : Z)
| NaN
| Infinity (negative : bool).

(** [a === b] on numbers: [NaN] equals nothing. *)
Definition number_eqb (a b : number) : bool :=
  match a, b with
  | Int x, Int y => bool_decide (x = y)
  | Infinity x, Infinity y => bool_decide (x = y)
  | _, _ => false
  end.

(** Truthiness of an integer: [0] is falsy. *)
Definition truthy (z : Z) : bool := negb (bool_decide (z = 0)).

(** Truthiness of [number | undefined]. *)
Definition truthy_opt (o : option Z) : bool :=
  match o with
  | Some z => truthy z
  | None => false
  end.

(** Truthiness of a string: the empty string is falsy. *)
Definition truthy_str (s : string) : bool := negb (bool_decide (s = EmptyString)).

(** [String.prototype.includes], also [/sub/.test(s)] for a literal [sub]. *)
Fixpoint includes (sub s : string) : bool :=
  String.prefix sub s ||
  match s with
  | EmptyString => false
  | String _ s' => includes sub s'
  end.

(** The white space that [trim] and [parseInt] strip is the white space
    and the line terminators of the language, told here by the bytes of
    their encoding: U+0009 to U+000D and U+0020 in one byte; U+00A0 in
    two; U+1680, U+2000 to U+200A, U+2028, U+2029, U+202F, U+205F, U+3000
    and U+FEFF in three. *)
Definition isWhiteSpace (a : ascii) : bool :=
  let n := N_of_ascii a in
  (bool_decide (9 <= n <= 13)%N) || bool_decide (n = 32%N).

Definition isWhiteSpace2 (a b : ascii) : bool :=
  bool_decide (N_of_ascii a = 194%N ∧ N_of_ascii b = 160%N).

Definition isWhiteSpace3 (a b c : ascii) : bool :=
  let '(x, y, z) := (N_of_ascii a, N_of_ascii b, N_of_ascii c) in
  bool_decide (x = 225 ∧ y = 154 ∧ z = 128)%N ||
  bool_decide (x = 226 ∧ y = 128 ∧ (128 <= z <= 138 ∨ z = 168 ∨ z = 169 ∨ z = 175))%N ||
  bool_decide (x = 226 ∧ y = 129 ∧ z = 159)%N ||
  bool_decide (x = 227 ∧ y = 128 ∧ z = 128)%N ||
  bool_decide (x = 239 ∧ y = 187 ∧ z = 191)%N.

Fixpoint trimStart (s : string) : string :=
  match s with
  | EmptyString => EmptyString
  | String a s1 =>
      if isWhiteSpace a then trimStart s1
      else
        match s1 with
        | String b s2 =>
            if isWhiteSpace2 a b then trimStart s2
            else
              match s2 with
              | String c s3 => if isWhiteSpace3 a b c then trimStart s3 else s
              | EmptyString => s
              end
        | EmptyString => s
        end
  end.

(** The string up to its last character that is not white space: what is
    left is dropped as soon as it is white space only.  (A byte inside of
    a character starts no white space, so only whole characters are
    dropped.) *)
Fixpoint trimEnd (s : string) : string :=
  match s with
  | EmptyString => EmptyString
  | String a s' =>
      if bool_decide (trimStart s = EmptyString) then EmptyString else String a (trimEnd s')
  end.

(** [String.prototype.trim]. *)
Definition trim (s : string) : string := trimEnd (trimStart s).

(** [s.split(sep)] for a non-empty separator.  [skip] counts the
    characters of a separator that was matched and is still being
    consumed, [cur] is the piece read so far. *)
Fixpoint split_from (sep s : string) (skip : nat) (cur : string) : list string :=
  match s with
  | EmptyString => [cur]
  | String a s' =>
      match skip with
      | S k => split_from sep s' k cur
      | O =>
          if String.prefix sep s
          then cur :: split_from sep s' (Nat.pred (String.length sep)) EmptyString
          else split_from sep s' O (cur +:+ String a EmptyString)
      end
  end.

Definition split (sep s : string) : list string := split_from sep s O EmptyString.

Definition digit (a : ascii) : option Z :=
  let n := N_of_ascii a in
  if bool_decide (48 <= n <= 57)%N then Some (Z.of_N n - 48) else None.

(** Longest prefix of decimal digits, read as an integer; [None] when the
    string does not start with a digit. *)
Fixpoint digits (s : string) (acc : option Z) : option Z :=
  match s with
  | EmptyString => acc
  | String a s' =>
      match digit a with
      | Some d => digits s' (Some (10 * default 0 acc + d))
      | None => acc
      end
  end.

(** The double nearest to a natural number: the number itself below
    2^53, else its 53 leading bits, rounded to nearest and to even on a
    tie; none from 2^1024 on. *)
Definition toDouble (n : Z) : option Z :=
  if bool_decide (n < 2 ^ 53) then Some n
  else
    let e := Z.log2 n - 52 in
    let q := Z.shiftr n e in
    let r := n - Z.shiftl q e in
    let half := Z.shiftl 1 (e - 1) in
    let q := if bool_decide (half < r) || (bool_decide (r = half) && Z.odd q)
             then q + 1 else q in
    if bool_decide (Z.shiftl q e < 2 ^ 1024) then Some (Z.shiftl q e) else None.

(** [parseInt(s, 10)]: leading white space, an optional sign, then the
    longest run of digits, every digit counting (as V8 reads them); the
    result is the double nearest to that integer, an infinity beyond the
    doubles, and [NaN] without a digit. *)
Definition parseInt (s : string) : number :=
  let t := trimStart s in
  let '(neg, body) :=
    match t with
    | String "-" r => (true, r)
    | String "+" r => (false, r)
    | _ => (false, t)
    end in
  match digits body None with
  | Some z =>
      match toDouble z with
      | Some v => Int (if neg then - v else v)
      | None => Infinity neg
      end
  | None => NaN
  end.

(** [Number::toString] on the integers: the fewest digits [s] that, with
    zeros up to [n] digits in all, still read as the same double; of two
    such numbers the nearer one, and the even one on a tie. *)
Definition significand (v n k : Z) : option Z :=
  let p := 10 ^ (n - k) in
  let lo := v / p in
  let fits s :=
    bool_decide (10 ^ (k - 1) ≤ s < 10 ^ k) && bool_decide (toDouble (s * p) = Some v) in
  match fits lo, fits (lo + 1) with
  | true, true =>
      let below := v - lo * p in
      let above := (lo + 1) * p - v in
      if bool_decide (below < above) then Some lo
      else if bool_decide (above < below) then Some (lo + 1)
      else Some (if Z.even lo then lo else lo + 1)
  | true, false => Some lo
  | false, true => Some (lo + 1)
  | false, false => None
  end.

Fixpoint shortest (fuel : nat) (v n k : Z) : option (Z * Z) :=
  match fuel with
  | O => None
  | S fuel =>
      match significand v n k with
      | Some s => Some (s, k)
      | None => shortest fuel v n (k + 1)
      end
  end.

Definition zeros (n : Z) : string := String.concat "" (replicate (Z.to_nat n) "0").

(** Up to 21 digits the number is written out; beyond, it is written with
    an exponent.  An integer that is no double is written with all its
    digits. *)
Definition positiveToString (v : Z) : string :=
  let d := Z.of_nat (String.length (pretty v)) in
  let '(s, k, n) :=
    if bool_decide (toDouble (10 ^ d) = Some v) then (1, 1, d + 1)
    else match shortest (Z.to_nat d) v d 1 with
         | Some (s, k) => (s, k, d)
         | None => (v, d, d)
         end in
  let ds := pretty s in
  if bool_decide (n ≤ 21) then ds +:+ zeros (n - k)
  else
    match ds with
    | String a rest =>
        String a (if bool_decide (k = 1) then "" else "." +:+ rest) +:+ "e+" +:+ pretty (n - 1)
    | EmptyString => ds
    end.

(** [`${x}`] for a number. *)
Definition toString (x : number) : string :=
  match x with
  | NaN => "NaN"
  | Infinity neg => if neg then "-Infinity" else "Infinity"
  | Int z =>
      if bool_decide (z = 0) then "0"
      else if bool_decide (z < 0) then "-" +:+ positiveToString (- z)
      else positiveToString z
  end.

End JS.

Export JS.

Arguments truthy : simpl never.
Arguments truthy_str : simpl never.
Arguments number_eqb : simpl never.
Arguments parseInt : simpl never.
Arguments toString : simpl never.
Arguments trim : simpl never.
Arguments includes : simpl never.

(** ** Host-editor objects *)

(** Handles of host objects: reference identity is equality of handles. *)
Abbreviation TextDocument := positive (only parsing).
Abbreviation TextEditor := positive (only parsing).

Inductive EndOfLine := LF | CRLF.

(** The fields of a [vscode.TextDocument] the source reads. *)
Record DocumentFields := {
  uri : string;            (* document.uri.toString() *)
  eol : EndOfLine;
  getText : string;
  isClosed : bool;
}.

Record TextEditorOptions := {
  insertSpaces : bool;
  tabSize : Z;
}.

(** The fields of a [vscode.TextEditor] the source reads; [viewColumn] is
    [undefined] for editors outside of the column layout. *)
Record EditorFields := {
  viewColumn : option Z;
  document : TextDocument;
  options : TextEditorOptions;
}.

(** What the [window] and [workspace] namespaces show at one instant. *)
Record Host := {
  visibleTextEditors : list TextEditor;    (* window.visibleTextEditors *)
  activeTextEditor : option TextEditor;    (* window.activeTextEditor *)
  textDocuments : list TextDocument;       (* workspace.textDocuments *)
  editors : TextEditor → EditorFields;
  documents : TextDocument → DocumentFields;
}.

(** [e.viewColumn] when truthy: the column the editor is filed under. *)
Definition column (h : Host) (e : TextEditor) : option Z :=
  match viewColumn (editors h e) with
  | Some c => if truthy c then Some c else None
  | None => None
  end.

Arguments column : simpl never.

(** ** Backend objects *)

Record Buffer := { buf_id : Z }.
Record Window := { win_id : Z }.

Record WindowOptions := {
  external : bool;
  width : Z;
  height : Z;
}.

(** Arguments of a backend call ([unknown[]] in the source). *)
Inductive Arg :=
| ANum (n : number)
| ABool (b : bool)
| AStr (s : string)
| AList (l : list Arg)
| AUndefined.

Coercion Int : Z >-> number.

(** One backend operation of a batch: [[name, args]]. *)
Definition Request : Type := string * list Arg.

(** A non-empty failure result of an atomic call. *)
Record AtomicFailure := {
  failedIndex : Z;
  failure : string;
}.

(** ** The manager *)

Record GridConf := { winId : Z }.

Record BufferManagerSettings := {
  neovimViewportWidth : Z;
  neovimViewportHeight : Z;
}.

(** A promise is known by its serial number. *)
Abbreviation Promise := nat (only parsing).

Record BufferManager := {
  changeLayoutPromise : option Promise;
  changeLayoutPromiseResolve : option Promise;   (* the promise that [res] settles *)
  openedEditors : list TextEditor;
  textDocumentToBufferId : gmap TextDocument number;
  editorColumnsToWinId : gmap Z Z;
  noColumnEditorsToWinId : gmap TextEditor Z;
  grids : gmap Z GridConf;
  onBufferInit : bool;                           (* is the delegate installed *)
  settings : BufferManagerSettings;
}.

Definition newBufferManager (s : BufferManagerSettings) : BufferManager := {|
  changeLayoutPromise := None;
  changeLayoutPromiseResolve := None;
  openedEditors := [];
  textDocumentToBufferId := ∅;
  editorColumnsToWinId := ∅;
  noColumnEditorsToWinId := ∅;
  grids := ∅;
  onBufferInit := false;
  settings := s;
|}.

Definition set_changeLayoutPromise (p : option Promise) (m : BufferManager) : BufferManager :=
  {| changeLayoutPromise := p;
     changeLayoutPromiseResolve := changeLayoutPromiseResolve m;
     openedEditors := openedEditors m;
     textDocumentToBufferId := textDocumentToBufferId m;
     editorColumnsToWinId := editorColumnsToWinId m;
     noColumnEditorsToWinId := noColumnEditorsToWinId m;
     grids := grids m;
     onBufferInit := onBufferInit m;
     settings := settings m |}.

Definition set_changeLayoutPromiseResolve (p : option Promise) (m : BufferManager) : BufferManager :=
  {| changeLayoutPromise := changeLayoutPromise m;
     changeLayoutPromiseResolve := p;
     openedEditors := openedEditors m;
     textDocumentToBufferId := textDocumentToBufferId m;
     editorColumnsToWinId := editorColumnsToWinId m;
     noColumnEditorsToWinId := noColumnEditorsToWinId m;
     grids := grids m;
     onBufferInit := onBufferInit m;
     settings := settings m |}.

Definition set_openedEditors (l : list TextEditor) (m : BufferManager) : BufferManager :=
  {| changeLayoutPromise := changeLayoutPromise m;
     changeLayoutPromiseResolve := changeLayoutPromiseResolve m;
     openedEditors := l;
     textDocumentToBufferId := textDocumentToBufferId m;
     editorColumnsToWinId := editorColumnsToWinId m;
     noColumnEditorsToWinId := noColumnEditorsToWinId m;
     grids := grids m;
     onBufferInit := onBufferInit m;
     settings := settings m |}.

Definition upd_textDocumentToBufferId 
    (f : gmap TextDocument number → gmap TextDocument number) (m : BufferManager) : BufferManager :=
  {| changeLayoutPromise := changeLayoutPromise m;
     changeLayoutPromiseResolve := changeLayoutPromiseResolve m;
     openedEditors := openedEditors m;
     textDocumentToBufferId := f (textDocumentToBufferId m);
     editorColumnsToWinId := editorColumnsToWinId m;
     noColumnEditorsToWinId := noColumnEditorsToWinId m;
     grids := grids m;
     onBufferInit := onBufferInit m;
     settings := settings m |}.

Definition upd_editorColumnsToWinId (f : gmap Z Z → gmap Z Z) (m : BufferManager) : BufferManager :=
  {| changeLayoutPromise := changeLayoutPromise m;
     changeLayoutPromiseResolve := changeLayoutPromiseResolve m;
     openedEditors := openedEditors m;
     textDocumentToBufferId := textDocumentToBufferId m;
     editorColumnsToWinId := f (editorColumnsToWinId m);
     noColumnEditorsToWinId := noColumnEditorsToWinId m;
     grids := grids m;
     onBufferInit := onBufferInit m;
     settings := settings m |}.

Definition upd_noColumnEditorsToWinId 
    (f : gmap TextEditor Z → gmap TextEditor Z) (m : BufferManager) : BufferManager :=
  {| changeLayoutPromise := changeLayoutPromise m;
     changeLayoutPromiseResolve := changeLayoutPromiseResolve m;
     openedEditors := openedEditors m;
     textDocumentToBufferId := textDocumentToBufferId m;
     editorColumnsToWinId := editorColumnsToWinId m;
     noColumnEditorsToWinId := f (noColumnEditorsToWinId m);
     grids := grids m;
     onBufferInit := onBufferInit m;
     settings := settings m |}.

Definition upd_grids (f : gmap Z GridConf → gmap Z GridConf) (m : BufferManager) : BufferManager :=
  {| changeLayoutPromise := changeLayoutPromise m;
     changeLayoutPromiseResolve := changeLayoutPromiseResolve m;
     openedEditors := openedEditors m;
     textDocumentToBufferId := textDocumentToBufferId m;
     editorColumnsToWinId := editorColumnsToWinId m;
     noColumnEditorsToWinId := noColumnEditorsToWinId m;
     grids := f (grids m);
     onBufferInit := onBufferInit m;
     settings := settings m |}.

(** *** Lookups (lines 92-111) *)

Definition getBufferIdForTextDocument (m : BufferManager) (d : TextDocument) : option number :=
  textDocumentToBufferId m !! d.

Definition getWinIdForGridId (m : BufferManager) (gridId : Z) : option Z :=
  winId <$> grids m !! gridId.

Definition getWinIdForTextEditor (m : BufferManager) (h : Host) (e : TextEditor) : option Z :=
  match column h e with
  | Some c => editorColumnsToWinId m !! c
  | None => noColumnEditorsToWinId m !! e
  end.

(** *** The redraw handler (lines 139-158) *)

(** One event of a redraw batch: its name and its argument tuples.  The
    source reads the tuples through the casts [[number, Window][]] and
    [[number][]]; the second reads the first component only. *)
Definition RedrawEvent : Type := string * list (Z * Window).

Definition handleRedrawEvent (m : BufferManager) (ev : RedrawEvent) : BufferManager :=
  let '(name, args) := ev in
  if bool_decide (name = "win_external_pos") || bool_decide (name = "win_pos") then
    foldl (λ m '(grid, win), upd_grids (insert grid {| winId := win_id win |}) m) m args
  else if bool_decide (name = "win_close") then
    foldl (λ m '(grid, _), upd_grids (delete grid) m) m args
  else m.

Definition handleRedrawBatch (m : BufferManager) (batch : list RedrawEvent) : BufferManager :=
  foldl handleRedrawEvent m batch.

(** ** Effects, exceptions and the monad of handlers *)

(** A thrown [Error]. *)
Record Error := { message : string }.

Inductive Result (A : Type) :=
| Ok (a : A)
| Throw (e : Error).
Arguments Ok {A} a.
Arguments Throw {A} e.

(** What [workspace.openTextDocument] is asked to open. *)
Inductive OpenTarget :=
| Untitled                    (* openTextDocument() *)
| FileName (name : string)    (* openTextDocument(fileName) *)
| ParsedUri (name : string).  (* openTextDocument(Uri.parse(name, true)) *)

(** The close mode of an open-file request: [number | "all"]. *)
Inductive CloseMode :=
| CloseNumber (n : Z)
| CloseAll.

(** Second argument of [window.showTextDocument]. *)
Inductive ShowArg :=
| InColumn (viewColumn : option Z)
| WithOptions (viewColumn : option Z) (preserveFocus preview : bool).

(** [ViewColumn.Active]. *)
Definition ViewColumn_Active : Z := -1.

(** Everything a handler does to the outside, in the order it does it. *)
Inductive Effect :=
| CreateBuffer (listed scratch : bool)
| OpenWindow (buffer : Buffer) (enter : bool) (opts : WindowOptions)
| CallAtomic (requests : list Request)
| GetBuffers
| ClientRequest (name : string) (args : list Arg)
| BufferListen (bufId : Z) (event : string)
| BufferInit (bufId : Z) (document : TextDocument)
| LoggerError (msg : string)
| OpenTextDocument (target : OpenTarget)
| ShowTextDocument (document : TextDocument) (arg : ShowArg)
| ExecuteCommand (command : string)
| ResolvePromise (p : Promise).

(** The backend behind the RPC client: an arbitrary state [B] and the
    answers it gives.  [createBuffer] and [openWindow] answer with an object
    or with a numeric error code. *)
Class NeovimClient (B : Type) := {
  client_createBuffer : bool → bool → B → (Buffer + Z) * B;
  client_openWindow : Buffer → bool → WindowOptions → B → (Window + Z) * B;
  client_callAtomic : list Request → B → option AtomicFailure * B;
  client_buffers : B → list Buffer * B;
  client_request : string → list Arg → B → B;
  buffer_listen : Buffer → string → B → B;
}.

(** The commands of the host editor: each may change what the host shows,
    and may fail. *)
Class VSCode := {
  workspace_openTextDocument : OpenTarget → Host → Result TextDocument * Host;
  window_showTextDocument : TextDocument → ShowArg → Host → Result TextEditor * Host;
  commands_executeCommand : string → Host → Result unit * Host;
}.

(** The two helpers of [./utils] the manager calls; their text is not part
    of the sources at hand, so they are parameters: the cursor translation
    and the text [callAtomic] logs for a failed batch. *)
Class Utils := {
  getNeovimCursorPosFromEditor : Host → TextEditor → Z * Z;
  atomicFailureText : string → list Request → AtomicFailure → string;
}.

Record System (B : Type) := {
  manager : BufferManager;
  host : Host;
  nvim : B;
  effects : list Effect;
  promises : nat;            (* promises created so far *)
}.
Arguments manager {B} _.
Arguments host {B} _.
Arguments nvim {B} _.
Arguments effects {B} _.
Arguments promises {B} _.

Definition M (B A : Type) : Type := System B → Result A * System B.

Definition ret {B A} (a : A) : M B A := λ s, (Ok a, s).

Definition bind {B A C} (m : M B A) (k : A → M B C) : M B C :=
  λ s, match m s with
       | (Ok a, s') => k a s'
       | (Throw e, s') => (Throw e, s')
       end.

Definition throw {B A} (e : Error) : M B A := λ s, (Throw e, s).

(** [try { body } catch (e) { handler(e) }]: the state reached when the
    exception was thrown is kept. *)
Definition try_catch {B A} (body : M B A) (handler : Error → M B A) : M B A :=
  λ s, match body s with
       | (Ok a, s') => (Ok a, s')
       | (Throw e, s') => handler e s'
       end.

Notation "x <- c1 ; c2" := (bind c1 (λ x, c2))
  (at level 20, c1 at level 100, c2 at level 200, only parsing).
Notation "c1 ;; c2" := (bind c1 (λ _, c2))
  (at level 100, c2 at level 200, only parsing, right associativity).

Section Primitives.
Context {B : Type}.

Definition get : M B (System B) := λ s, (Ok s, s).

Definition with_manager (f : BufferManager → BufferManager) : M B unit :=
  λ s, (Ok tt, {| manager := f (manager s); host := host s; nvim := nvim s;
                  effects := effects s; promises := promises s |}).

Definition emit (e : Effect) : M B unit :=
  λ s, (Ok tt, {| manager := manager s; host := host s; nvim := nvim s;
                  effects := effects s ++ [e]; promises := promises s |}).

(** A call of the client: the backend answers and moves on. *)
Definition on_nvim {A} (f : B → A * B) : M B A :=
  λ s, let '(a, b) := f (nvim s) in
       (Ok a, {| manager := manager s; host := host s; nvim := b;
                 effects := effects s; promises := promises s |}).

(** A command of the host: the host answers or throws, and moves on. *)
Definition on_host {A} (f : Host → Result A * Host) : M B A :=
  λ s, let '(r, h) := f (host s) in
       (r, {| manager := manager s; host := h; nvim := nvim s;
              effects := effects s; promises := promises s |}).

(** [new Promise(...)]. *)
Definition new_promise : M B Promise :=
  λ s, (Ok (promises s),
        {| manager := manager s; host := host s; nvim := nvim s;
           effects := effects s; promises := S (promises s) |}).

(** [logger.error(msg)] of a logger that does not throw: the call is
    recorded. *)
Definition logger_error (msg : string) : M B unit := emit (LoggerError msg).

End Primitives.

Definition LOG_PREFIX : string := "BufferManager".

Definition newline : string := String "010"%char EmptyString.
Definition cr_newline : string := String "013"%char newline.

(** [`${x}`] for [number | undefined]. *)
Definition show_opt (o : option Z) : string :=
  match o with
  | Some z => pretty z
  | None => "undefined"
  end.

(** The text of the error of lines 410-414. *)
Definition windowUnknownText (h : Host) (activeEditor : TextEditor) : string :=
  LOG_PREFIX +:+ ": Unable to determine neovim windows id for editor viewColumn: " +:+
  show_opt (viewColumn (editors h activeEditor)) +:+ ", docUri: " +:+
  uri (documents h (document (editors h activeEditor))).

(** ** The handlers *)

Section Handlers.
Context {B : Type} `{!NeovimClient B} `{!VSCode} `{!Utils}.

Local Abbreviation M := (M B).

(** *** The atomic batch helper *)

(** Modelled from the spec: [callAtomic] of [./utils] (section 4.2), which
    is not among the sources: one atomic call of the client with the whole
    sequence; a non-empty failure result is logged, nothing is rolled
    back and nothing is raised. *)
Definition callAtomic (requests : list Request) : M unit :=
  emit (CallAtomic requests);;
  res <- on_nvim (client_callAtomic requests);
  match res with
  | Some f => logger_error (atomicFailureText LOG_PREFIX requests f)
  | None => ret tt
  end.

Definition createBuffer (listed scratch : bool) : M (Buffer + Z) :=
  emit (CreateBuffer listed scratch);;
  on_nvim (client_createBuffer listed scratch).

Definition openWindow (buffer : Buffer) (enter : bool) (opts : WindowOptions) : M (Window + Z) :=
  emit (OpenWindow buffer enter opts);;
  on_nvim (client_openWindow buffer enter opts).

Definition getBuffers : M (list Buffer) :=
  emit GetBuffers;;
  on_nvim client_buffers.

Definition request (name : string) (args : list Arg) : M unit :=
  emit (ClientRequest name args);;
  on_nvim (λ b, (tt, client_request name args b)).

Definition listen (buffer : Buffer) (event : string) : M unit :=
  emit (BufferListen (buf_id buffer) event);;
  on_nvim (λ b, (tt, buffer_listen buffer event b)).

Definition openTextDocument (target : OpenTarget) : M TextDocument :=
  emit (OpenTextDocument target);;
  on_host (workspace_openTextDocument target).

Definition showTextDocument (document : TextDocument) (arg : ShowArg) : M TextEditor :=
  emit (ShowTextDocument document arg);;
  on_host (window_showTextDocument document arg).

Definition executeCommand (command : string) : M unit :=
  emit (ExecuteCommand command);;
  on_host (commands_executeCommand command).

(** *** Buffer options (lines 442-493) *)

(** The three tab options, shared by the two functions below. *)
Definition tabOptionRequests (bufId : number) (o : TextEditorOptions) : list Request :=
  [ ("nvim_buf_set_option", [ANum bufId; AStr "expandtab"; ABool (insertSpaces o)]);
    ("nvim_buf_set_option",
      [ANum bufId; AStr "tabstop"; ANum (if insertSpaces o then tabSize o else 1)]);
    ("nvim_buf_set_option",
      [ANum bufId; AStr "shiftwidth"; ANum (if insertSpaces o then tabSize o else 1)]) ].

Definition initRequests (h : Host) (document : TextDocument) (bufId : Z)
    (editor : option TextEditor) : list Request :=
  let o := match editor with
           | Some e => options (editors h e)
           | None => {| insertSpaces := true; tabSize := 4 |}
           end in
  let eol := match eol (documents h document) with LF => newline | CRLF => cr_newline end in
  let lines := JS.split eol (getText (documents h document)) in
  tabOptionRequests bufId o ++
  [ ("nvim_buf_set_lines", [ANum bufId; ANum 0; ANum 1; ABool false; AList (AStr <$> lines)]);
    ("nvim_buf_set_var", [ANum bufId; AStr "vscode_controlled"; ABool true]);
    ("nvim_buf_set_name", [ANum bufId; AStr (uri (documents h document))]);
    ("nvim_call_function", [AStr "VSCodeClearUndo"; AList [ANum bufId]]);
    ("nvim_buf_set_option", [ANum bufId; AStr "buflisted"; ABool true]) ].

Definition initBufferForDocument (document : TextDocument) (buffer : Buffer)
    (editor : option TextEditor) : M unit :=
  s <- get;
  let bufId := buf_id buffer in
  callAtomic (initRequests (host s) document bufId editor);;
  (if onBufferInit (manager s) then emit (BufferInit bufId document) else ret tt);;
  listen buffer "lines".

Definition resyncBufferTabOptions (editor : TextEditor) (bufId : number) : M unit :=
  s <- get;
  callAtomic (tabOptionRequests bufId (options (editors (host s) editor))).

(** *** Window creation (lines 500-525) *)

Definition createNeovimWindow : M Z :=
  buf <- createBuffer true true;
  match buf with
  | inr code =>
      throw {| message :=
        "Unable to create a temporary buffer for new neovim window, code: " +:+ pretty code |}
  | inl buf =>
      s <- get;
      win <- openWindow buf false
               {| external := true;
                  width := neovimViewportWidth (settings (manager s));
                  height := neovimViewportHeight (settings (manager s)) |};
      match win with
      | inr code =>
          throw {| message := "Unable to create a new neovim window, code: " +:+ pretty code |}
      | inl win =>
          callAtomic
            [ ("nvim_win_set_var", [ANum (win_id win); AStr "vscode_clearjumps"; ABool true]);
              ("nvim_buf_set_option", [ANum (buf_id buf); AStr "vscode_temp"; ABool true]);
              ("nvim_buf_set_option", [ANum (buf_id buf); AStr "hidden"; ABool false]);
              ("nvim_buf_set_option", [ANum (buf_id buf); AStr "bufhidden"; AStr "wipe"]) ];;
          ret (win_id win)
      end
  end.

(** The body of [attachNeovimExternalBuffer] is commented out (lines
    533-610). *)
Definition attachNeovimExternalBuffer (name : string) (id : number)
    (expandTab : bool) (tabStop : Z) : M unit :=
  ret tt.

(** *** Requests of the backend (lines 160-234) *)

(** The arguments of a request, as the casts of the source read them. *)
Inductive ExtensionArgs :=
| OpenFileArgs (fileName : string) (close : CloseMode)
| ExternalBufferArgs (name idStr : string) (expandTab tabStop isJumping : Z).

(** [case "open-file"].  [openTextDocument] answers with a document or
    throws, so the guard [if (!doc) return] of line 171 is never taken. *)
Definition openFile (fileName : string) (close : CloseMode) : M unit :=
  s <- get;
  let currEditor := activeTextEditor (host s) in
  doc <- openTextDocument
           (if bool_decide (fileName = "__vscode_new__") then Untitled
            else FileName (trim fileName));
  viewColumn <-
    match close, currEditor with
    | CloseNumber n, Some currEditor =>
        if truthy n then
          s <- get;
          let viewColumn := viewColumn (editors (host s) currEditor) in
          executeCommand "workbench.action.revertAndCloseActiveEditor";;
          ret viewColumn
        else ret None
    | _, _ => ret None
    end;
  showTextDocument doc (InColumn viewColumn);;
  match close with
  | CloseAll => executeCommand "workbench.action.closeOtherEditors"
  | CloseNumber _ => ret tt
  end.

(** The column [showTextDocument] is asked for in the jump path. *)
Definition activeColumn (h : Host) : option Z :=
  match activeTextEditor h with
  | Some a => viewColumn (editors h a)
  | None => Some ViewColumn_Active
  end.

(** Lines 196-200: the open document of that URI, or the document the host
    opens for it. *)
Definition jumpDocument (name : string) : M TextDocument :=
  s <- get;
  match List.find (λ d, bool_decide (uri (documents (host s) d) = name))
          (textDocuments (host s)) with
  | Some d => ret d
  | None => openTextDocument (ParsedUri name)
  end.

(** Lines 201-213: the entry of a document that has none; the answer is
    [forceTabOptions]. *)
Definition mapOnJump (doc : TextDocument) (id : number) : M bool :=
  s <- get;
  if bool_decide (is_Some (textDocumentToBufferId (manager s) !! doc)) then ret false
  else
    buffers <- getBuffers;
    forceTabOptions <-
      match List.find (λ b, number_eqb (Int (buf_id b)) id) buffers with
      | Some buf => initBufferForDocument doc buf None;; ret true
      | None => ret false
      end;
    with_manager (upd_textDocumentToBufferId (insert doc id));;
    ret forceTabOptions.

(** The [try] block of lines 195-226. *)
Definition openOnJump (name : string) (id : number) : M unit :=
  doc <- jumpDocument name;
  forceTabOptions <- mapOnJump doc id;
  s <- get;
  editor <- showTextDocument doc (WithOptions (activeColumn (host s)) false false);
  if forceTabOptions : bool then resyncBufferTabOptions editor id else ret tt.

(** [case "external-buffer"]. *)
Definition externalBuffer (name idStr : string) (expandTab tabStop isJumping : Z) : M unit :=
  let id := parseInt idStr in
  if negb (truthy_str name && includes "://" name) then
    attachNeovimExternalBuffer name id (truthy expandTab) tabStop
  else if truthy isJumping && truthy_str name then
    try_catch (openOnJump name id) (λ _, ret tt)
  else ret tt.

(** The arguments are taken to have the shape their request name casts
    them to; a request of another name is ignored. *)
Definition handleExtensionRequest (name : string) (args : ExtensionArgs) : M unit :=
  match args with
  | OpenFileArgs fileName close =>
      if bool_decide (name = "open-file") then openFile fileName close else ret tt
  | ExternalBufferArgs bname idStr expandTab tabStop isJumping =>
      if bool_decide (name = "external-buffer")
      then externalBuffer bname idStr expandTab tabStop isJumping
      else ret tt
  end.

(** *** Notifications of the host (lines 236-255) *)

Definition onDidCloseTextDocument (e : TextDocument) : M unit :=
  with_manager (upd_textDocumentToBufferId (delete e)).

(** Lines 246-248: the promise is made when the notification arrives.
    The call of the debounced [syncLayout] that follows arms a timer; it
    is a step of the [EventLoop] below. *)
Definition onDidChangeVisibleTextEditors : M unit :=
  s <- get;
  match changeLayoutPromise (manager s) with
  | Some _ => ret tt
  | None =>
      p <- new_promise;
      with_manager (set_changeLayoutPromise (Some p));;
      with_manager (set_changeLayoutPromiseResolve (Some p))
  end.

(** *** The layout reconciler (lines 259-394) *)

(** The locals of a pass that its two loops update. *)
Record Locals := {
  nvimRequests : list Request;
  keepViewColumns : gset Z;
}.

Definition arg_of (o : option number) : Arg :=
  match o with
  | Some n => ANum n
  | None => AUndefined
  end.

Fixpoint foldM {A X} (f : A → X → M A) (a : A) (xs : list X) : M A :=
  match xs with
  | [] => ret a
  | x :: xs => a' <- f a x; foldM f a' xs
  end.

(** Lines 284-297: make the buffer of the editor's document when the
    document has none.  The answer is [false] when the loop goes on to the
    next editor ([continue] of line 289). *)
Definition ensureBuffer (visibleEditor : TextEditor) : M bool :=
  s <- get;
  let document := document (editors (host s) visibleEditor) in
  if bool_decide (is_Some (textDocumentToBufferId (manager s) !! document)) then ret true
  else
    buf <- createBuffer false true;
    match buf with
    | inr code =>
        logger_error (LOG_PREFIX +:+ ": Cannot create a buffer, code: " +:+ pretty code);;
        ret false
    | inl buf =>
        initBufferForDocument document buf (Some visibleEditor);;
        with_manager (upd_textDocumentToBufferId (insert document (Int (buf_id buf))));;
        ret true
    end.

(** Lines 307-320: the window of the editor, made when the editor has no
    column or its column has no window. *)
Definition resolveWindow (visibleEditor : TextEditor) : M (option Z) :=
  s <- get;
  match column (host s) visibleEditor with
  | Some c =>
      match editorColumnsToWinId (manager s) !! c with
      | Some w => ret (Some w)
      | None =>
          winId <- createNeovimWindow;
          with_manager (upd_editorColumnsToWinId (insert c winId));;
          ret (Some winId)
      end
  | None =>
      winId <- createNeovimWindow;
      with_manager (upd_noColumnEditorsToWinId (insert visibleEditor winId));;
      ret (Some winId)
  end.

(** Lines 303-341.  With a logger that does not throw, no statement after
    the first update of the locals throws, so the [catch] finds them as
    they were. *)
Definition assignWindow (l : Locals) (visibleEditor : TextEditor) : M Locals :=
  s <- get;
  let editorBufferId :=
    textDocumentToBufferId (manager s) !! document (editors (host s) visibleEditor) in
  try_catch
    (winId <- resolveWindow visibleEditor;
     match winId with
     | Some w =>
         if truthy w then
           s <- get;
           let keep := match column (host s) visibleEditor with
                       | Some c => {[c]} ∪ keepViewColumns l
                       | None => keepViewColumns l
                       end in
           let cursor := getNeovimCursorPosFromEditor (host s) visibleEditor in
           ret {| nvimRequests := nvimRequests l ++
                    [ ("nvim_win_set_buf", [ANum w; arg_of editorBufferId]);
                      ("nvim_win_set_cursor",
                        [ANum w; AList [ANum (fst cursor); ANum (snd cursor)]]) ];
                  keepViewColumns := keep |}
         else throw {| message := "Invalid neovim window for editor" |}
     | None => throw {| message := "Invalid neovim window for editor" |}
     end)
    (λ e, logger_error (LOG_PREFIX +:+ ": " +:+ message e);; ret l).

(** The body of the first loop (lines 275-342). *)
Definition openVisible (prevVisibleEditors : list TextEditor) (l : Locals)
    (visibleEditor : TextEditor) : M Locals :=
  known <- ensureBuffer visibleEditor;
  if negb known then ret l
  else if bool_decide (visibleEditor ∈ prevVisibleEditors) then ret l
  else assignWindow l visibleEditor.

(** Lines 363-381: close the window of an editor that is gone. *)
Definition closeWindow (l : Locals) (prevVisibleEditor : TextEditor) : M Locals :=
  s <- get;
  let close (w : Z) := {| nvimRequests := nvimRequests l ++
                            [("nvim_win_close", [ANum w; ABool true])];
                          keepViewColumns := keepViewColumns l |} in
  match column (host s) prevVisibleEditor with
  | Some c =>
      if bool_decide (c ∈ keepViewColumns l) then ret l
      else
        match editorColumnsToWinId (manager s) !! c with
        | Some w =>
            if truthy w then
              with_manager (upd_editorColumnsToWinId (delete c));;
              ret (close w)
            else ret l
        | None => ret l
        end
  | None =>
      match noColumnEditorsToWinId (manager s) !! prevVisibleEditor with
      | Some w =>
          if truthy w then
            with_manager (upd_noColumnEditorsToWinId (delete prevVisibleEditor));;
            ret (close w)
          else ret l
      | None => ret l
      end
  end.

(** [currentVisibleEditors.find((e) => e.document === document)]. *)
Definition shown (h : Host) (currentVisibleEditors : list TextEditor)
    (d : TextDocument) : bool :=
  existsb (λ e, bool_decide (document (editors h e) = d)) currentVisibleEditors.

(** The body of the second loop (lines 346-382). *)
Definition closeInvisible (currentVisibleEditors : list TextEditor) (l : Locals)
    (prevVisibleEditor : TextEditor) : M Locals :=
  if bool_decide (prevVisibleEditor ∈ currentVisibleEditors) then ret l
  else
    s <- get;
    let document := document (editors (host s) prevVisibleEditor) in
    (if shown (host s) currentVisibleEditors document then ret tt
     else with_manager (upd_textDocumentToBufferId (delete document)));;
    closeWindow l prevVisibleEditor.

(** Lines 261-383: the pass up to and with the atomic call; it answers
    with its snapshot of the visible editors. *)
Definition syncLayoutBatch : M (list TextEditor) :=
  s <- get;
  let currentVisibleEditors := visibleTextEditors (host s) in
  let prevVisibleEditors := openedEditors (manager s) in
  l <- foldM (openVisible prevVisibleEditors)
         {| nvimRequests := []; keepViewColumns := ∅ |} currentVisibleEditors;
  l <- foldM (closeInvisible currentVisibleEditors) l prevVisibleEditors;
  callAtomic (nvimRequests l);;
  ret currentVisibleEditors.

(** Lines 385-390: what the pass does once the atomic call is answered. *)
Definition syncLayoutSettle (currentVisibleEditors : list TextEditor) : M unit :=
  with_manager (set_openedEditors currentVisibleEditors);;
  s <- get;
  match changeLayoutPromiseResolve (manager s) with
  | Some p => emit (ResolvePromise p)
  | None => ret tt
  end;;
  with_manager (set_changeLayoutPromise None).

(** One pass of the reconciler, run without interruption. *)
Definition syncLayout : M unit :=
  currentVisibleEditors <- syncLayoutBatch;
  syncLayoutSettle currentVisibleEditors.

(** *** The active-editor synchroniser (lines 396-425) *)

(** Lines 402-421: what [syncActiveEditor] does once the readiness promise,
    if there was one, is settled. *)
Definition syncActiveEditorNow : M unit :=
  s <- get;
  match activeTextEditor (host s) with
  | None => ret tt
  | Some activeEditor =>
      match getWinIdForTextEditor (manager s) (host s) activeEditor with
      | Some w =>
          if truthy w then request "nvim_set_current_win" [ANum w]
          else logger_error (windowUnknownText (host s) activeEditor)
      | None => logger_error (windowUnknownText (host s) activeEditor)
      end
  end.

End Handlers.

(** The same system when the host shows something else. *)
Definition with_host {B} (h : Host) (s : System B) : System B :=
  {| manager := manager s; host := h; nvim := nvim s;
     effects := effects s; promises := promises s |}.

(** ** The event loop

    The two synchronisers are debounced ([lodash.debounce], trailing edge
    only): a call arms a timer, or arms it anew, and the body runs when the
    timer expires.  The bodies are [async]: at an [await] the body is
    suspended and the other handlers run.  The loop below keeps the timers,
    the passes of the reconciler that wait for the answer to their batch
    (the [await] of line 383) and the runs of [syncActiveEditor] that wait
    for the readiness promise (the [await] of line 400).  The other awaits of
    a pass are taken to be answered at once. *)

Module EventLoop.

Record Loop (B : Type) := {
  system : System B;
  now : nat;                          (* the clock, in milliseconds *)
  layoutDue : option nat;             (* the timer of [syncLayout] *)
  activeDue : option nat;             (* the timer of [syncActiveEditor] *)
  passes : list (list TextEditor);    (* waiting passes, with their snapshot *)
  waiting : list Promise;             (* promises awaited by [syncActiveEditor] *)
}.
Arguments system {B} _.
Arguments now {B} _.
Arguments layoutDue {B} _.
Arguments activeDue {B} _.
Arguments passes {B} _.
Arguments waiting {B} _.

Inductive Event :=
| Sleep (ms : nat)            (* time passes *)
| HostChanges (h : Host)      (* the host shows something else *)
| VisibleEditorsChanged       (* onDidChangeVisibleTextEditors fires *)
| ActiveEditorChanged         (* onDidChangeActiveTextEditor fires *)
| LayoutTimer                 (* the timer of [syncLayout] expires *)
| BatchAnswered               (* the oldest waiting pass gets its answer *)
| ActiveTimer                 (* the timer of [syncActiveEditor] expires *)
| PromiseContinues.           (* the oldest waiting [syncActiveEditor] goes on *)

(** The delays of lines 392 and 423. *)
Definition layoutDelay : nat := 100.
Definition activeDelay : nat := 50.

Definition expired (due : option nat) (t : nat) : bool :=
  match due with
  | Some d => bool_decide (d ≤ t)%nat
  | None => false
  end.

(** Has the promise been settled. *)
Definition settled {B} (p : Promise) (s : System B) : bool :=
  existsb (λ e, match e with ResolvePromise q => bool_decide (q = p) | _ => false end)
    (effects s).

Section Step.
Context {B : Type} `{!NeovimClient B} `{!VSCode} `{!Utils}.

(** Runs a handler that ends normally. *)
Definition finish {A} (m : M B A) (s : System B) : option (A * System B) :=
  match m s with
  | (Ok a, s') => Some (a, s')
  | (Throw _, _) => None
  end.

(** One step of the loop; [None] when the event cannot happen now. *)
Definition step (ev : Event) (l : Loop B) : option (Loop B) :=
  match ev with
  | Sleep ms =>
      Some {| system := system l; now := now l + ms; layoutDue := layoutDue l;
              activeDue := activeDue l; passes := passes l; waiting := waiting l |}
  | HostChanges h =>
      Some {| system := with_host h (system l); now := now l; layoutDue := layoutDue l;
              activeDue := activeDue l; passes := passes l; waiting := waiting l |}
  | VisibleEditorsChanged =>
      '(_, s) ← finish onDidChangeVisibleTextEditors (system l);
      Some {| system := s; now := now l; layoutDue := Some (now l + layoutDelay)%nat;
              activeDue := activeDue l; passes := passes l; waiting := waiting l |}
  | ActiveEditorChanged =>
      Some {| system := system l; now := now l; layoutDue := layoutDue l;
              activeDue := Some (now l + activeDelay)%nat;
              passes := passes l; waiting := waiting l |}
  | LayoutTimer =>
      if expired (layoutDue l) (now l) then
        '(cur, s) ← finish syncLayoutBatch (system l);
        Some {| system := s; now := now l; layoutDue := None;
                activeDue := activeDue l; passes := passes l ++ [cur];
                waiting := waiting l |}
      else None
  | BatchAnswered =>
      match passes l with
      | cur :: rest =>
          '(_, s) ← finish (syncLayoutSettle cur) (system l);
          Some {| system := s; now := now l; layoutDue := layoutDue l;
                  activeDue := activeDue l; passes := rest; waiting := waiting l |}
      | [] => None
      end
  | ActiveTimer =>
      if expired (activeDue l) (now l) then
        match changeLayoutPromise (manager (system l)) with
        | Some p =>
            Some {| system := system l; now := now l; layoutDue := layoutDue l;
                    activeDue := None; passes := passes l; waiting := waiting l ++ [p] |}
        | None =>
            '(_, s) ← finish syncActiveEditorNow (system l);
            Some {| system := s; now := now l; layoutDue := layoutDue l;
                    activeDue := None; passes := passes l; waiting := waiting l |}
        end
      else None
  | PromiseContinues =>
      match waiting l with
      | p :: rest =>
          if settled p (system l) then
            '(_, s) ← finish syncActiveEditorNow (system l);
            Some {| system := s; now := now l; layoutDue := layoutDue l;
                    activeDue := activeDue l; passes := passes l; waiting := rest |}
          else None
      | [] => None
      end
  end.

Fixpoint run (evs : list Event) (l : Loop B) : option (Loop B) :=
  match evs with
  | [] => Some l
  | ev :: evs => l' ← step ev l; run evs l'
  end.

Definition idle (s : System B) : Loop B :=
  {| system := s; now := 0; layoutDue := None; activeDue := None;
     passes := []; waiting := [] |}.

End Step.

(** The request that makes a window the current one. *)
Definition setCurrentWin (w : Z) : Effect :=
  ClientRequest "nvim_set_current_win" [ANum (Int w)].

End EventLoop.

(** ** A small backend and a small host

    Two instances of the interfaces above, used to run the handlers on
    concrete inputs.  The backend hands out ids from a counter and refuses
    the creation calls whose serial number is listed in [refused]; the host
    keeps one visible editor per column. *)

Module Sim.

Record Nvim := {
  next : Z;              (* the next id to hand out *)
  served : nat;          (* creation calls answered so far *)
  refused : list nat;    (* serial numbers of the creation calls to refuse *)
  listed : list Buffer;  (* the buffers made so far *)
}.

Definition start (first : Z) (refused : list nat) : Nvim :=
  {| next := first; served := 0; refused := refused; listed := [] |}.

Definition refuse (b : Nvim) : Nvim :=
  {| next := next b; served := S (served b); refused := refused b; listed := listed b |}.

Definition created (buf : option Buffer) (b : Nvim) : Nvim :=
  {| next := next b + 1; served := S (served b); refused := refused b;
     listed := listed b ++ option_list buf |}.

#[global] Instance client : NeovimClient Nvim := {|
  client_createBuffer _ _ b :=
    if bool_decide (served b ∈ refused b) then (inr (-1), refuse b)
    else (inl {| buf_id := next b |}, created (Some {| buf_id := next b |}) b);
  client_openWindow _ _ _ b :=
    if bool_decide (served b ∈ refused b) then (inr (-1), refuse b)
    else (inl {| win_id := next b |}, created None b);
  client_callAtomic _ b := (None, b);
  client_buffers b := (listed b, b);
  client_request _ _ b := b;
  buffer_listen _ _ b := b;
|}.

#[global] Instance utils : Utils := {|
  getNeovimCursorPosFromEditor _ _ := (1, 0);
  atomicFailureText prefix _ f := prefix +:+ ": " +:+ failure f;
|}.

Definition plain : TextEditorOptions := {| insertSpaces := true; tabSize := 4 |}.

(** Editor [e] shows document [e] in column [e], up to [columns]; the
    editors beyond have no column. Document [d] has the URI [file:///d]. *)
Definition layout (columns : positive) (visible : list TextEditor)
    (active : option TextEditor) : Host := {|
  visibleTextEditors := visible;
  activeTextEditor := active;
  textDocuments := remove_dups visible;
  editors e := {| viewColumn := if bool_decide (e ≤ columns)%positive then Some (Z.pos e) else None;
                  document := e; options := plain |};
  documents d := {| uri := "file:///" +:+ pretty (Z.pos d); eol := LF;
                    getText := "one" +:+ newline +:+ "two"; isClosed := false |};
|}.

Definition fresh (l : list positive) : positive := Pos.succ (foldr Pos.max 1%positive l).

Definition with_document (d : TextDocument) (u : string) (h : Host) : Host := {|
  visibleTextEditors := visibleTextEditors h;
  activeTextEditor := activeTextEditor h;
  textDocuments := textDocuments h ++ [d];
  editors := editors h;
  documents x := if bool_decide (x = d)
                 then {| uri := u; eol := LF; getText := EmptyString; isClosed := false |}
                 else documents h x;
|}.

Definition open_named (u : string) (h : Host) : Result TextDocument * Host :=
  match List.find (λ d, bool_decide (uri (documents h d) = u)) (textDocuments h) with
  | Some d => (Ok d, h)
  | None => let d := fresh (textDocuments h) in (Ok d, with_document d u h)
  end.

(** The column a [showTextDocument] lands in: the one asked for when it is
    a column of the layout, else the column of the active editor, else the
    first. *)
Definition target_column (arg : ShowArg) (h : Host) : Z :=
  let asked := match arg with InColumn c => c | WithOptions c _ _ => c end in
  let active := match activeTextEditor h with
                | Some a => default 1 (column h a)
                | None => 1
                end in
  match asked with
  | Some c => if bool_decide (0 < c) then c else active
  | None => active
  end.

Definition show (d : TextDocument) (arg : ShowArg) (h : Host) : Result TextEditor * Host :=
  let c := target_column arg h in
  let e := fresh (visibleTextEditors h) in
  (Ok e, {| visibleTextEditors :=
              e :: filter (λ x, column h x ≠ Some c) (visibleTextEditors h);
            activeTextEditor := Some e;
            textDocuments := textDocuments h;
            editors x := if bool_decide (x = e)
                         then {| viewColumn := Some c; document := d; options := plain |}
                         else editors h x;
            documents := documents h |}).

Definition close_active (h : Host) : Host :=
  let rest := filter (λ x, Some x ≠ activeTextEditor h) (visibleTextEditors h) in
  {| visibleTextEditors := rest;
     activeTextEditor := head rest;
     textDocuments := textDocuments h;
     editors := editors h;
     documents := documents h |}.

Definition close_others (h : Host) : Host :=
  {| visibleTextEditors :=
       match activeTextEditor h with
       | Some a => if bool_decide (a ∈ visibleTextEditors h) then [a] else []
       | None => []
       end;
     activeTextEditor := activeTextEditor h;
     textDocuments := textDocuments h;
     editors := editors h;
     documents := documents h |}.

#[global] Instance vscode : VSCode := {|
  workspace_openTextDocument target h :=
    match target with
    | Untitled => let d := fresh (textDocuments h) in
                  (Ok d, with_document d "untitled:Untitled-1" h)
    | FileName u | ParsedUri u =>
        if bool_decide (u = EmptyString)
        then (Throw {| message := "cannot open" |}, h)
        else open_named u h
    end;
  window_showTextDocument := show;
  commands_executeCommand command h :=
    if bool_decide (command = "workbench.action.revertAndCloseActiveEditor")
    then (Ok tt, close_active h)
    else if bool_decide (command = "workbench.action.closeOtherEditors")
    then (Ok tt, close_others h)
    else (Ok tt, h);
|}.

Definition viewport : BufferManagerSettings :=
  {| neovimViewportWidth := 80; neovimViewportHeight := 24 |}.

(** A system that has done nothing yet. *)
Definition boot (h : Host) (b : Nvim) : System Nvim :=
  {| manager := newBufferManager viewport; host := h; nvim := b;
     effects := []; promises := 0 |}.

(** The backend knows the ids below its counter. *)
Definition known (b : Nvim) (w : Z) : Prop := w < next b.

(** Editor 1 alone; editors 1 and 2 side by side, with the focus on the
    first or on the second; one editor without column. *)
Definition one : Host := layout 2 [1%positive] (Some 1%positive).
Definition two_first : Host := layout 2 [1%positive; 2%positive] (Some 1%positive).
Definition two_second : Host := layout 2 [1%positive; 2%positive] (Some 2%positive).
Definition three : Host :=
  layout 2 [1%positive; 2%positive; 3%positive] (Some 1%positive).

(** Systems that have done nothing yet, with one editor and with two. *)
Definition lone : System Nvim := boot one (start 1000 []).
Definition pair : System Nvim := boot two_first (start 1000 []).

(** The system after its first pass over the three editors. *)
Definition synced : System Nvim := (syncLayout (boot three (start 1000 []))).2.

(** A second editor opens while the first pass waits for the answer to its
    batch; the host reports the change of the visible editors and of the
    active editor at once. *)
Definition overlap (after : Host) : list EventLoop.Event :=
  [ EventLoop.VisibleEditorsChanged;
    EventLoop.Sleep 100; EventLoop.LayoutTimer;
    EventLoop.Sleep 10; EventLoop.HostChanges after;
    EventLoop.VisibleEditorsChanged; EventLoop.ActiveEditorChanged;
    EventLoop.Sleep 10; EventLoop.BatchAnswered;
    EventLoop.Sleep 40; EventLoop.ActiveTimer;
    EventLoop.Sleep 50; EventLoop.LayoutTimer;
    EventLoop.Sleep 10; EventLoop.BatchAnswered ].

(** The two notifications arrive while nothing is under way. *)
Definition calm : list EventLoop.Event :=
  [ EventLoop.VisibleEditorsChanged; EventLoop.ActiveEditorChanged;
    EventLoop.Sleep 50; EventLoop.ActiveTimer;
    EventLoop.Sleep 50; EventLoop.LayoutTimer;
    EventLoop.Sleep 10; EventLoop.BatchAnswered; EventLoop.PromiseContinues ].

(** The batch of a pass that gives window [w] the buffer [b]. *)
Definition shows (w b : Z) : list Request :=
  [ ("nvim_win_set_buf", [ANum (Int w); ANum (Int b)]);
    ("nvim_win_set_cursor", [ANum (Int w); AList [ANum (Int 1); ANum (Int 0)]]) ].

End Sim.

(** ** The lookups by value (lines 87-133)

    [[...map]] lists the entries of a map in the order of their insertion.
    The maps of the manager do not keep that order, so the lookups by value
    take the listing as the spread gives it; [spread] says that a list is a
    listing of a map, in some order. *)

Definition spread `{Countable K} {V} (entries : list (K * V)) (m : gmap K V) : Prop :=
  entries ≡ₚ map_to_list m.

(** The four listings the lookups read. *)
Record Spreads := {
  documentEntries : list (TextDocument * number);   (* [...this.textDocumentToBufferId] *)
  gridEntries : list (Z * GridConf);                (* [...this.grids] *)
  noColumnEntries : list (TextEditor * Z);          (* [...this.noColumnEditorsToWinId] *)
  columnEntries : list (Z * Z);                     (* [...this.editorColumnsToWinId] *)
}.

Definition spreads (x : Spreads) (m : BufferManager) : Prop :=
  spread (documentEntries x) (textDocumentToBufferId m) ∧
  spread (gridEntries x) (grids m) ∧
  spread (noColumnEntries x) (noColumnEditorsToWinId m) ∧
  spread (columnEntries x) (editorColumnsToWinId m).

Definition getTextDocumentForBufferId (x : Spreads) (h : Host) (id : number)
    : option TextDocument :=
  match List.find (λ '(_, bufId), number_eqb id bufId) (documentEntries x) with
  | Some (doc, _) => if negb (isClosed (documents h doc)) then Some doc else None
  | None => None
  end.

Definition getGridIdForWinId (x : Spreads) (id : Z) : option Z :=
  match List.find (λ '(_, conf), bool_decide (winId conf = id)) (gridEntries x) with
  | Some grid => Some grid.1
  | None => None
  end.

Definition getEditorFromWinId (x : Spreads) (m : BufferManager) (h : Host) (id : Z)
    : option TextEditor :=
  match List.find (λ '(_, w), bool_decide (w = id)) (noColumnEntries x) with
  | Some noColumnEditor => Some noColumnEditor.1
  | None =>
      match List.find (λ '(_, w), bool_decide (w = id)) (columnEntries x) with
      | Some (viewColumnId, _) =>
          if truthy viewColumnId then
            List.find (λ e, bool_decide (viewColumn (editors h e) = Some viewColumnId))
              (openedEditors m)
          else None
      | None => None
      end
  end.

Definition getEditorFromGridId (x : Spreads) (m : BufferManager) (h : Host) (gridId : Z)
    : option TextEditor :=
  match getWinIdForGridId m gridId with
  | Some w => if truthy w then getEditorFromWinId x m h w else None
  | None => None
  end.

(** ** The logger (src/logger.ts)

    The logger writes to a file, to an output channel of the host and to
    the console, and shows errors to the user.  The file system is a
    parameter: its calls answer or throw.  The calls of the host
    ([createOutputChannel], [appendLine], [showErrorMessage]) and
    [console.log] are taken not to throw. *)

Module LogLevel.

Inductive t := none | error | warn | debug.

(** The number of a level (lines 6-11). *)
Definition value (l : t) : Z :=
  match l with
  | none => 0
  | error => 1
  | warn => 2
  | debug => 3
  end.

End LogLevel.

Module Logger.

(** What the logger does to the outside, in the order it does it. *)
Inductive Output :=
| OpenSync (filePath : string)
| AppendFileSync (fd : Z) (data : string)
| CloseSync (fd : Z)
| CreateOutputChannel (name : string)
| AppendLine (msg : string)
| DisposeChannel
| ConsoleLog (msg : string)
| ShowErrorMessage (msg : string).

(** The calls of [fs]: each answers or throws, and the file system moves
    on. *)
Class FileSystem (F : Type) := {
  fs_openSync : string → F → Result Z * F;
  fs_appendFileSync : Z → string → F → Result unit * F;
  fs_closeSync : Z → F → Result unit * F;
}.

Record World (F : Type) := {
  files : F;
  outputs : list Output;
}.
Arguments files {F} _.
Arguments outputs {F} _.

(** The fields of a [Logger]; [outputChannel] says whether the channel
    exists. *)
Record Logger := {
  logLevel : LogLevel.t;
  fd : Z;
  outputChannel : bool;
  outputToConsole : bool;
}.

Section Methods.
Context {F : Type} `{!FileSystem F}.

Definition put (o : list Output) (w : World F) : World F :=
  {| files := files w; outputs := outputs w ++ o |}.

(** The constructor (lines 20-34).  [EXT_NAME] is a constant of [./utils],
    which is not among the sources. *)
Definition new (EXT_NAME : string) (logLevel : LogLevel.t) (filePath : string)
    (outputToConsole : bool) (w : World F) : Logger * World F :=
  match logLevel with
  | LogLevel.none =>
      ({| logLevel := logLevel; fd := 0; outputChannel := false;
          outputToConsole := outputToConsole |}, w)
  | _ =>
      let '(r, f) := fs_openSync filePath (files w) in
      ({| logLevel := logLevel;
          fd := match r with Ok d => d | Throw _ => 0 end;
          outputChannel := true;
          outputToConsole := outputToConsole |},
       {| files := f;
          outputs := outputs w ++
            [OpenSync filePath; CreateOutputChannel (EXT_NAME +:+ " logs")] |})
  end.

(** The three writes that [debug], [warn] and [error] share (lines 46-54,
    61-69 and 76-84): a write to the file that throws ends the method. *)
Definition write (lg : Logger) (msg : string) (w : World F) : Result unit * World F :=
  let '(r, w) :=
    if truthy (fd lg) then
      let '(r, f) := fs_appendFileSync (fd lg) (msg +:+ newline) (files w) in
      (r, {| files := f;
             outputs := outputs w ++ [AppendFileSync (fd lg) (msg +:+ newline)] |})
    else (Ok tt, w) in
  match r with
  | Throw e => (Throw e, w)
  | Ok _ =>
      (Ok tt, put ((if outputChannel lg then [AppendLine msg] else []) ++
                   (if outputToConsole lg then [ConsoleLog msg] else [])) w)
  end.

(** [this.logLevel >= level]. *)
Definition enabled (lg : Logger) (level : LogLevel.t) : bool :=
  bool_decide (LogLevel.value level ≤ LogLevel.value (logLevel lg)).

(** [timestamp] is what [getTimestamp] answers at the call. *)
Definition debug (lg : Logger) (timestamp msg : string) (w : World F)
    : Result unit * World F :=
  let msg := timestamp +:+ " DEBUG " +:+ msg in
  if enabled lg LogLevel.debug then write lg msg w else (Ok tt, w).

Definition warn (lg : Logger) (timestamp msg : string) (w : World F)
    : Result unit * World F :=
  let msg := timestamp +:+ " WARN  " +:+ msg in
  if enabled lg LogLevel.warn then write lg msg w else (Ok tt, w).

Definition error (lg : Logger) (timestamp msg : string) (w : World F)
    : Result unit * World F :=
  let logMsg := timestamp +:+ " ERROR " +:+ msg in
  let '(r, w) := if enabled lg LogLevel.error then write lg logMsg w else (Ok tt, w) in
  match r with
  | Throw e => (Throw e, w)
  | Ok _ => (Ok tt, put [ShowErrorMessage msg] w)
  end.

Definition dispose (lg : Logger) (w : World F) : Result unit * World F :=
  let '(r, w) :=
    if truthy (fd lg) then
      let '(r, f) := fs_closeSync (fd lg) (files w) in
      (r, {| files := f; outputs := outputs w ++ [CloseSync (fd lg)] |})
    else (Ok tt, w) in
  match r with
  | Throw e => (Throw e, w)
  | Ok _ => (Ok tt, put (if outputChannel lg then [DisposeChannel] else []) w)
  end.

(** A call of one of the three methods, with the time of the call. *)
Inductive Call :=
| CallDebug (timestamp msg : string)
| CallWarn (timestamp msg : string)
| CallError (timestamp msg : string).

Definition call (lg : Logger) (c : Call) : World F → Result unit * World F :=
  match c with
  | CallDebug t m => debug lg t m
  | CallWarn t m => warn lg t m
  | CallError t m => error lg t m
  end.

(** Calls one after the other, up to the first that throws. *)
Fixpoint calls (lg : Logger) (cs : list Call) (w : World F) : Result unit * World F :=
  match cs with
  | [] => (Ok tt, w)
  | c :: cs =>
      match call lg c w with
      | (Ok _, w) => calls lg cs w
      | (Throw e, w) => (Throw e, w)
      end
  end.

End Methods.

(** The level of a call and the line it logs. *)
Definition levelOf (c : Call) : LogLevel.t :=
  match c with
  | CallDebug _ _ => LogLevel.debug
  | CallWarn _ _ => LogLevel.warn
  | CallError _ _ => LogLevel.error
  end.

Definition lineOf (c : Call) : string :=
  match c with
  | CallDebug t m => t +:+ " DEBUG " +:+ m
  | CallWarn t m => t +:+ " WARN  " +:+ m
  | CallError t m => t +:+ " ERROR " +:+ m
  end.

(** The error messages that a sequence of calls shows to the user. *)
Definition shownErrors (cs : list Call) : list Output :=
  cs ≫= λ c, match c with CallError _ m => [ShowErrorMessage m] | _ => [] end.

(** What a call of a logger without file gives out. *)
Definition entries (lg : Logger) (c : Call) : list Output :=
  (if enabled lg (levelOf c)
   then (if outputChannel lg then [AppendLine (lineOf c)] else []) ++
        (if outputToConsole lg then [ConsoleLog (lineOf c)] else [])
   else []) ++
  match c with CallError _ m => [ShowErrorMessage m] | _ => [] end.

(** The data written to files and the lines given to the channel. *)
Definition fileData (o : list Output) : list string :=
  omap (λ x, match x with AppendFileSync _ d => Some d | _ => None end) o.

Definition channelLines (o : list Output) : list string :=
  omap (λ x, match x with AppendLine l => Some l | _ => None end) o.

Definition touchesFiles (x : Output) : bool :=
  match x with
  | OpenSync _ | AppendFileSync _ _ | CloseSync _ => true
  | _ => false
  end.

(** The same logger at another level. *)
Definition atLevel (level : LogLevel.t) (lg : Logger) : Logger :=
  {| logLevel := level; fd := fd lg; outputChannel := outputChannel lg;
     outputToConsole := outputToConsole lg |}.

End Logger.

(** A small disk, used to run the logger on concrete inputs: a file opens
    under the descriptor 3 unless its path is empty, and a write succeeds
    while there is room. *)
Module Disk.

Record Disk := {
  room : nat;                       (* writes the disk still takes *)
  written : list (Z * string);
}.

#[global] Instance fs : Logger.FileSystem Disk := {|
  Logger.fs_openSync path d :=
    if bool_decide (path = EmptyString) then (Throw {| message := "ENOENT" |}, d)
    else (Ok 3, d);
  Logger.fs_appendFileSync fd data d :=
    match room d with
    | O => (Throw {| message := "ENOSPC" |}, d)
    | S n => (Ok tt, {| room := n; written := written d ++ [(fd, data)] |})
    end;
  Logger.fs_closeSync _ d := (Ok tt, d);
|}.

(** A world in which nothing was done yet, with room for [n] writes. *)
Definition blank (n : nat) : Logger.World Disk :=
  {| Logger.files := {| room := n; written := [] |}; Logger.outputs := [] |}.

(** Two calls at time [t]: a debug line and an error. *)
Definition session : list Logger.Call :=
  [Logger.CallDebug "t" "starting"; Logger.CallError "t" "no window"].

End Disk.

(** ** The handlers with their logger

    The manager gets its logger from its constructor (line 64) and calls
    [debug] and [error] of it.  Both write to the log file before anything
    else, and a write that fails throws (logger.ts, lines 47 and 77): a
    call of the logger may end a handler where it stands.  The handlers
    above are the handlers as they run with a logger that does not throw,
    and they record the errors that are logged, not the debug lines.  The
    handlers below are the same handlers with every call of the logger at
    its place.  The logger is a parameter; what is outside of the manager
    is then the backend together with the sinks of the logger, so that the
    handlers run on a [System (B * G)]. *)

(** [this.logger]: a call answers or throws, and the sinks move on. *)
Class Log (G : Type) := {
  log_debug : string → G → Result unit * G;   (* logger.debug(msg) *)
  log_error : string → G → Result unit * G;   (* logger.error(msg) *)
}.

(** The logger of logger.ts as the logger of the manager: its sinks are
    the world it writes to and the number of the calls made so far, which
    the clock turns into the time of the next call. *)
Definition logger_of {F} `{!Logger.FileSystem F} (lg : Logger.Logger) (clock : nat → string)
    : Log (Logger.World F * nat) := {|
  log_debug msg g :=
    let '(r, w) := Logger.debug lg (clock g.2) msg g.1 in (r, (w, S g.2));
  log_error msg g :=
    let '(r, w) := Logger.error lg (clock g.2) msg g.1 in (r, (w, S g.2));
|}.

(** [`${x}`] for [number | undefined] read from the document map. *)
Definition show_number_opt (o : option number) : string :=
  match o with
  | Some n => toString n
  | None => "undefined"
  end.

Module Logged.

(** The client of the backend when the sinks of the logger stand beside
    the backend. *)
#[global] Instance beside {B G} `{!NeovimClient B} : NeovimClient (B * G) := {|
  client_createBuffer listed scratch x :=
    let r := client_createBuffer listed scratch x.1 in (r.1, (r.2, x.2));
  client_openWindow buffer enter opts x :=
    let r := client_openWindow buffer enter opts x.1 in (r.1, (r.2, x.2));
  client_callAtomic requests x :=
    let r := client_callAtomic requests x.1 in (r.1, (r.2, x.2));
  client_buffers x :=
    let r := client_buffers x.1 in (r.1, (r.2, x.2));
  client_request name args x := (client_request name args x.1, x.2);
  buffer_listen buffer event x := (buffer_listen buffer event x.1, x.2);
|}.

(** The system without the sinks of the logger. *)
Definition backend {B G} (s : System (B * G)) : System B :=
  {| manager := manager s; host := host s; nvim := (nvim s).1;
     effects := effects s; promises := promises s |}.

(** The same system with other sinks. *)
Definition with_sinks {B G} (g : G) (s : System (B * G)) : System (B * G) :=
  {| manager := manager s; host := host s; nvim := ((nvim s).1, g);
     effects := effects s; promises := promises s |}.

Section Handlers.
Context {B G : Type} `{!NeovimClient B} `{!VSCode} `{!Utils} `{!Log G}.

Local Abbreviation M := (M (B * G)).

Definition on_logger (f : G → Result unit * G) : M unit :=
  λ s, let r := f (nvim s).2 in (r.1, with_sinks r.2 s).

(** [this.logger.debug(msg)]. *)
Definition logger_debug (msg : string) : M unit := on_logger (log_debug msg).

(** [this.logger.error(msg)]; the call is recorded, as above. *)
Definition logger_error (msg : string) : M unit :=
  emit (LoggerError msg);;
  on_logger (log_error msg).

(** Modelled from the spec, as above: the failure of a batch is logged
    with [logger.error]. *)
Definition callAtomic (requests : list Request) : M unit :=
  emit (CallAtomic requests);;
  res <- on_nvim (client_callAtomic requests);
  match res with
  | Some f => logger_error (atomicFailureText LOG_PREFIX requests f)
  | None => ret tt
  end.

(** Lines 442-478. *)
Definition initBufferForDocument (document : TextDocument) (buffer : Buffer)
    (editor : option TextEditor) : M unit :=
  s <- get;
  let bufId := buf_id buffer in
  logger_debug (LOG_PREFIX +:+ ": Init buffer for " +:+ toString (Int bufId) +:+ ", doc: " +:+
                uri (documents (host s) document));;
  callAtomic (initRequests (host s) document bufId editor);;
  (if onBufferInit (manager s) then emit (BufferInit bufId document) else ret tt);;
  listen buffer "lines".

(** Lines 480-493. *)
Definition resyncBufferTabOptions (editor : TextEditor) (bufId : number) : M unit :=
  s <- get;
  callAtomic (tabOptionRequests bufId (options (editors (host s) editor))).

(** Lines 500-525. *)
Definition createNeovimWindow : M Z :=
  buf <- createBuffer true true;
  match buf with
  | inr code =>
      throw {| message :=
        "Unable to create a temporary buffer for new neovim window, code: " +:+ pretty code |}
  | inl buf =>
      s <- get;
      win <- openWindow buf false
               {| external := true;
                  width := neovimViewportWidth (settings (manager s));
                  height := neovimViewportHeight (settings (manager s)) |};
      match win with
      | inr code =>
          throw {| message := "Unable to create a new neovim window, code: " +:+ pretty code |}
      | inl win =>
          callAtomic
            [ ("nvim_win_set_var", [ANum (win_id win); AStr "vscode_clearjumps"; ABool true]);
              ("nvim_buf_set_option", [ANum (buf_id buf); AStr "vscode_temp"; ABool true]);
              ("nvim_buf_set_option", [ANum (buf_id buf); AStr "hidden"; ABool false]);
              ("nvim_buf_set_option", [ANum (buf_id buf); AStr "bufhidden"; AStr "wipe"]) ];;
          ret (win_id win)
      end
  end.

(** *** Requests of the backend (lines 160-234) *)

(** Lines 196-200. *)
Definition jumpDocument (name : string) : M TextDocument :=
  s <- get;
  match List.find (λ d, bool_decide (uri (documents (host s) d) = name))
          (textDocuments (host s)) with
  | Some d => ret d
  | None =>
      logger_debug (LOG_PREFIX +:+ ": Opening a doc: " +:+ name);;
      openTextDocument (ParsedUri name)
  end.

(** The text of line 203. *)
Definition mappingText : string :=
  LOG_PREFIX +:+ ": No doc -> buffer mapping exists, assigning mapping and init buffer options".

(** Lines 201-213. *)
Definition mapOnJump (doc : TextDocument) (id : number) : M bool :=
  s <- get;
  if bool_decide (is_Some (textDocumentToBufferId (manager s) !! doc)) then ret false
  else
    logger_debug mappingText;;
    buffers <- getBuffers;
    forceTabOptions <-
      match List.find (λ b, number_eqb (Int (buf_id b)) id) buffers with
      | Some buf => initBufferForDocument doc buf None;; ret true
      | None => ret false
      end;
    with_manager (upd_textDocumentToBufferId (insert doc id));;
    ret forceTabOptions.

(** The [try] block of lines 195-226. *)
Definition openOnJump (name : string) (id : number) : M unit :=
  doc <- jumpDocument name;
  forceTabOptions <- mapOnJump doc id;
  s <- get;
  editor <- showTextDocument doc (WithOptions (activeColumn (host s)) false false);
  if forceTabOptions : bool then resyncBufferTabOptions editor id else ret tt.

(** The texts of lines 189 and 192. *)
Definition attachingText (name : string) : string :=
  LOG_PREFIX +:+ ": Attaching new external buffer: " +:+ name.

Definition openingText (name : string) : string :=
  LOG_PREFIX +:+ ": Opening a " +:+ name +:+ " because of jump".

(** [case "external-buffer"]: the two calls of the logger of lines 189 and
    192 are outside of the [try]. *)
Definition externalBuffer (name idStr : string) (expandTab tabStop isJumping : Z) : M unit :=
  let id := parseInt idStr in
  if negb (truthy_str name && includes "://" name) then
    logger_debug (attachingText name);;
    attachNeovimExternalBuffer name id (truthy expandTab) tabStop
  else if truthy isJumping && truthy_str name then
    logger_debug (openingText name);;
    try_catch (openOnJump name id) (λ _, ret tt)
  else ret tt.

(** An open-file request does not call the logger. *)
Definition handleExtensionRequest (name : string) (args : ExtensionArgs) : M unit :=
  match args with
  | OpenFileArgs fileName close =>
      if bool_decide (name = "open-file") then openFile fileName close else ret tt
  | ExternalBufferArgs bname idStr expandTab tabStop isJumping =>
      if bool_decide (name = "external-buffer")
      then externalBuffer bname idStr expandTab tabStop isJumping
      else ret tt
  end.

(** *** The layout reconciler (lines 259-394) *)

(** The text of line 276. *)
Definition visibleText (h : Host) (visibleEditor : TextEditor) : string :=
  LOG_PREFIX +:+ ": Visible editor, viewColumn: " +:+
  show_opt (viewColumn (editors h visibleEditor)) +:+ ", doc: " +:+
  uri (documents h (document (editors h visibleEditor))).

(** Lines 276-297. *)
Definition ensureBuffer (visibleEditor : TextEditor) : M bool :=
  s <- get;
  logger_debug (visibleText (host s) visibleEditor);;
  let document := document (editors (host s) visibleEditor) in
  if bool_decide (is_Some (textDocumentToBufferId (manager s) !! document)) then ret true
  else
    logger_debug (LOG_PREFIX +:+ ": Document not known, init in neovim");;
    buf <- createBuffer false true;
    match buf with
    | inr code =>
        logger_error (LOG_PREFIX +:+ ": Cannot create a buffer, code: " +:+ pretty code);;
        ret false
    | inl buf =>
        initBufferForDocument document buf (Some visibleEditor);;
        logger_debug (LOG_PREFIX +:+ ": Document: " +:+ uri (documents (host s) document) +:+
                      ", BufId: " +:+ toString (Int (buf_id buf)));;
        with_manager (upd_textDocumentToBufferId (insert document (Int (buf_id buf))));;
        ret true
    end.

(** Lines 308-317: a new window, filed under the column of the editor or
    under the editor; [h] is the host at line 307. *)
Definition newWindow (h : Host) (visibleEditor : TextEditor) : M (option Z) :=
  logger_debug (LOG_PREFIX +:+ ": Creating new neovim window for " +:+
                show_opt (viewColumn (editors h visibleEditor)) +:+
                " column (undefined is OK here)");;
  winId <- createNeovimWindow;
  match column h visibleEditor with
  | Some c => with_manager (upd_editorColumnsToWinId (insert c winId))
  | None => with_manager (upd_noColumnEditorsToWinId (insert visibleEditor winId))
  end;;
  logger_debug (LOG_PREFIX +:+ ": ViewColumn: " +:+
                show_opt (viewColumn (editors h visibleEditor)) +:+
                " - WinId: " +:+ toString (Int winId));;
  ret (Some winId).

(** Lines 307-320. *)
Definition resolveWindow (visibleEditor : TextEditor) : M (option Z) :=
  s <- get;
  match column (host s) visibleEditor with
  | Some c =>
      match editorColumnsToWinId (manager s) !! c with
      | Some w => ret (Some w)
      | None => newWindow (host s) visibleEditor
      end
  | None => newWindow (host s) visibleEditor
  end.

(** Lines 307-324: the window of the editor, which is not falsy. *)
Definition validWindow (visibleEditor : TextEditor) : M Z :=
  winId <- resolveWindow visibleEditor;
  match winId with
  | Some w => if truthy w then ret w else throw {| message := "Invalid neovim window for editor" |}
  | None => throw {| message := "Invalid neovim window for editor" |}
  end.

(** Lines 303-341.  The locals of the pass are objects that the [try]
    block updates in place, so the [catch] finds them as the block left
    them: as they were when lines 307-324 throw, and with the column kept
    (line 326) when the call of the logger of line 330 throws.  The block
    is split at line 326 accordingly; the [catch] is the same for both
    parts. *)
Definition assignWindow (l : Locals) (visibleEditor : TextEditor) : M Locals :=
  s <- get;
  let editorBufferId :=
    textDocumentToBufferId (manager s) !! document (editors (host s) visibleEditor) in
  let catch (l : Locals) (e : Error) : M Locals :=
    logger_error (LOG_PREFIX +:+ ": " +:+ message e);; ret l in
  winId <- try_catch (w <- validWindow visibleEditor; ret (inl w)) (λ e, ret (inr e));
  match winId with
  | inr e => catch l e
  | inl w =>
      s <- get;
      let keep := match column (host s) visibleEditor with
                  | Some c => {[c]} ∪ keepViewColumns l
                  | None => keepViewColumns l
                  end in
      let cursor := getNeovimCursorPosFromEditor (host s) visibleEditor in
      try_catch
        (logger_debug (LOG_PREFIX +:+ ": Setting buffer: " +:+ show_number_opt editorBufferId +:+
                       " to win: " +:+ toString (Int w) +:+ ", cursor: [" +:+
                       toString (Int (fst cursor)) +:+ ", " +:+ toString (Int (snd cursor)) +:+
                       "]");;
         ret {| nvimRequests := nvimRequests l ++
                  [ ("nvim_win_set_buf", [ANum w; arg_of editorBufferId]);
                    ("nvim_win_set_cursor",
                      [ANum w; AList [ANum (fst cursor); ANum (snd cursor)]]) ];
                keepViewColumns := keep |})
        (catch {| nvimRequests := nvimRequests l; keepViewColumns := keep |})
  end.

(** The body of the first loop (lines 275-342). *)
Definition openVisible (prevVisibleEditors : list TextEditor) (l : Locals)
    (visibleEditor : TextEditor) : M Locals :=
  known <- ensureBuffer visibleEditor;
  if negb known then ret l
  else if bool_decide (visibleEditor ∈ prevVisibleEditors) then
    logger_debug (LOG_PREFIX +:+ ": Editor wasn't changed, skip");;
    ret l
  else assignWindow l visibleEditor.

(** Lines 363-381. *)
Definition closeWindow (l : Locals) (prevVisibleEditor : TextEditor) : M Locals :=
  s <- get;
  let close (w : Z) :=
    logger_debug (LOG_PREFIX +:+ ": Editor viewColumn: " +:+
                  show_opt (viewColumn (editors (host s) prevVisibleEditor)) +:+
                  ", winId: " +:+ toString (Int w) +:+ ", closing");;
    ret {| nvimRequests := nvimRequests l ++ [("nvim_win_close", [ANum w; ABool true])];
           keepViewColumns := keepViewColumns l |} in
  match column (host s) prevVisibleEditor with
  | Some c =>
      if bool_decide (c ∈ keepViewColumns l) then ret l
      else
        match editorColumnsToWinId (manager s) !! c with
        | Some w =>
            if truthy w then
              with_manager (upd_editorColumnsToWinId (delete c));;
              close w
            else ret l
        | None => ret l
        end
  | None =>
      match noColumnEditorsToWinId (manager s) !! prevVisibleEditor with
      | Some w =>
          if truthy w then
            with_manager (upd_noColumnEditorsToWinId (delete prevVisibleEditor));;
            close w
          else ret l
      | None => ret l
      end
  end.

(** The body of the second loop (lines 346-382). *)
Definition closeInvisible (currentVisibleEditors : list TextEditor) (l : Locals)
    (prevVisibleEditor : TextEditor) : M Locals :=
  if bool_decide (prevVisibleEditor ∈ currentVisibleEditors) then
    s <- get;
    logger_debug (LOG_PREFIX +:+ ": Editor viewColumn: " +:+
                  show_opt (viewColumn (editors (host s) prevVisibleEditor)) +:+
                  ", visibility hasn't changed, skip");;
    ret l
  else
    s <- get;
    let document := document (editors (host s) prevVisibleEditor) in
    (if shown (host s) currentVisibleEditors document then ret tt
     else
       logger_debug (LOG_PREFIX +:+ ": Document " +:+ uri (documents (host s) document) +:+
                     " is not visible, removing mapping to bufId: " +:+
                     show_number_opt (textDocumentToBufferId (manager s) !! document));;
       with_manager (upd_textDocumentToBufferId (delete document)));;
    closeWindow l prevVisibleEditor.

(** The text of line 261. *)
Definition syncingText : string := LOG_PREFIX +:+ ": syncing layout".

(** Lines 270-342: the first loop. *)
Definition openLoop (prevVisibleEditors currentVisibleEditors : list TextEditor) : M Locals :=
  logger_debug (LOG_PREFIX +:+ ": new/changed editors/windows");;
  foldM (openVisible prevVisibleEditors)
    {| nvimRequests := []; keepViewColumns := ∅ |} currentVisibleEditors.

(** Lines 344-382: the second loop. *)
Definition closeLoop (currentVisibleEditors prevVisibleEditors : list TextEditor) (l : Locals)
    : M Locals :=
  logger_debug (LOG_PREFIX +:+ ": Closing non visible editors");;
  foldM (closeInvisible currentVisibleEditors) l prevVisibleEditors.

(** Lines 261-383. *)
Definition syncLayoutBatch : M (list TextEditor) :=
  logger_debug syncingText;;
  s <- get;
  let currentVisibleEditors := visibleTextEditors (host s) in
  let prevVisibleEditors := openedEditors (manager s) in
  l <- openLoop prevVisibleEditors currentVisibleEditors;
  l <- closeLoop currentVisibleEditors prevVisibleEditors l;
  callAtomic (nvimRequests l);;
  ret currentVisibleEditors.

(** One pass of the reconciler; lines 385-390 do not call the logger. *)
Definition syncLayout : M unit :=
  currentVisibleEditors <- syncLayoutBatch;
  syncLayoutSettle currentVisibleEditors.

End Handlers.

(** A logger that does not throw. *)
Definition reliable {G} `{!Log G} : Prop :=
  ∀ msg g, (log_debug msg g).1 = Ok tt ∧ (log_error msg g).1 = Ok tt.

End Logged.

(** ** Vocabulary of the statements *)

(** What the atomic helper logs for a batch: one error when the backend
    answers with a failure. *)
Definition atomicLog {B} `{!NeovimClient B} `{!Utils} (requests : list Request) (b : B)
    : list Effect :=
  match (client_callAtomic requests b).1 with
  | Some f => [LoggerError (atomicFailureText LOG_PREFIX requests f)]
  | None => []
  end.

(** The effects of settling a promise through [changeLayoutPromiseResolve]. *)
Definition resolveLog (m : BufferManager) : list Effect :=
  match changeLayoutPromiseResolve m with
  | Some p => [ResolvePromise p]
  | None => []
  end.

(** The three forward maps of two managers agree. *)
Definition same_maps (m m' : BufferManager) : Prop :=
  textDocumentToBufferId m' = textDocumentToBufferId m ∧
  editorColumnsToWinId m' = editorColumnsToWinId m ∧
  noColumnEditorsToWinId m' = noColumnEditorsToWinId m.

(** An effect that makes something in the backend. *)
Definition creates (e : Effect) : bool :=
  match e with
  | CreateBuffer _ _ | OpenWindow _ _ _ => true
  | _ => false
  end.

(** The errors logged among some effects. *)
Definition errors (l : list Effect) : list string :=
  omap (λ e, match e with LoggerError msg => Some msg | _ => None end) l.

(** The batches issued among some effects. *)
Definition batches (l : list Effect) : list (list Request) :=
  omap (λ e, match e with CallAtomic r => Some r | _ => None end) l.

Definition same_rest (m m' : BufferManager) : Prop :=
  changeLayoutPromise m' = changeLayoutPromise m ∧
  changeLayoutPromiseResolve m' = changeLayoutPromiseResolve m ∧
  openedEditors m' = openedEditors m ∧
  grids m' = grids m ∧
  onBufferInit m' = onBufferInit m ∧
  settings m' = settings m.

Inductive advances {B} `{!NeovimClient B} : B → B → Prop :=
| advances_refl b : advances b b
| advances_createBuffer b b1 listed scratch r b2 :
    advances b b1 → client_createBuffer listed scratch b1 = (r, b2) → advances b b2
| advances_openWindow b b1 buf enter opts r b2 :
    advances b b1 → client_openWindow buf enter opts b1 = (r, b2) → advances b b2
| advances_callAtomic b b1 requests r b2 :
    advances b b1 → client_callAtomic requests b1 = (r, b2) → advances b b2
| advances_buffers b b1 r b2 :
    advances b b1 → client_buffers b1 = (r, b2) → advances b b2
| advances_request b b1 name args :
    advances b b1 → advances b (client_request name args b1)
| advances_listen b b1 buf event :
    advances b b1 → advances b (buffer_listen buf event b1).

Definition evolves {B} `{!NeovimClient B} (s s' : System B) : Prop :=
  host s' = host s ∧ promises s' = promises s ∧
  advances (nvim s) (nvim s') ∧
  (∃ evs, effects s' = effects s ++ evs) ∧
  same_rest (manager s) (manager s').

(** What a visit of the first loop may do to the document map ... *)
Definition doc_step (d : TextDocument) (m m' : BufferManager) : Prop :=
  textDocumentToBufferId m' = textDocumentToBufferId m ∨
  (textDocumentToBufferId m !! d = None ∧
   ∃ b : Z, textDocumentToBufferId m' = <[d := Int b]> (textDocumentToBufferId m)).

(** A window made by the backend between two of its states. *)
Definition made {B} `{!NeovimClient B} (b b' : B) (w : Z) : Prop :=
  ∃ buf enter opts b0 win b1,
    advances b b0 ∧ client_openWindow buf enter opts b0 = (inl win, b1) ∧
    advances b1 b' ∧ w = win_id win.

(** ... to the window maps ... *)
Definition win_step {B} `{!NeovimClient B} (h : Host) (e : TextEditor) (b b' : B)
    (m m' : BufferManager) : Prop :=
  (editorColumnsToWinId m' = editorColumnsToWinId m ∧
   noColumnEditorsToWinId m' = noColumnEditorsToWinId m) ∨
  (∃ w, made b b' w ∧
     match column h e with
     | Some c =>
         editorColumnsToWinId m !! c = None ∧
         editorColumnsToWinId m' = <[c := w]> (editorColumnsToWinId m) ∧
         noColumnEditorsToWinId m' = noColumnEditorsToWinId m
     | None =>
         editorColumnsToWinId m' = editorColumnsToWinId m ∧
         noColumnEditorsToWinId m' = <[e := w]> (noColumnEditorsToWinId m)
     end).

(** ... and to the locals of the pass. *)
Definition locals_step (h : Host) (e : TextEditor) (l l' : Locals) : Prop :=
  l' = l ∨
  (∃ w buf cursor,
     nvimRequests l' = nvimRequests l ++
       [("nvim_win_set_buf", [ANum (Int w); buf]); ("nvim_win_set_cursor", [ANum (Int w); cursor])] ∧
     keepViewColumns l' = match column h e with
                          | Some c => {[c]} ∪ keepViewColumns l
                          | None => keepViewColumns l
                          end).

(** The request that closes a window. *)
Definition closeRequest (w : Z) : Request := ("nvim_win_close", [ANum (Int w); ABool true]).

(** What the second loop, run over [prev], has done. *)
Definition cleanup {B} (cur prev : list TextEditor) (l : Locals) (s : System B)
    (l' : Locals) (s' : System B) : Prop :=
  host s' = host s ∧ nvim s' = nvim s ∧ effects s' = effects s ∧ promises s' = promises s ∧
  same_rest (manager s) (manager s') ∧
  keepViewColumns l' = keepViewColumns l ∧
  textDocumentToBufferId (manager s') ⊆ textDocumentToBufferId (manager s) ∧
  editorColumnsToWinId (manager s') ⊆ editorColumnsToWinId (manager s) ∧
  noColumnEditorsToWinId (manager s') ⊆ noColumnEditorsToWinId (manager s) ∧
  (∃ extra, nvimRequests l' = nvimRequests l ++ extra ∧
     (∀ c w, editorColumnsToWinId (manager s) !! c = Some w →
             editorColumnsToWinId (manager s') !! c = None → closeRequest w ∈ extra) ∧
     (∀ e w, noColumnEditorsToWinId (manager s) !! e = Some w →
             noColumnEditorsToWinId (manager s') !! e = None → closeRequest w ∈ extra)) ∧
  (∀ d, shown (host s) cur d = true →
        textDocumentToBufferId (manager s') !! d = textDocumentToBufferId (manager s) !! d) ∧
  (∀ p, p ∈ prev → p ∉ cur →
     (shown (host s) cur (document (editors (host s) p)) = false →
      textDocumentToBufferId (manager s') !! document (editors (host s) p) = None) ∧
     match column (host s) p with
     | Some c => c ∉ keepViewColumns l →
                 ∀ w, editorColumnsToWinId (manager s) !! c = Some w → truthy w = true →
                      editorColumnsToWinId (manager s') !! c = None
     | None => ∀ w, noColumnEditorsToWinId (manager s) !! p = Some w → truthy w = true →
                    noColumnEditorsToWinId (manager s') !! p = None
     end).

(** What the second loop does to the window of one editor that is gone:
    nothing (and then a window the editor could have lost was falsy), or it
    closes the window and drops its entry. *)
Definition window_closed (cur : list TextEditor) (p : TextEditor) (l : Locals) (h : Host)
    (m : BufferManager) (l' : Locals) (m' : BufferManager) : Prop :=
  (editorColumnsToWinId m' = editorColumnsToWinId m ∧
   noColumnEditorsToWinId m' = noColumnEditorsToWinId m ∧
   l' = l ∧
   (p ∉ cur →
    match column h p with
    | Some c => c ∉ keepViewColumns l →
                ∀ w, editorColumnsToWinId m !! c = Some w → truthy w = false
    | None => ∀ w, noColumnEditorsToWinId m !! p = Some w → truthy w = false
    end)) ∨
  (∃ w, nvimRequests l' = nvimRequests l ++ [closeRequest w] ∧
     match column h p with
     | Some c => editorColumnsToWinId m !! c = Some w ∧
                 editorColumnsToWinId m' = delete c (editorColumnsToWinId m) ∧
                 noColumnEditorsToWinId m' = noColumnEditorsToWinId m
     | None => noColumnEditorsToWinId m !! p = Some w ∧
               noColumnEditorsToWinId m' = delete p (noColumnEditorsToWinId m) ∧
               editorColumnsToWinId m' = editorColumnsToWinId m
     end).

(** One visit of the first loop. *)
Definition visit_step {B} `{!NeovimClient B} (e : TextEditor) (l : Locals) (s : System B)
    (l' : Locals) (s' : System B) : Prop :=
  evolves s s' ∧
  doc_step (document (editors (host s) e)) (manager s) (manager s') ∧
  win_step (host s) e (nvim s) (nvim s') (manager s) (manager s') ∧
  locals_step (host s) e l l'.

(** The visits of a whole loop, one after the other. *)
Fixpoint visits {B} `{!NeovimClient B} (es : list TextEditor) (l : Locals) (s : System B)
    (l' : Locals) (s' : System B) : Prop :=
  match es with
  | [] => l' = l ∧ s' = s
  | e :: es => ∃ l1 s1, visit_step e l s l1 s1 ∧ visits es l1 s1 l' s'
  end.


(** What an open-file request asks the host to open. *)
Definition openTarget (fileName : string) : OpenTarget :=
  if bool_decide (fileName = "__vscode_new__") then Untitled else FileName (trim fileName).

(** Does an open-file request close the current editor first: the close
    mode is a number that is not zero and there is an active editor. *)
Definition closesCurrent (close : CloseMode) (h : Host) : bool :=
  match close, activeTextEditor h with
  | CloseNumber n, Some _ => truthy n
  | _, _ => false
  end.

(** The column the document is shown in: the column of the editor that is
    closed first, as the host [h1] has it before the closing; none when no
    editor is closed. *)
Definition reusedColumn (close : CloseMode) (h h1 : Host) : option Z :=
  if closesCurrent close h
  then activeTextEditor h ≫= λ a, viewColumn (editors h1 a)
  else None.

Definition closesOthers (close : CloseMode) : bool :=
  match close with
  | CloseAll => true
  | CloseNumber _ => false
  end.

Definition closeActiveCommand : string := "workbench.action.revertAndCloseActiveEditor".
Definition closeOthersCommand : string := "workbench.action.closeOtherEditors".

(** The contract of the host commands the request relies on: a shown
    document has a visible, active editor, and closing the other editors
    leaves the active editor as the only visible one. *)
Definition host_contract `{!VSCode} : Prop :=
  (∀ d arg h e h', window_showTextDocument d arg h = (Ok e, h') →
     activeTextEditor h' = Some e ∧ e ∈ visibleTextEditors h') ∧
  (∀ h e h', activeTextEditor h = Some e → e ∈ visibleTextEditors h →
     commands_executeCommand closeOthersCommand h = (Ok tt, h') →
     visibleTextEditors h' = [e]).

(** *** Reachable states and the uniqueness of windows *)

(** The key a window is filed under: a column, or an editor without column. *)
Definition window_of (m : BufferManager) (k : Z + TextEditor) : option Z :=
  match k with
  | inl c => editorColumnsToWinId m !! c
  | inr e => noColumnEditorsToWinId m !! e
  end.

(** No window id is filed under two keys. *)
Definition windows_unshared (m : BufferManager) : Prop :=
  ∀ k1 k2 w, window_of m k1 = Some w → window_of m k2 = Some w → k1 = k2.

(** The contract of a backend whose windows are freshly created: it knows
    the ids it has handed out, never forgets one, and opens a window under
    an id it did not know. *)
Record fresh_windows {B} `{!NeovimClient B} (known : B → Z → Prop) : Prop := {
  fresh_open : ∀ buf enter opts b win b',
    client_openWindow buf enter opts b = (inl win, b') →
    ¬ known b (win_id win) ∧ known b' (win_id win);
  fresh_kept : ∀ b b' w, advances b b' → known b w → known b' w;
}.

(** The states the manager can be in: it starts with empty maps; the host
    moves on as it likes; notifications, redraw batches, requests of the
    backend and passes of the two synchronisers arrive in any order, each
    handled from its first statement to its last; a pass of the reconciler
    may also wait for the answer to its batch while the others run, and
    settle later. *)
Inductive reachable {B} `{!NeovimClient B} `{!VSCode} `{!Utils} : System B → Prop :=
| reach_start st h b :
    reachable {| manager := newBufferManager st; host := h; nvim := b;
                 effects := []; promises := 0 |}
| reach_host s h :
    reachable s → reachable (with_host h s)
| reach_syncLayout s r s' :
    reachable s → syncLayout s = (r, s') → reachable s'
| reach_batch s r s' :
    reachable s → syncLayoutBatch s = (r, s') → reachable s'
| reach_settle s cur r s' :
    reachable s → syncLayoutSettle cur s = (r, s') → reachable s'
| reach_syncActiveEditor s r s' :
    reachable s → syncActiveEditorNow s = (r, s') → reachable s'
| reach_visible s r s' :
    reachable s → onDidChangeVisibleTextEditors s = (r, s') → reachable s'
| reach_close s d r s' :
    reachable s → onDidCloseTextDocument d s = (r, s') → reachable s'
| reach_redraw s batch r s' :
    reachable s → with_manager (λ m, handleRedrawBatch m batch) s = (r, s') → reachable s'
| reach_request s name args r s' :
    reachable s → handleExtensionRequest name args s = (r, s') → reachable s'.

(** The invariant behind the uniqueness of windows. *)
Definition windows_fresh {B} (known : B → Z → Prop) (s : System B) : Prop :=
  windows_unshared (manager s) ∧
  ∀ k w, window_of (manager s) k = Some w → known (nvim s) w.

(** What a redraw event is said to do to the grid map, in the words of the
    specification: position events insert or overwrite the entry of each named grid
    with the given window id, close events delete the entry of each named
    grid, any other event does nothing. *)
Definition redraw_grids (g : gmap Z GridConf) (ev : RedrawEvent) : gmap Z GridConf :=
  if bool_decide (ev.1 ∈ ["win_pos"; "win_external_pos"]) then
    foldl (λ g a, <[a.1 := {| winId := win_id a.2 |}]> g) g ev.2
  else if bool_decide (ev.1 = "win_close") then
    foldl (λ g a, delete a.1 g) g ev.2
  else g.

(** Everything of the manager but the grid map. *)
Definition same_but_grids (m m' : BufferManager) : Prop :=
  changeLayoutPromise m' = changeLayoutPromise m ∧
  changeLayoutPromiseResolve m' = changeLayoutPromiseResolve m ∧
  openedEditors m' = openedEditors m ∧
  textDocumentToBufferId m' = textDocumentToBufferId m ∧
  editorColumnsToWinId m' = editorColumnsToWinId m ∧
  noColumnEditorsToWinId m' = noColumnEditorsToWinId m ∧
  onBufferInit m' = onBufferInit m ∧
  settings m' = settings m.

(** The handlers other than the reconciler leave the window maps alone. *)
Definition windows_kept {B} `{!NeovimClient B} (s s' : System B) : Prop :=
  editorColumnsToWinId (manager s') = editorColumnsToWinId (manager s) ∧
  noColumnEditorsToWinId (manager s') = noColumnEditorsToWinId (manager s) ∧
  advances (nvim s) (nvim s').

Definition keeps {B A} `{!NeovimClient B} (m : M B A) : Prop := ∀ s r s', m s = (r, s') → windows_kept s s'.

(** *** More vocabulary *)

(** The listing of the four maps in the order of their keys. *)
Definition listing (m : BufferManager) : Spreads := {|
  documentEntries := map_to_list (textDocumentToBufferId m);
  gridEntries := map_to_list (grids m);
  noColumnEntries := map_to_list (noColumnEditorsToWinId m);
  columnEntries := map_to_list (editorColumnsToWinId m);
|}.

(** Every column that has a window is a truthy column. *)
Definition columns_truthy (m : BufferManager) : Prop :=
  ∀ c w, editorColumnsToWinId m !! c = Some w → truthy c = true.

(** No error is logged between two states. *)
Definition quiet {B} (s s' : System B) : Prop := errors (effects s') = errors (effects s).

(** The two requests a pass queues for a new editor. *)
Definition setBuf (w : Z) (b : number) : Request :=
  ("nvim_win_set_buf", [ANum (Int w); ANum b]).

Definition setCursor `{!Utils} (h : Host) (e : TextEditor) (w : Z) : Request :=
  ("nvim_win_set_cursor",
    [ANum (Int w); AList [ANum (Int (getNeovimCursorPosFromEditor h e).1);
                          ANum (Int (getNeovimCursorPosFromEditor h e).2)]]).

(** The editor is served: its document has a buffer and, when the editor is
    new, the editor has a window that the queue gives that buffer and the
    cursor of the editor, in a column that is kept. *)
Definition served `{!Utils} (prev : list TextEditor) (h : Host) (e : TextEditor)
    (m : BufferManager) (requests : list Request) (keep : gset Z) : Prop :=
  ∃ b, textDocumentToBufferId m !! document (editors h e) = Some b ∧
       (e ∉ prev →
        ∃ w, truthy w = true ∧ getWinIdForTextEditor m h e = Some w ∧
             setBuf w b ∈ requests ∧ setCursor h e w ∈ requests ∧
             ∀ c, column h e = Some c → c ∈ keep).




(** The effects a request of the backend may have: all but the making of
    a buffer or of a window, a call of [client.request] and the settling
    of a promise. *)
Definition requestEffect (e : Effect) : bool :=
  match e with
  | CreateBuffer _ _ | OpenWindow _ _ _ | ClientRequest _ _ | ResolvePromise _ => false
  | _ => true
  end.

(** What a request of the backend leaves alone. *)
Definition untouched {B} (s s' : System B) : Prop :=
  same_rest (manager s) (manager s') ∧
  editorColumnsToWinId (manager s') = editorColumnsToWinId (manager s) ∧
  noColumnEditorsToWinId (manager s') = noColumnEditorsToWinId (manager s) ∧
  promises s' = promises s ∧
  ∃ evs, effects s' = effects s ++ evs ∧ Forall (λ e, requestEffect e = true) evs.

(** What a command of the host leaves alone. *)
Definition host_only {B} (s s' : System B) : Prop :=
  manager s' = manager s ∧ nvim s' = nvim s.

(** Every run of the handler is within the relation. *)
Definition respects {B A} (R : System B → System B → Prop) (m : M B A) : Prop :=
  ∀ s r s', m s = (r, s') → R s s'.

(** [lines.join(sep)]. *)
Fixpoint join (sep : string) (l : list string) : string :=
  match l with
  | [] => EmptyString
  | x :: r =>
      match r with
      | [] => x
      | _ => x +:+ sep +:+ join sep r
      end
  end.

(** The separator of the lines of a document. *)
Definition eolText (e : EndOfLine) : string :=
  match e with
  | LF => newline
  | CRLF => cr_newline
  end.


(** The requests that give a window its buffer and its cursor, and the
    requests that close a window. *)
Definition assigns (r : Request) : bool :=
  bool_decide (r.1 = "nvim_win_set_buf") || bool_decide (r.1 = "nvim_win_set_cursor").

Definition closing (r : Request) : Prop := ∃ w, r = closeRequest w ∧ truthy w = true.

(** The handler with its logger agrees with the handler above: from a
    system with any sinks it answers what the other answers from the
    system without the sinks, and leaves the same system but for the
    sinks. *)
Definition agrees_at {B G A} (s : System (B * G)) (f : M (B * G) A) (m : M B A) : Prop :=
  (f s).1 = (m (Logged.backend s)).1 ∧ Logged.backend (f s).2 = (m (Logged.backend s)).2.

Definition agrees {B G A} (f : M (B * G) A) (m : M B A) : Prop := ∀ s, agrees_at s f m.


(** The string of some bytes. *)
Definition bytes (l : list Z) : string :=
  foldr (λ n s, String (ascii_of_N (Z.to_N n)) s) EmptyString l.

(** *** More scenes of the small host *)

Module Scenes.

(** The second editor is alone and sits in the first column, where the
    first editor was. *)
Definition moved : Host := {|
  visibleTextEditors := [2%positive];
  activeTextEditor := Some 2%positive;
  textDocuments := [1%positive; 2%positive];
  editors e := {| viewColumn := Some 1; document := e; options := Sim.plain |};
  documents := documents Sim.two_first;
|}.

(** The system after its first pass over two editors, and the same when
    the layout has moved. *)
Definition paired : System Sim.Nvim := (syncLayout Sim.pair).2.
Definition shifted : System Sim.Nvim := with_host moved paired.


(** The manager of the synchronised system when grid 3 is placed on
    window 1008 and grid 4 on window 1002. *)
Definition gridded : BufferManager :=
  handleRedrawBatch (manager Sim.synced)
    [("win_pos", [(3, {| win_id := 1008 |}); (4, {| win_id := 1002 |})])].

(** A system whose backend lists the buffer 7, which no document has. *)
Definition external : System Sim.Nvim :=
  Sim.boot Sim.one (Sim.created (Some {| buf_id := 7 |}) (Sim.start 1000 [])).

(** A logger of level [warn] whose file does not open, and one of level
    [debug] with its file. *)
Definition fileless : Logger.Logger :=
  (Logger.new "vscode-neovim" LogLevel.warn EmptyString false (Disk.blank 2)).1.
Definition filed : Logger.Logger :=
  (Logger.new "vscode-neovim" LogLevel.debug "/tmp/log" false (Disk.blank 2)).1.

(** What [getTimestamp] answers at the call number [n]. *)
Definition clock (n : nat) : string := "t" +:+ pretty n.

(** The two loggers of [Scenes] as loggers of the manager: the one without
    file does not throw; the one with a file throws when the disk is
    full. *)
Definition silent : Log (Logger.World Disk.Disk * nat) := logger_of Scenes.fileless clock.
Definition noisy : Log (Logger.World Disk.Disk * nat) := logger_of Scenes.filed clock.

(** A system of the small backend with the sinks of a logger: a disk with
    room for [n] lines, and no call made yet. *)
Definition logged (n : nat) (s : System Sim.Nvim)
    : System (Sim.Nvim * (Logger.World Disk.Disk * nat)) :=
  {| manager := manager s; host := host s; nvim := (nvim s, (Disk.blank n, O));
     effects := effects s; promises := promises s |}.

(** A backend that hands out the id 0 for its first window: the first pass
    over one editor files the window 0 under column 1, and then the
    editor goes away. *)
Definition zeroed : System (Sim.Nvim * (Logger.World Disk.Disk * nat)) :=
  with_host (Sim.layout 2 [] None)
    (Logged.syncLayout (Log0 := silent) (logged 0 (Sim.boot Sim.one (Sim.start (-2) [])))).2.

(** Three editors were synchronised; now the second alone is visible.  The
    disk of the logger has room for [n] lines. *)
Definition leaving (n : nat) : System (Sim.Nvim * (Logger.World Disk.Disk * nat)) :=
  logged n (with_host (Sim.layout 2 [2%positive] (Some 2%positive)) Sim.synced).

Definition gone : System (Sim.Nvim * (Logger.World Disk.Disk * nat)) := leaving 0.



(** The request of a jump to the open document [file:///1] for the buffer 7. *)
Definition jump : ExtensionArgs := ExternalBufferArgs "file:///1" "7" 1 4 1.

End Scenes.

(** * Properties *)

(** ** The built-ins on some inputs *)

Example split_on_newline :
  JS.split newline ("one" +:+ newline +:+ "two" +:+ newline) = ["one"; "two"; ""].
Proof. reflexivity. Qed.

Example split_on_cr_newline :
  JS.split cr_newline ("one" +:+ cr_newline +:+ "two") = ["one"; "two"].
Proof. reflexivity. Qed.

Example split_empty : JS.split newline "" = [""].
Proof. reflexivity. Qed.

Example parseInt_examples :
  parseInt "12" = Int 12 ∧ parseInt " -7px" = Int (-7) ∧ parseInt "x1" = NaN ∧
  parseInt "" = NaN.
Proof. by vm_compute. Qed.

Example trim_example : trim "  a b  " = "a b".
Proof. reflexivity. Qed.

(** A no-break space (U+00A0), a byte order mark (U+FEFF) and a line
    separator (U+2028) are trimmed; a zero width space (U+200B) and a
    next line (U+0085) are not, and the space after an [é] leaves the
    [é] whole. *)
Example trim_white_space :
  trim (bytes [194; 160; 32] +:+ "a" +:+ bytes [239; 187; 191; 9; 226; 128; 168]) = "a" ∧
  trim (bytes [226; 128; 139]) = bytes [226; 128; 139] ∧
  trim (bytes [194; 133]) = bytes [194; 133] ∧
  trim (bytes [195; 169; 32]) = bytes [195; 169].
Proof. by vm_compute. Qed.

(** Beyond 2^53 [parseInt] answers the nearest double, and an infinity
    beyond the doubles; white space of any kind is skipped. *)
Example parseInt_doubles :
  parseInt "9007199254740993" = Int 9007199254740992 ∧
  parseInt "9007199254740995" = Int 9007199254740996 ∧
  parseInt (bytes [194; 160] +:+ "7") = Int 7 ∧
  parseInt ("1" +:+ zeros 309) = Infinity false ∧
  parseInt ("-1" +:+ zeros 309) = Infinity true.
Proof. by vm_compute. Qed.

Example toString_examples :
  toString (Int 1000) = "1000" ∧ toString (Int (-42)) = "-42" ∧ toString NaN = "NaN" ∧
  toString (Int (2 ^ 64)) = "18446744073709552000" ∧
  toString (Int (2 ^ 70)) = "1.1805916207174113e+21" ∧
  toString (parseInt ("1" +:+ zeros 23)) = "1e+23".
Proof. by vm_compute. Qed.

Example includes_examples :
  includes "://" "file:///a.txt" = true ∧ includes "://" "a.txt" = false.
Proof. by vm_compute. Qed.

(** ** The redraw handler *)

Lemma upd_grids_fold {X} (F : BufferManager → X → BufferManager)
    (f : gmap Z GridConf → X → gmap Z GridConf) (xs : list X) m :
  (∀ m x, F m x = upd_grids (λ g, f g x) m) →
  foldl F m xs = upd_grids (λ g, foldl f g xs) m.
Proof.
  intros HF. revert m. induction xs as [|x xs IH]; intros m; simpl.
  - by destruct m.
  - rewrite IH, HF. by destruct m.
Qed.

Lemma handleRedrawEvent_grids m ev :
  handleRedrawEvent m ev = upd_grids (λ g, redraw_grids g ev) m.
Proof.
  destruct ev as [name args]. unfold handleRedrawEvent, redraw_grids. simpl.
  destruct (bool_decide (name = "win_external_pos")) eqn:E1;
    [|destruct (bool_decide (name = "win_pos")) eqn:E2;
      [|destruct (bool_decide (name = "win_close")) eqn:E3]]; simpl.
  - apply bool_decide_eq_true in E1 as ->. simpl.
    apply upd_grids_fold. intros ? [? ?]. reflexivity.
  - apply bool_decide_eq_true in E2 as ->. simpl.
    apply upd_grids_fold. intros ? [? ?]. reflexivity.
  - apply bool_decide_eq_true in E3 as ->. simpl.
    apply upd_grids_fold. intros ? [? ?]. reflexivity.
  - apply bool_decide_eq_false in E1, E2, E3.
    rewrite bool_decide_eq_false_2; [by destruct m|].
    rewrite !elem_of_cons, elem_of_nil. naive_solver.
Qed.

(** Position events: the last tuple of a grid decides its entry, the
    entries of the other grids stay. *)
Lemma redraw_grids_pos_last g name (pre post : list (Z * Window)) grid win :
  name ∈ ["win_pos"; "win_external_pos"] →
  grid ∉ post.*1 →
  redraw_grids g (name, (pre ++ (grid, win) :: post)%list) !! grid = Some {| winId := win_id win |}.
Proof.
  intros Hn Hpost. unfold redraw_grids. simpl. rewrite bool_decide_eq_true_2 by done.
  rewrite foldl_app. simpl.
  generalize (foldl (λ g a, <[a.1 := {| winId := win_id a.2 |}]> g) g pre). intros g0.
  assert (<[grid := {| winId := win_id win |}]> g0 !! grid = Some {| winId := win_id win |}) as H
    by apply lookup_insert_eq.
  revert H. generalize (<[grid := {| winId := win_id win |}]> g0). clear g0.
  induction post as [|[g1 w1] post IH]; intros g0 H; simpl in *; [done|].
  apply IH; [set_solver|]. rewrite lookup_insert_ne; [done|set_solver].
Qed.

Lemma redraw_grids_pos_other g name args grid :
  name ∈ ["win_pos"; "win_external_pos"] →
  grid ∉ args.*1 →
  redraw_grids g (name, args) !! grid = g !! grid.
Proof.
  intros Hn. unfold redraw_grids. simpl. rewrite bool_decide_eq_true_2 by done.
  revert g. induction args as [|[g1 w1] args IH]; intros g H; simpl in *; [done|].
  rewrite IH; [|set_solver]. rewrite lookup_insert_ne; [done|set_solver].
Qed.

(** Close events: the named grids lose their entry, the others keep it. *)
Lemma redraw_grids_close g args grid :
  redraw_grids g ("win_close", args) !! grid =
  if bool_decide (grid ∈ args.*1) then None else g !! grid.
Proof.
  unfold redraw_grids. simpl.
  revert g. induction args as [|[g1 w1] args IH]; intros g; simpl; [done|].
  rewrite IH, lookup_delete.
  repeat (case_bool_decide || case_decide); set_solver.
Qed.

(** C10.  A redraw batch changes the grid map and nothing else of the
    manager: the Document→Buffer, Column→Window and Editor→Window maps and
    the stored snapshot of visible editors stay as they were; the grid map
    becomes what the events say, one after the other: position events
    ([win_pos], [win_external_pos]) insert or overwrite the entries of the
    grids they name, [win_close] deletes the entries of the grids it names,
    and an event of another name leaves the manager as it is. *)
Theorem handleRedrawBatch_frame (m : BufferManager) (batch : list RedrawEvent) :
  same_but_grids m (handleRedrawBatch m batch) ∧
  grids (handleRedrawBatch m batch) = foldl redraw_grids (grids m) batch ∧
  (∀ name args, name ∉ ["win_pos"; "win_external_pos"; "win_close"] →
     handleRedrawEvent m (name, args) = m).
Proof.
  split_and!.
  - unfold handleRedrawBatch. revert m.
    induction batch as [|ev batch IH]; intros m; simpl; [by repeat split|].
    specialize (IH (handleRedrawEvent m ev)). rewrite handleRedrawEvent_grids in *.
    destruct IH as (?&?&?&?&?&?&?&?). by repeat split.
  - unfold handleRedrawBatch. revert m.
    induction batch as [|ev batch IH]; intros m; simpl; [done|].
    rewrite IH, handleRedrawEvent_grids. done.
  - intros name args Hn. rewrite handleRedrawEvent_grids.
    unfold redraw_grids. simpl.
    rewrite !bool_decide_eq_false_2; [by destruct m|set_solver|set_solver].
Qed.


(** ** Running the handlers *)

Section Properties.
Context {B : Type} `{!NeovimClient B} `{!VSCode} `{!Utils}.
Implicit Types (s : System B) (l : Locals).

(** Unfolds the primitives of the monad. *)
Ltac run :=
  unfold bind, ret, get, with_manager, emit, on_nvim, on_host, throw, try_catch,
    logger_error, new_promise; simpl.

Lemma callAtomic_run requests s :
  callAtomic requests s =
  (Ok tt, {| manager := manager s; host := host s;
             nvim := (client_callAtomic requests (nvim s)).2;
             effects := effects s ++ CallAtomic requests :: atomicLog requests (nvim s);
             promises := promises s |}).
Proof.
  unfold callAtomic, atomicLog. run.
  destruct (client_callAtomic requests (nvim s)) as [[f|] b]; run;
    by rewrite <- ?app_assoc.
Qed.

Lemma atomicLog_quiet requests (b : B) :
  Forall (λ e, creates e = false) (atomicLog requests b) ∧ batches (atomicLog requests b) = [].
Proof.
  unfold atomicLog. destruct (client_callAtomic requests b).1; simpl; auto.
Qed.

Lemma resolveLog_quiet m :
  Forall (λ e, creates e = false) (resolveLog m) ∧ batches (resolveLog m) = [].
Proof.
  unfold resolveLog. destruct (changeLayoutPromiseResolve m); simpl; auto.
Qed.

(** *** What the steps of a pass leave in place *)

Lemma advances_trans (b1 b2 b3 : B) : advances b1 b2 → advances b2 b3 → advances b1 b3.
Proof. intros H12 H23. induction H23; eauto using @advances. Qed.

Lemma same_rest_refl m : same_rest m m.
Proof. by repeat split. Qed.

Lemma same_rest_trans m1 m2 m3 : same_rest m1 m2 → same_rest m2 m3 → same_rest m1 m3.
Proof. unfold same_rest. intros (?&?&?&?&?&?) (?&?&?&?&?&?). split_and!; congruence. Qed.

Lemma evolves_refl s : evolves s s.
Proof.
  split_and!; try done; [constructor|exists []; by rewrite app_nil_r].
Qed.

Lemma evolves_trans s1 s2 s3 : evolves s1 s2 → evolves s2 s3 → evolves s1 s3.
Proof.
  intros (?&?&?&[e1 ?]&?) (?&?&?&[e2 ?]&?). split_and!; try congruence.
  - by eapply advances_trans.
  - exists (e1 ++ e2). rewrite app_assoc. congruence.
  - by eapply same_rest_trans.
Qed.

Lemma evolves_backend s s' evs :
  manager s' = manager s → host s' = host s → promises s' = promises s →
  advances (nvim s) (nvim s') → effects s' = effects s ++ evs → evolves s s'.
Proof.
  intros Hm ????. split_and!; try done; [by eexists|]. rewrite Hm. apply same_rest_refl.
Qed.

Lemma callAtomic_evolves requests s :
  ∃ s', callAtomic requests s = (Ok tt, s') ∧ manager s' = manager s ∧ evolves s s'.
Proof.
  rewrite callAtomic_run. eexists. split; [done|]. split; [done|].
  eapply evolves_backend; simpl; try done.
  destruct (client_callAtomic requests (nvim s)) eqn:E. simpl.
  eapply advances_callAtomic; [constructor|done].
Qed.

Lemma createNeovimWindow_spec s :
  ∃ r s', createNeovimWindow s = (r, s') ∧ manager s' = manager s ∧ evolves s s' ∧
          ∀ w, r = Ok w → made (nvim s) (nvim s') w.
Proof.
  unfold createNeovimWindow, createBuffer, openWindow. run.
  destruct (client_createBuffer true true (nvim s)) as [[buf|code] b0] eqn:E0; run.
  - destruct (client_openWindow _ _ _ _) as [[win|code] b1] eqn:E1; run.
    + rewrite callAtomic_run. simpl.
      destruct (client_callAtomic _ b1) as [f b2] eqn:E2. simpl.
      do 2 eexists. split; [done|]. split; [done|]. split.
      * eapply evolves_backend; simpl; try done; [|by rewrite <- !app_assoc].
        eauto using @advances.
      * intros w [= <-]. do 6 eexists. split_and!; [|exact E1| |done];
          eauto using @advances.
    + do 2 eexists. split; [done|]. split; [done|]. split; [|done].
      eapply evolves_backend; simpl; try done; [|by rewrite <- !app_assoc].
      eauto using @advances.
  - do 2 eexists. split; [done|]. split; [done|]. split; [|done].
    eapply evolves_backend; simpl; try done. eauto using @advances.
Qed.

Lemma made_mono (b0 b1 b2 b3 : B) w :
  advances b0 b1 → made b1 b2 w → advances b2 b3 → made b0 b3 w.
Proof.
  intros H01 (buf & enter & opts & ba & win & bb & Ha & Ho & Hb & ->) H23.
  exists buf, enter, opts, ba, win, bb. split_and!; try done; by eapply advances_trans.
Qed.

Lemma evolves_advances s s' : evolves s s' → advances (nvim s) (nvim s').
Proof. by intros (?&?&?&?&?). Qed.

Lemma evolves_host s s' : evolves s s' → host s' = host s.
Proof. by intros (?&?&?&?&?). Qed.

Lemma initBufferForDocument_evolves d buf ed s :
  ∃ s', initBufferForDocument d buf ed s = (Ok tt, s') ∧ manager s' = manager s ∧ evolves s s'.
Proof.
  unfold initBufferForDocument, listen. unfold bind at 1. unfold get at 1. simpl.
  unfold bind at 1. rewrite callAtomic_run.
  destruct (client_callAtomic _ (nvim s)) as [f b1] eqn:E1.
  destruct (onBufferInit (manager s)); run;
    (eexists; split; [done|]; split; [done|]);
    (eapply evolves_backend; simpl; try done; [|by rewrite <- !app_assoc]);
    eauto using @advances.
Qed.

Lemma evolves_intro s s' evs :
  same_rest (manager s) (manager s') → host s' = host s → promises s' = promises s →
  advances (nvim s) (nvim s') → effects s' = effects s ++ evs → evolves s s'.
Proof. intros. split_and!; try done. by eexists. Qed.

Ltac evolve_step :=
  eapply evolves_intro; simpl;
  [ unfold same_rest; simpl in *; split_and!; congruence
  | done | done
  | eauto using @advances
  | first [ by rewrite <- ?app_assoc | by (symmetry; apply app_nil_r) ] ].

Ltac evolve_tail Hev := eapply evolves_trans; [exact Hev|]; evolve_step.

Lemma ensureBuffer_spec e s :
  let d := document (editors (host s) e) in
  ∃ known s', ensureBuffer e s = (Ok known, s') ∧ evolves s s' ∧
    editorColumnsToWinId (manager s') = editorColumnsToWinId (manager s) ∧
    noColumnEditorsToWinId (manager s') = noColumnEditorsToWinId (manager s) ∧
    doc_step d (manager s) (manager s') ∧
    (known = true → is_Some (textDocumentToBufferId (manager s') !! d)).
Proof.
  intros d. unfold ensureBuffer. unfold bind at 1. unfold get at 1. simpl. fold d.
  case_bool_decide as Hk.
  { exists true, s. split_and!; try done; [apply evolves_refl|by left]. }
  unfold createBuffer. run.
  destruct (client_createBuffer false true (nvim s)) as [[buf|code] b0] eqn:E0; run.
  - match goal with |- context [initBufferForDocument ?d ?b ?ed ?s0] =>
      assert (evolves s s0) as Hev0
        by (eapply evolves_backend; simpl; try done; eauto using @advances);
      destruct (initBufferForDocument_evolves d b ed s0) as (s1 & -> & Hm & Hev) end.
    simpl. do 2 eexists. split; [done|]. simpl. rewrite !Hm. simpl.
    split_and!; try done.
    + eapply evolves_trans; [exact Hev0|]. evolve_tail Hev.
    + right. split; [|by eexists]. by apply eq_None_not_Some.
    + intros _. rewrite lookup_insert_eq. by eexists.
  - do 2 eexists. split; [done|]. split_and!; try done; [|by left].
    eapply evolves_backend; simpl; try done; [|by rewrite <- !app_assoc].
    eauto using @advances.
Qed.

Lemma assignWindow_spec l e s :
  ∃ l' s', assignWindow l e s = (Ok l', s') ∧ evolves s s' ∧
    textDocumentToBufferId (manager s') = textDocumentToBufferId (manager s) ∧
    win_step (host s) e (nvim s) (nvim s') (manager s) (manager s') ∧
    locals_step (host s) e l l'.
Proof.
  unfold assignWindow, resolveWindow. unfold bind at 1. unfold get at 1. simpl.
  unfold try_catch. unfold bind at 1. unfold bind at 1. unfold get at 1. simpl.
  destruct (column (host s) e) as [c|] eqn:Ec;
    [destruct (editorColumnsToWinId (manager s) !! c) as [w|] eqn:Ew|].
  - run. destruct (truthy w) eqn:Ht; run.
    + do 2 eexists. split; [done|]. split_and!; try done; [apply evolves_refl|by left|].
      right. do 3 eexists. rewrite ?Ec. simpl. done.
    + do 2 eexists. split; [done|]. split_and!; try done; [|by left|by left].
      evolve_step.
  - unfold bind at 1.
    destruct (createNeovimWindow_spec s) as (r & s1 & -> & Hm & Hev & Hmade).
    pose proof (evolves_host _ _ Hev) as Hh.
    destruct r as [w|err]; run; [destruct (truthy w) eqn:Ht; run|].
    + rewrite Hh, Ec.
      do 2 eexists. split; [done|]. simpl. rewrite Hm. simpl.
      split_and!; try done.
      * evolve_tail Hev.
      * right. exists w. rewrite Ec. split; [by apply Hmade|done].
      * right. do 3 eexists. rewrite ?Ec. simpl. done.
    + do 2 eexists. split; [done|]. simpl. rewrite Hm. simpl.
      split_and!; try done.
      * evolve_tail Hev.
      * right. exists w. rewrite Ec. split; [by apply Hmade|done].
      * by left.
    + do 2 eexists. split; [done|]. simpl. rewrite Hm.
      split_and!; try done; [|by left|by left].
      evolve_tail Hev.
  - unfold bind at 1.
    destruct (createNeovimWindow_spec s) as (r & s1 & -> & Hm & Hev & Hmade).
    pose proof (evolves_host _ _ Hev) as Hh.
    destruct r as [w|err]; run; [destruct (truthy w) eqn:Ht; run|].
    + rewrite Hh, Ec.
      do 2 eexists. split; [done|]. simpl. rewrite Hm. simpl.
      split_and!; try done.
      * evolve_tail Hev.
      * right. exists w. rewrite Ec. split; [by apply Hmade|done].
      * right. do 3 eexists. rewrite ?Ec. simpl. done.
    + do 2 eexists. split; [done|]. simpl. rewrite Hm. simpl.
      split_and!; try done.
      * evolve_tail Hev.
      * right. exists w. rewrite Ec. split; [by apply Hmade|done].
      * by left.
    + do 2 eexists. split; [done|]. simpl. rewrite Hm.
      split_and!; try done; [|by left|by left].
      evolve_tail Hev.
Qed.

Lemma openVisible_spec prev l e s :
  ∃ l' s', openVisible prev l e s = (Ok l', s') ∧ visit_step e l s l' s'.
Proof.
  unfold openVisible. unfold bind at 1.
  destruct (ensureBuffer_spec e s) as (known & s1 & -> & Hev1 & Hc & Hn & Hd & Hk).
  destruct known; simpl; [case_bool_decide|].
  - exists l, s1. split; [done|]. split_and!; try done; [by left|by left].
  - destruct (assignWindow_spec l e s1) as (l2 & s2 & -> & Hev2 & Hd2 & Hw & Hl).
    exists l2, s2. split; [done|].
    pose proof (evolves_host _ _ Hev1) as Hh. rewrite Hh in *.
    split_and!; try done.
    + by eapply evolves_trans.
    + destruct Hd as [Hd|[? [b Hd]]]; [left|right; split; [done|exists b]]; congruence.
    + destruct Hw as [[? ?]|[w [Hm Hw]]]; [left; split; congruence|right].
      exists w. split.
      { eapply made_mono; [by apply evolves_advances|done|constructor]. }
      destruct (column (host s) e); rewrite <- ?Hc, <- ?Hn; done.
  - exists l, s1. split; [done|]. split_and!; try done; [by left|by left].
Qed.

Lemma openLoop_spec prev es l s :
  ∃ l' s', foldM (openVisible prev) l es s = (Ok l', s') ∧ visits es l s l' s'.
Proof.
  revert l s. induction es as [|e es IH]; intros l s; simpl.
  - by exists l, s.
  - unfold bind.
    destruct (openVisible_spec prev l e s) as (l1 & s1 & -> & Hv).
    destruct (IH l1 s1) as (l' & s' & -> & Hvs).
    exists l', s'. split; [done|]. by exists l1, s1.
Qed.

Lemma cleanup_nil cur l s : cleanup cur [] l s l s.
Proof.
  unfold cleanup. simpl. split_and!; try done.
  - exists []. split_and!; [by rewrite app_nil_r|congruence|congruence].
  - intros p Hp. by apply elem_of_nil in Hp.
Qed.

Lemma cleanup_cons cur p rest l s l1 s1 l' s' :
  cleanup cur [p] l s l1 s1 → cleanup cur rest l1 s1 l' s' →
  cleanup cur (p :: rest) l s l' s'.
Proof.
  unfold cleanup. simpl.
  intros (Hh1&Hb1&He1&Hp1&Hr1&Hk1&Hd1&Hc1&Hn1&(x1&Hx1&Hxc1&Hxn1)&Hs1&Hq1).
  rewrite Hh1, Hk1.
  intros (Hh2&Hb2&He2&Hp2&Hr2&Hk2&Hd2&Hc2&Hn2&(x2&Hx2&Hxc2&Hxn2)&Hs2&Hq2).
  split_and!; try congruence.
  - by eapply same_rest_trans.
  - by etrans.
  - by etrans.
  - by etrans.
  - exists (x1 ++ x2). split_and!.
    + rewrite Hx2, Hx1. by rewrite app_assoc.
    + intros c w Hw Hnone. apply elem_of_app.
      destruct (editorColumnsToWinId (manager s1) !! c) as [w1|] eqn:E1.
      * right. eapply Hxc2; [|done].
        rewrite E1. f_equal. eapply lookup_weaken in E1; [|done]. congruence.
      * left. by eapply Hxc1.
    + intros e w Hw Hnone. apply elem_of_app.
      destruct (noColumnEditorsToWinId (manager s1) !! e) as [w1|] eqn:E1.
      * right. eapply Hxn2; [|done].
        rewrite E1. f_equal. eapply lookup_weaken in E1; [|done]. congruence.
      * left. by eapply Hxn1.
  - intros d Hd. rewrite Hs2, Hs1; done.
  - intros q Hq Hcur. apply elem_of_cons in Hq as [->|Hq].
    + destruct (Hq1 p) as [Hqd Hqw]; [set_solver|done|]. split.
      * intros Hsh. eapply lookup_weaken_None; [by apply Hqd|done].
      * destruct (column (host s) p) as [c|].
        -- intros Hkeep w Hw Ht. eapply lookup_weaken_None; [by eapply Hqw|done].
        -- intros w Hw Ht. eapply lookup_weaken_None; [by eapply Hqw|done].
    + destruct (Hq2 q) as [Hqd Hqw]; [done|done|]. split; [done|].
      destruct (column (host s) q) as [c|].
      * intros Hkeep w Hw Ht.
        destruct (editorColumnsToWinId (manager s1) !! c) as [w1|] eqn:E1.
        -- assert (w1 = w) as -> by (eapply lookup_weaken in E1; [|done]; congruence).
           by eapply Hqw.
        -- eapply lookup_weaken_None; done.
      * intros w Hw Ht.
        destruct (noColumnEditorsToWinId (manager s1) !! q) as [w1|] eqn:E1.
        -- assert (w1 = w) as -> by (eapply lookup_weaken in E1; [|done]; congruence).
           by eapply Hqw.
        -- eapply lookup_weaken_None; done.
Qed.

Lemma cleanup_one cur p l s l' s' :
  host s' = host s → nvim s' = nvim s → effects s' = effects s → promises s' = promises s →
  same_rest (manager s) (manager s') →
  keepViewColumns l' = keepViewColumns l →
  textDocumentToBufferId (manager s') =
    (if shown (host s) cur (document (editors (host s) p)) || bool_decide (p ∈ cur)
     then textDocumentToBufferId (manager s)
     else delete (document (editors (host s) p)) (textDocumentToBufferId (manager s))) →
  window_closed cur p l (host s) (manager s) l' (manager s') →
  cleanup cur [p] l s l' s'.
Proof.
  intros Hh Hb He Hp Hr Hk Hd Hw. unfold cleanup. unfold window_closed in Hw.
  split_and!; try done.
  - rewrite Hd. destruct (_ || _); [done|apply delete_subseteq].
  - destruct Hw as [(-> & _)|(w & _ & Hw)]; [done|].
    destruct (column (host s) p); destruct Hw as (_ & H1 & H2).
    + rewrite H1. apply delete_subseteq.
    + by rewrite H2.
  - destruct Hw as [(_ & -> & _)|(w & _ & Hw)]; [done|].
    destruct (column (host s) p); destruct Hw as (_ & H1 & H2).
    + by rewrite H2.
    + rewrite H1. apply delete_subseteq.
  - destruct Hw as [(Hc & Hn & -> & _)|(w & Hreq & Hw)].
    + exists []. rewrite app_nil_r, Hc, Hn. split_and!; [done|congruence|congruence].
    + exists [closeRequest w]. split; [done|].
      destruct (column (host s) p) as [c|]; destruct Hw as (Hw & Hdel & Hsame);
        rewrite Hdel, Hsame; split; try congruence;
        intros k w' Hk' Hnone; apply list_elem_of_singleton; f_equal.
      * destruct (decide (k = c)) as [->|Hne]; [congruence|].
        rewrite lookup_delete_ne in Hnone by done. congruence.
      * destruct (decide (k = p)) as [->|Hne]; [congruence|].
        rewrite lookup_delete_ne in Hnone by done. congruence.
  - intros d Hsh. rewrite Hd.
    destruct (shown (host s) cur (document (editors (host s) p))) eqn:E; simpl; [done|].
    case_bool_decide; [done|]. rewrite lookup_delete_ne; [done|]. congruence.
  - intros q Hq Hcur. apply list_elem_of_singleton in Hq as ->. split.
    + intros Hsh. rewrite Hd, Hsh. simpl. rewrite bool_decide_eq_false_2 by done.
      apply lookup_delete_eq.
    + destruct Hw as [(Hc & Hn & -> & Hf)|(w & Hreq & Hw)].
      * specialize (Hf Hcur). destruct (column (host s) p) as [c|].
        -- intros Hkeep w Hw Ht. rewrite (Hf Hkeep w Hw) in Ht. done.
        -- intros w Hw Ht. rewrite (Hf w Hw) in Ht. done.
      * destruct (column (host s) p) as [c|]; destruct Hw as (Hw & Hdel & Hsame);
          intros; rewrite Hdel; apply lookup_delete_eq.
Qed.

Lemma closeInvisible_spec cur l p s :
  ∃ l' s', closeInvisible cur l p s = (Ok l', s') ∧ cleanup cur [p] l s l' s'.
Proof.
  unfold closeInvisible. case_bool_decide as Hin.
  { exists l, s. split; [done|]. apply cleanup_one; try done.
    - by rewrite bool_decide_eq_true_2, orb_true_r.
    - left. split_and!; done. }
  assert (∀ (m' : BufferManager) l',
    same_rest (manager s) m' →
    keepViewColumns l' = keepViewColumns l →
    textDocumentToBufferId m' =
      (if shown (host s) cur (document (editors (host s) p))
       then textDocumentToBufferId (manager s)
       else delete (document (editors (host s) p)) (textDocumentToBufferId (manager s))) →
    window_closed cur p l (host s) (manager s) l' m' →
    cleanup cur [p] l s l'
      {| manager := m'; host := host s; nvim := nvim s; effects := effects s;
         promises := promises s |}) as Hone.
  { intros m' l' Hr Hk Hd Hw. apply cleanup_one; simpl; try done.
    rewrite Hd. rewrite (bool_decide_eq_false_2 (p ∈ cur)) by done.
    by rewrite orb_false_r. }
  unfold closeWindow. run.
  destruct (shown (host s) cur (document (editors (host s) p))) eqn:Esh; run;
    (destruct (column (host s) p) as [c|] eqn:Ec; run;
     [case_bool_decide as Hkeep; run;
      [|destruct (editorColumnsToWinId (manager s) !! c) as [w|] eqn:Ew; run;
        [destruct (truthy w) eqn:Ht; run|]]
     |destruct (noColumnEditorsToWinId (manager s) !! p) as [w|] eqn:Ew; run;
        [destruct (truthy w) eqn:Ht; run|]]);
    (do 2 eexists; split; [reflexivity|]; apply Hone; simpl;
     [by repeat split|done|done|]);
    unfold window_closed; rewrite ?Ec;
    first [ by (right; exists w)
          | left; split_and!; try done; intros; congruence ].
Qed.

Lemma closeLoop_spec cur prev l s :
  ∃ l' s', foldM (closeInvisible cur) l prev s = (Ok l', s') ∧ cleanup cur prev l s l' s'.
Proof.
  revert l s. induction prev as [|p prev IH]; intros l s; simpl.
  - exists l, s. split; [done|]. apply cleanup_nil.
  - unfold bind.
    destruct (closeInvisible_spec cur l p s) as (l1 & s1 & -> & H1).
    destruct (IH l1 s1) as (l' & s' & -> & H2).
    exists l', s'. split; [done|]. by eapply cleanup_cons.
Qed.

(** *** What the first loop leaves in place *)

Lemma visits_evolves es l s l' s' : visits es l s l' s' → evolves s s'.
Proof.
  revert l s. induction es as [|e es IH]; intros l s; simpl.
  - intros [_ ->]. apply evolves_refl.
  - intros (l1 & s1 & (Hev & _) & Hvs). eapply evolves_trans; [done|]. by eapply IH.
Qed.

(** An entry of the document map stays. *)
Lemma visits_documents es l s l' s' d b :
  visits es l s l' s' →
  textDocumentToBufferId (manager s) !! d = Some b →
  textDocumentToBufferId (manager s') !! d = Some b.
Proof.
  revert l s. induction es as [|e es IH]; intros l s; simpl.
  - by intros [_ ->].
  - intros (l1 & s1 & (_ & Hd & _) & Hvs) Hb. eapply IH; [done|].
    destruct Hd as [->|[Hnone [b' ->]]]; [done|].
    rewrite lookup_insert_ne; [done|]. congruence.
Qed.

(** The window of a column that no visited editor is filed under stays as
    it is, whether there is one or not. *)
Lemma visits_columns es l s l' s' c :
  visits es l s l' s' →
  (∀ e, e ∈ es → column (host s) e ≠ Some c) →
  editorColumnsToWinId (manager s') !! c = editorColumnsToWinId (manager s) !! c.
Proof.
  revert l s. induction es as [|e es IH]; intros l s; simpl.
  - by intros [_ ->].
  - intros (l1 & s1 & (Hev & _ & Hw & _) & Hvs) Hc.
    pose proof (evolves_host _ _ Hev) as Hh.
    rewrite (IH _ _ Hvs); [|intros; rewrite Hh; apply Hc; set_solver].
    destruct Hw as [[-> _]|[w [_ Hw]]]; [done|].
    destruct (column (host s) e) as [c'|] eqn:Ec.
    + destruct Hw as (_ & -> & _). rewrite lookup_insert_ne; [done|].
      intros ->. eapply Hc; [|done]. set_solver.
    + by destruct Hw as [-> _].
Qed.

(** The window of an editor that is not visited stays as it is. *)
Lemma visits_editors es l s l' s' p :
  visits es l s l' s' →
  p ∉ es →
  noColumnEditorsToWinId (manager s') !! p = noColumnEditorsToWinId (manager s) !! p.
Proof.
  revert l s. induction es as [|e es IH]; intros l s; simpl.
  - by intros [_ ->].
  - intros (l1 & s1 & (Hev & _ & Hw & _) & Hvs) Hp.
    rewrite (IH _ _ Hvs); [|set_solver].
    destruct Hw as [[_ ->]|[w [_ Hw]]]; [done|].
    destruct (column (host s) e) as [c'|] eqn:Ec.
    + by destruct Hw as (_ & _ & ->).
    + destruct Hw as [_ ->]. rewrite lookup_insert_ne; [done|]. set_solver.
Qed.

(** A kept column is the column of a visited editor. *)
Lemma visits_kept es l s l' s' c :
  visits es l s l' s' →
  c ∈ keepViewColumns l' →
  c ∈ keepViewColumns l ∨ ∃ e, e ∈ es ∧ column (host s) e = Some c.
Proof.
  revert l s. induction es as [|e es IH]; intros l s; simpl.
  - intros [-> _]. by left.
  - intros (l1 & s1 & (Hev & _ & _ & Hl) & Hvs) Hc.
    pose proof (evolves_host _ _ Hev) as Hh.
    destruct (IH _ _ Hvs Hc) as [Hk|(e' & He' & Hc')].
    + destruct Hl as [->|(w & buf & cur & _ & Hk')]; [by left|].
      rewrite Hk' in Hk. destruct (column (host s) e) as [c'|] eqn:Ec; [|by left].
      apply elem_of_union in Hk as [Hk|Hk]; [|by left].
      apply elem_of_singleton in Hk as ->. right. exists e. split; [set_solver|done].
    + right. exists e'. split; [set_solver|]. by rewrite <- Hh.
Qed.

(** *** The shape of a pass *)

(** A pass runs its first loop, its second loop, issues the batch the two
    loops have queued, stores the new snapshot and settles the promise; with
    a logger that does not throw it never raises. *)
Lemma syncLayout_run s :
  let cur := visibleTextEditors (host s) in
  let prev := openedEditors (manager s) in
  ∃ l1 s1 l2 s2 s',
    foldM (openVisible prev) {| nvimRequests := []; keepViewColumns := ∅ |} cur s = (Ok l1, s1) ∧
    visits cur {| nvimRequests := []; keepViewColumns := ∅ |} s l1 s1 ∧
    foldM (closeInvisible cur) l1 prev s1 = (Ok l2, s2) ∧
    cleanup cur prev l1 s1 l2 s2 ∧
    syncLayout s = (Ok tt, s') ∧
    effects s' = effects s2 ++ [CallAtomic (nvimRequests l2)] ++
                 atomicLog (nvimRequests l2) (nvim s2) ++ resolveLog (manager s2) ∧
    manager s' = set_changeLayoutPromise None (set_openedEditors cur (manager s2)) ∧
    host s' = host s ∧
    nvim s' = (client_callAtomic (nvimRequests l2) (nvim s2)).2 ∧
    promises s' = promises s.
Proof.
  intros cur prev.
  destruct (openLoop_spec prev cur {| nvimRequests := []; keepViewColumns := ∅ |} s)
    as (l1 & s1 & E1 & Hv).
  destruct (closeLoop_spec cur prev l1 s1) as (l2 & s2 & E2 & Hc).
  exists l1, s1, l2, s2,
    {| manager := set_changeLayoutPromise None (set_openedEditors cur (manager s2));
       host := host s2;
       nvim := (client_callAtomic (nvimRequests l2) (nvim s2)).2;
       effects := effects s2 ++ [CallAtomic (nvimRequests l2)] ++
                  atomicLog (nvimRequests l2) (nvim s2) ++ resolveLog (manager s2);
       promises := promises s2 |}.
  pose proof (visits_evolves _ _ _ _ _ Hv) as (Hh1 & Hp1 & _).
  pose proof Hc as (Hh2 & _ & _ & Hp2 & _).
  split_and!; simpl; try done; try congruence.
  unfold syncLayout, syncLayoutBatch. unfold bind at 1. unfold bind at 1.
    unfold get at 1. simpl. unfold bind at 1. fold cur prev. rewrite E1.
  unfold bind at 1. rewrite E2. unfold bind at 1. rewrite callAtomic_run.
  unfold syncLayoutSettle, resolveLog. run.
  destruct (changeLayoutPromiseResolve (manager s2)); simpl;
    rewrite <- ?app_assoc; simpl; by rewrite ?app_nil_r.
Qed.

(** *** Failures of the backend during a pass *)

Lemma foldM_app {A X} (f : A → X → M B A) (xs ys : list X) a s :
  foldM f a (xs ++ ys) s =
  match foldM f a xs s with
  | (Ok a', s') => foldM f a' ys s'
  | (Throw e, s') => (Throw e, s')
  end.
Proof.
  revert a s. induction xs as [|x xs IH]; intros a s; simpl; [done|].
  unfold bind. destruct (f a x s) as [[a'|e] s']; [apply IH|done].
Qed.





(** A name that holds ["://"] is not empty. *)
Lemma includes_truthy sub name :
  sub ≠ EmptyString → includes sub name = true → truthy_str name = true.
Proof. intros Hs. destruct name, sub; simpl; done. Qed.

(** C4.  An external-buffer request whose name holds ["://"] and whose
    jump flag is falsy does nothing at all: the handler returns, and the
    whole system (the identity maps, the host, the backend, the effects so
    far) is as before, so no document was opened and no editor shown. *)
Theorem externalBuffer_without_jump (name idStr : string) (expandTab tabStop isJumping : Z)
    (s : System B) :
  includes "://" name = true →
  truthy isJumping = false →
  handleExtensionRequest "external-buffer"
    (ExternalBufferArgs name idStr expandTab tabStop isJumping) s = (Ok tt, s).
Proof.
  intros Huri Hjump. unfold handleExtensionRequest, externalBuffer. simpl.
  rewrite Huri, (includes_truthy "://" name) by done. simpl.
  by rewrite Hjump.
Qed.

(** *** The readiness promise *)


(** A pass ends with the promise of its resolver settled and no promise
    left. *)
Lemma syncLayoutSettle_promise cur s :
  ∃ s', syncLayoutSettle cur s = (Ok tt, s') ∧
        changeLayoutPromise (manager s') = None ∧
        openedEditors (manager s') = cur ∧
        effects s' = effects s ++ resolveLog (manager s).
Proof.
  unfold syncLayoutSettle, resolveLog. run.
  destruct (changeLayoutPromiseResolve (manager s)); run;
    (eexists; split; [reflexivity|]); simpl; by rewrite ?app_nil_r.
Qed.

(** *** An unchanged layout *)

Lemma ensureBuffer_known e s :
  is_Some (textDocumentToBufferId (manager s) !! document (editors (host s) e)) →
  ensureBuffer e s = (Ok true, s).
Proof.
  intros Hk. unfold ensureBuffer. run. by rewrite bool_decide_eq_true_2.
Qed.

Lemma openVisible_seen prev l e s :
  is_Some (textDocumentToBufferId (manager s) !! document (editors (host s) e)) →
  e ∈ prev →
  openVisible prev l e s = (Ok l, s).
Proof.
  intros Hk Hin. unfold openVisible. unfold bind. rewrite ensureBuffer_known by done.
  simpl. by rewrite bool_decide_eq_true_2.
Qed.

Lemma closeInvisible_visible cur l p s :
  p ∈ cur → closeInvisible cur l p s = (Ok l, s).
Proof. intros Hin. unfold closeInvisible. by rewrite bool_decide_eq_true_2. Qed.

(** A loop whose body does nothing on each element does nothing. *)
Lemma foldM_skip {X} (f : Locals → X → M B Locals) (xs : list X) l s :
  (∀ x, x ∈ xs → f l x s = (Ok l, s)) →
  foldM f l xs s = (Ok l, s).
Proof.
  induction xs as [|x xs IH]; intros Hf; simpl; [done|].
  unfold bind. rewrite Hf by set_solver. apply IH. intros; apply Hf; set_solver.
Qed.

(** C1.  When the stored snapshot holds exactly the editors that are
    visible now and every visible document has a buffer id, a pass of the
    reconciler creates no buffer and no window, issues one batch and that
    batch is empty, and leaves the Document→Buffer, Column→Window and
    Editor→Window maps as they were; the pass ends normally with the
    snapshot equal to the visible editors. *)
Theorem syncLayout_idempotent (s : System B) :
  (∀ e, e ∈ visibleTextEditors (host s) ↔ e ∈ openedEditors (manager s)) →
  (∀ e, e ∈ visibleTextEditors (host s) →
        is_Some (textDocumentToBufferId (manager s) !! document (editors (host s) e))) →
  ∃ s', syncLayout s = (Ok tt, s') ∧
        effects s' = effects s ++ [CallAtomic []] ++ atomicLog [] (nvim s) ++
                     resolveLog (manager s) ∧
        Forall (λ e, creates e = false) (drop (length (effects s)) (effects s')) ∧
        batches (drop (length (effects s)) (effects s')) = [[]] ∧
        same_maps (manager s) (manager s') ∧
        openedEditors (manager s') = visibleTextEditors (host s) ∧
        host s' = host s.
Proof.
  intros Hsame Hknown.
  unfold syncLayout, syncLayoutBatch. unfold bind at 1. unfold bind at 1. unfold get at 1.
  simpl. unfold bind at 1.
  rewrite foldM_skip; [|intros; apply openVisible_seen; [by apply Hknown|by apply Hsame]].
  unfold bind at 1.
  rewrite foldM_skip; [|intros; apply closeInvisible_visible; by apply Hsame].
  simpl. unfold bind at 1. rewrite callAtomic_run. simpl.
  unfold syncLayoutSettle. run.
  destruct (atomicLog_quiet [] (nvim s)) as [Hc1 Hb1].
  destruct (resolveLog_quiet (manager s)) as [Hc2 Hb2].
  unfold resolveLog in *.
  destruct (changeLayoutPromiseResolve (manager s)) as [p|]; simpl;
    (eexists; split; [reflexivity|]); simpl; rewrite <- ?app_assoc; simpl;
    rewrite ?app_nil_r; (split_and!; [done| | |done|done|done]);
    rewrite drop_app_length; simpl.
  - constructor; [done|]. apply Forall_app; auto.
  - unfold batches in *. simpl. by rewrite omap_app, Hb1.
  - constructor; [done|]. done.
  - unfold batches in *. simpl. by rewrite Hb1.
Qed.

(** *** Requests of the backend *)

(** C5 (as amended).  An open-file request first opens a document: a new
    untitled one for the name [__vscode_new__], the document of the trimmed
    name for any other name.  When the close mode is a number other than
    zero and there is an active editor, the active editor is closed before
    the document is shown, and the document is shown in the column that
    editor had; a close mode of zero closes nothing.  When the close mode
    is [all], the other editors are closed after the document has been
    shown, as the last action; on a host that keeps its contract the shown
    editor is then visible from the showing on and is the only visible
    editor at the end.  Nothing else is done and the manager is untouched. *)
Theorem openFile_sequence (fileName : string) (close : CloseMode) (s : System B)
    (doc : TextDocument) (ed : TextEditor) (h1 h2 h3 h4 : Host) :
  let h := host s in
  let column := reusedColumn close h h1 in
  workspace_openTextDocument (openTarget fileName) h = (Ok doc, h1) →
  (if closesCurrent close h
   then commands_executeCommand closeActiveCommand h1 = (Ok tt, h2) else h2 = h1) →
  window_showTextDocument doc (InColumn column) h2 = (Ok ed, h3) →
  (if closesOthers close
   then commands_executeCommand closeOthersCommand h3 = (Ok tt, h4) else h4 = h3) →
  ∃ s', handleExtensionRequest "open-file" (OpenFileArgs fileName close) s = (Ok tt, s') ∧
        effects s' = effects s ++ [OpenTextDocument (openTarget fileName)] ++
          (if closesCurrent close h then [ExecuteCommand closeActiveCommand] else []) ++
          [ShowTextDocument doc (InColumn column)] ++
          (if closesOthers close then [ExecuteCommand closeOthersCommand] else []) ∧
        host s' = h4 ∧ manager s' = manager s ∧ nvim s' = nvim s ∧
        (closesOthers close = true → host_contract →
           h2 = h1 ∧ ed ∈ visibleTextEditors h3 ∧ visibleTextEditors h4 = [ed]).
Proof.
  intros h column Hopen Hclose Hshow Hothers.
  unfold handleExtensionRequest, openFile, openTextDocument, showTextDocument, executeCommand.
  simpl. run. fold h. fold (openTarget fileName). rewrite Hopen. simpl.
  subst column.
  unfold reusedColumn, closesCurrent, closesOthers, closeActiveCommand in *.
  assert (closeOthersCommand = "workbench.action.closeOtherEditors") as Hcmd by done.
  rewrite Hcmd in Hothers.
  destruct close as [n|]; [destruct (activeTextEditor h) as [a|] eqn:Ea;
    [destruct (truthy n) eqn:Hn|]|destruct (activeTextEditor h) as [a|] eqn:Ea];
    simpl in *; run;
    rewrite ?Hclose; subst; simpl; rewrite ?Hshow; simpl; rewrite ?Hothers; simpl;
    (eexists; split; [reflexivity|]); simpl; rewrite <- ?app_assoc; simpl;
    (split_and!; [done|done|done|done|]); try done;
    intros _ [Hc1 Hc2]; destruct (Hc1 _ _ _ _ _ Hshow) as [Hact Hvis];
    (split_and!; [done|done|eapply Hc2; [done|done|by rewrite Hcmd]]).
Qed.

(** *** The event loop stays within the reachable states *)

Lemma finish_ok {A} (m : M B A) s a s' :
  EventLoop.finish m s = Some (a, s') → m s = (Ok a, s').
Proof.
  unfold EventLoop.finish. destruct (m s) as [[a'|e] s1]; [|done]. by intros [= <- <-].
Qed.

Lemma step_reachable ev (l l' : EventLoop.Loop B) :
  reachable (EventLoop.system l) → EventLoop.step ev l = Some l' →
  reachable (EventLoop.system l').
Proof.
  intros Hr. destruct ev; simpl.
  - by intros [= <-].
  - intros [= <-]. simpl. by constructor.
  - destruct (EventLoop.finish _ _) as [[[] s]|] eqn:E; [|done]. intros [= <-]. simpl.
    apply finish_ok in E. by eapply reach_visible.
  - by intros [= <-].
  - destruct (EventLoop.expired _ _); [|done].
    destruct (EventLoop.finish _ _) as [[cur s]|] eqn:E; [|done]. intros [= <-]. simpl.
    apply finish_ok in E. by eapply reach_batch.
  - destruct (EventLoop.passes l) as [|cur rest]; [done|].
    destruct (EventLoop.finish _ _) as [[[] s]|] eqn:E; [|done]. intros [= <-]. simpl.
    apply finish_ok in E. by eapply reach_settle.
  - destruct (EventLoop.expired _ _); [|done].
    destruct (changeLayoutPromise _); [by intros [= <-]|].
    destruct (EventLoop.finish _ _) as [[[] s]|] eqn:E; [|done]. intros [= <-]. simpl.
    apply finish_ok in E. by eapply reach_syncActiveEditor.
  - destruct (EventLoop.waiting l) as [|p rest]; [done|].
    destruct (EventLoop.settled _ _); [|done].
    destruct (EventLoop.finish _ _) as [[[] s]|] eqn:E; [|done]. intros [= <-]. simpl.
    apply finish_ok in E. by eapply reach_syncActiveEditor.
Qed.

Lemma run_reachable evs (l l' : EventLoop.Loop B) :
  reachable (EventLoop.system l) → EventLoop.run evs l = Some l' →
  reachable (EventLoop.system l').
Proof.
  revert l. induction evs as [|ev evs IH]; intros l Hr; simpl.
  - by intros [= <-].
  - destruct (EventLoop.step ev l) as [l1|] eqn:E; [|done]. simpl.
    apply IH. by eapply step_reachable.
Qed.

(** *** Uniqueness of the mappings *)

Section Unique.
Context (known : B → Z → Prop) (Hfresh : fresh_windows known).

(** A step that leaves the window maps alone keeps the invariant. *)
Lemma windows_fresh_frame s s' :
  windows_fresh known s →
  editorColumnsToWinId (manager s') = editorColumnsToWinId (manager s) →
  noColumnEditorsToWinId (manager s') = noColumnEditorsToWinId (manager s) →
  advances (nvim s) (nvim s') →
  windows_fresh known s'.
Proof.
  intros [Hu Hk] Hc He Ha.
  assert (∀ k, window_of (manager s') k = window_of (manager s) k) as Hw.
  { intros [c|e]; simpl; congruence. }
  split.
  - intros k1 k2 w. rewrite !Hw. apply Hu.
  - intros k w. rewrite Hw. intros Hkw. eapply fresh_kept; eauto.
Qed.

(** A step that only drops entries keeps the invariant. *)
Lemma windows_fresh_drop s s' :
  windows_fresh known s →
  editorColumnsToWinId (manager s') ⊆ editorColumnsToWinId (manager s) →
  noColumnEditorsToWinId (manager s') ⊆ noColumnEditorsToWinId (manager s) →
  advances (nvim s) (nvim s') →
  windows_fresh known s'.
Proof.
  intros [Hu Hk] Hc He Ha.
  assert (∀ k w, window_of (manager s') k = Some w → window_of (manager s) k = Some w) as Hw.
  { intros [c|e] w; simpl; intros; by eapply lookup_weaken. }
  split.
  - intros k1 k2 w H1 H2. eapply Hu; eauto.
  - intros k w Hkw. eapply fresh_kept; eauto.
Qed.

(** A window that was made after [b] was not known at [b]. *)
Lemma made_fresh (b b' : B) w : made b b' w → ¬ known b w ∧ known b' w.
Proof.
  intros (buf & enter & opts & b0 & win & b1 & Hbefore & Ho & Hafter & ->).
  destruct (fresh_open known Hfresh _ _ _ _ _ _ Ho) as [Hn Hy]. split.
  - intros Hk. apply Hn. eapply fresh_kept; eauto.
  - eapply fresh_kept; eauto.
Qed.

Lemma windows_fresh_visit e l s l' s' :
  windows_fresh known s → visit_step e l s l' s' → windows_fresh known s'.
Proof.
  intros Hinv (Hev & _ & Hw & _). pose proof (evolves_advances _ _ Hev) as Ha.
  destruct Hw as [[Hc He]|[w [Hm Hw]]]; [by eapply windows_fresh_frame|].
  destruct (made_fresh _ _ _ Hm) as [Hnew Hknown].
  destruct Hinv as [Hu Hk].
  set (k0 := match column (host s) e with Some c => inl c | None => inr e end
             : Z + TextEditor).
  assert (∀ k, window_of (manager s') k =
               if decide (k = k0) then Some w else window_of (manager s) k) as Hlook.
  { intros k. unfold k0. destruct (column (host s) e) as [c|].
    - destruct Hw as (_ & Hc & He). destruct k as [c'|e']; simpl; rewrite ?Hc, ?He.
      + rewrite lookup_insert. repeat case_decide; congruence.
      + try case_decide; congruence.
    - destruct Hw as (Hc & He). destruct k as [c'|e']; simpl; rewrite ?Hc, ?He.
      + try case_decide; congruence.
      + rewrite lookup_insert. repeat case_decide; congruence. }
  split.
  - intros k1 k2 w0. rewrite !Hlook.
    repeat case_decide; try congruence.
    + intros [= <-] Hold. apply Hk in Hold. done.
    + intros Hold [= <-]. apply Hk in Hold. done.
    + apply Hu.
  - intros k w0. rewrite Hlook. case_decide; [by intros [= <-]|].
    intros Hkw. eapply fresh_kept; eauto.
Qed.

Lemma windows_fresh_visits es l s l' s' :
  windows_fresh known s → visits es l s l' s' → windows_fresh known s'.
Proof.
  revert l s. induction es as [|e es IH]; intros l s Hinv; simpl.
  - by intros [_ ->].
  - intros (l1 & s1 & Hv & Hvs). eapply IH; [|done]. by eapply windows_fresh_visit.
Qed.

Lemma windows_fresh_batch s r s' :
  windows_fresh known s → syncLayoutBatch s = (r, s') → windows_fresh known s'.
Proof.
  intros Hinv.
  destruct (syncLayout_run s)
    as (l1 & s1 & l2 & s2 & s0 & E1 & Hv & E2 & Hc & _).
  unfold syncLayoutBatch. unfold bind at 1. unfold get at 1. simpl.
  unfold bind at 1. rewrite E1. unfold bind at 1. rewrite E2.
  unfold bind at 1. rewrite callAtomic_run. simpl. intros [= _ <-].
  apply (windows_fresh_visits _ _ _ _ _ Hinv) in Hv.
  destruct Hc as (_ & Hn & _ & _ & _ & _ & _ & Hcs & Hes & _).
  eapply (windows_fresh_frame s2); simpl; try done.
  - eapply windows_fresh_drop; [done|done|done|]. rewrite Hn. constructor.
  - destruct (client_callAtomic _ _) eqn:E. simpl. eauto using @advances.
Qed.

Lemma windows_fresh_settle cur s r s' :
  windows_fresh known s → syncLayoutSettle cur s = (r, s') → windows_fresh known s'.
Proof.
  intros Hinv. unfold syncLayoutSettle. run.
  destruct (changeLayoutPromiseResolve (manager s)); run; intros [= _ <-];
    (eapply windows_fresh_frame; [done|done|done|constructor]).
Qed.

Lemma windows_fresh_syncLayout s r s' :
  windows_fresh known s → syncLayout s = (r, s') → windows_fresh known s'.
Proof.
  intros Hinv. unfold syncLayout, bind.
  destruct (syncLayoutBatch s) as [[cur|err] sb] eqn:Eb;
    apply (windows_fresh_batch _ _ _ Hinv) in Eb.
  - by apply windows_fresh_settle.
  - by intros [= _ <-].
Qed.

Lemma windows_kept_refl s : windows_kept s s.
Proof. split_and!; try done. constructor. Qed.

Lemma windows_kept_trans s1 s2 s3 :
  windows_kept s1 s2 → windows_kept s2 s3 → windows_kept s1 s3.
Proof.
  intros (?&?&?) (?&?&?). split_and!; try congruence. by eapply advances_trans.
Qed.

Lemma keeps_ret {A} (a : A) : keeps (ret a).
Proof. intros s r s' [= _ <-]. apply windows_kept_refl. Qed.

Lemma keeps_throw {A} e : keeps (throw (A:=A) e).
Proof. intros s r s' [= _ <-]. apply windows_kept_refl. Qed.

Lemma keeps_get : keeps get.
Proof. intros s r s' [= _ <-]. apply windows_kept_refl. Qed.

Lemma keeps_emit e : keeps (emit e).
Proof. intros s r s' [= _ <-]. split_and!; try done. constructor. Qed.

Lemma keeps_on_host {A} (f : Host → Result A * Host) : keeps (on_host f).
Proof.
  intros s r s'. unfold on_host. destruct (f (host s)). intros [= _ <-].
  split_and!; try done. constructor.
Qed.

Lemma keeps_documents f : keeps (with_manager (upd_textDocumentToBufferId f)).
Proof. intros s r s' [= _ <-]. split_and!; try done. constructor. Qed.

Lemma keeps_bind {A C} (m : M B A) (k : A → M B C) :
  keeps m → (∀ a, keeps (k a)) → keeps (bind m k).
Proof.
  intros Hm Hk s r s'. unfold bind.
  destruct (m s) as [[a|e] s1] eqn:E1; specialize (Hm _ _ _ E1).
  - intros E2. eapply windows_kept_trans; [done|]. by eapply Hk.
  - by intros [= _ <-].
Qed.

Lemma keeps_try_catch {A} (m : M B A) (k : Error → M B A) :
  keeps m → (∀ e, keeps (k e)) → keeps (try_catch m k).
Proof.
  intros Hm Hk s r s'. unfold try_catch.
  destruct (m s) as [[a|e] s1] eqn:E1; specialize (Hm _ _ _ E1).
  - by intros [= _ <-].
  - intros E2. eapply windows_kept_trans; [done|]. by eapply Hk.
Qed.

Lemma keeps_evolves {A} (m : M B A) :
  (∀ s, ∃ r s', m s = (r, s') ∧ manager s' = manager s ∧ evolves s s') → keeps m.
Proof.
  intros Hm s r s' E. destruct (Hm s) as (r1 & s1 & E1 & Hman & Hev).
  rewrite E in E1. injection E1 as <- <-.
  split_and!; rewrite ?Hman; try done. by apply evolves_advances.
Qed.

Lemma keeps_callAtomic requests : keeps (callAtomic requests).
Proof.
  apply keeps_evolves. intros s. destruct (callAtomic_evolves requests s) as (s' & ? & ?).
  by exists (Ok tt), s'.
Qed.

Lemma keeps_initBufferForDocument d buf ed : keeps (initBufferForDocument d buf ed).
Proof.
  apply keeps_evolves. intros s.
  destruct (initBufferForDocument_evolves d buf ed s) as (s' & ? & ?).
  by exists (Ok tt), s'.
Qed.

Lemma keeps_getBuffers : keeps getBuffers.
Proof.
  intros s r s'. unfold getBuffers. run.
  destruct (client_buffers (nvim s)) eqn:E. intros [= _ <-].
  split_and!; simpl; try done. eauto using @advances.
Qed.

Lemma keeps_request name args : keeps (request name args).
Proof.
  intros s r s'. unfold request. run. intros [= _ <-].
  split_and!; simpl; try done. eauto using @advances.
Qed.

(** Applies the rules above to a handler built from the primitives. *)
Ltac keeps_auto :=
  repeat first
    [ apply keeps_ret | apply keeps_throw | apply keeps_get | apply keeps_emit
    | apply keeps_on_host | apply keeps_documents | apply keeps_callAtomic
    | apply keeps_initBufferForDocument | apply keeps_getBuffers | apply keeps_request
    | apply keeps_bind; [|intros ?]
    | apply keeps_try_catch; [|intros ?]
    | match goal with
      | |- keeps (match ?x with _ => _ end) => destruct x
      | |- keeps (if ?x then _ else _) => destruct x
      end ].

Lemma handleExtensionRequest_windows name args : keeps (handleExtensionRequest name args).
Proof.
  unfold handleExtensionRequest, openFile, externalBuffer, attachNeovimExternalBuffer,
    openOnJump, mapOnJump, jumpDocument, resyncBufferTabOptions,
    openTextDocument, showTextDocument, executeCommand.
  keeps_auto.
Qed.

Lemma handleRedrawBatch_same m batch : same_but_grids m (handleRedrawBatch m batch).
Proof.
  unfold handleRedrawBatch. revert m.
  induction batch as [|ev batch IH]; intros m; simpl; [by repeat split|].
  specialize (IH (handleRedrawEvent m ev)). rewrite handleRedrawEvent_grids in *.
  destruct IH as (?&?&?&?&?&?&?&?). by repeat split.
Qed.

(** Every reachable state keeps its windows apart. *)
Lemma reachable_windows_fresh s : reachable s → windows_fresh known s.
Proof.
  induction 1 as [st h b|s h _ IH|s r s' _ IH E|s r s' _ IH E|s cur r s' _ IH E
                 |s r s' _ IH E|s r s' _ IH E
                 |s d r s' _ IH E|s batch r s' _ IH E|s name args r s' _ IH E].
  - split; [|by intros [c|e] w]. by intros [c|e] k2 w.
  - eapply windows_fresh_frame; [done|done|done|constructor].
  - by eapply windows_fresh_syncLayout.
  - by eapply windows_fresh_batch.
  - by eapply windows_fresh_settle.
  - assert (keeps syncActiveEditorNow) as Hk
      by (unfold syncActiveEditorNow, logger_error; keeps_auto).
    apply Hk in E as (Hc & He & Ha). by eapply windows_fresh_frame.
  - revert E. unfold onDidChangeVisibleTextEditors. run.
    destruct (changeLayoutPromise (manager s)); run; intros [= _ <-];
      (eapply windows_fresh_frame; [done|done|done|constructor]).
  - revert E. unfold onDidCloseTextDocument. run. intros [= _ <-].
    eapply windows_fresh_frame; [done|done|done|constructor].
  - revert E. run. intros [= _ <-].
    destruct (handleRedrawBatch_same (manager s) batch) as (_&_&_&_&Hc&He&_).
    eapply windows_fresh_frame; [done|done|done|constructor].
  - apply handleExtensionRequest_windows in E as (Hc & He & Ha).
    by eapply windows_fresh_frame.
Qed.

(** C6.  Uniqueness of the mappings.  With a backend whose windows are
    freshly created, in every reachable state: a document has at most one
    buffer id and a column at most one window id; an editor without column
    has one window id of its own, which the backend has handed out, which
    no other editor without column has and which no column has; and no two
    columns have the same window id. *)
Theorem mappings_unique (s : System B) :
  reachable s →
  let m := manager s in
  (∀ d b1 b2, getBufferIdForTextDocument m d = Some b1 →
              getBufferIdForTextDocument m d = Some b2 → b1 = b2) ∧
  (∀ c w1 w2, editorColumnsToWinId m !! c = Some w1 →
              editorColumnsToWinId m !! c = Some w2 → w1 = w2) ∧
  (∀ e w, noColumnEditorsToWinId m !! e = Some w →
     known (nvim s) w ∧
     (∀ w', noColumnEditorsToWinId m !! e = Some w' → w' = w) ∧
     (∀ e', noColumnEditorsToWinId m !! e' = Some w → e' = e) ∧
     (∀ c, editorColumnsToWinId m !! c ≠ Some w)) ∧
  (∀ c c' w, editorColumnsToWinId m !! c = Some w →
             editorColumnsToWinId m !! c' = Some w → c = c').
Proof.
  intros Hr m. destruct (reachable_windows_fresh s Hr) as [Hu Hk]. fold m in Hu, Hk.
  unfold getBufferIdForTextDocument. split_and!.
  - congruence.
  - congruence.
  - intros e w He. split_and!.
    + by apply (Hk (inr e)).
    + congruence.
    + intros e' He'. specialize (Hu (inr e') (inr e) w He' He). congruence.
    + intros c Hc. specialize (Hu (inl c) (inr e) w Hc He). congruence.
  - intros c c' w Hc Hc'. specialize (Hu (inl c) (inl c') w Hc Hc'). congruence.
Qed.

End Unique.

End Properties.


(** * Further properties *)

(** ** The lookups by value *)

Lemma spread_elem `{Countable K} {V} (entries : list (K * V)) (m : gmap K V) k v :
  spread entries m → (k, v) ∈ entries ↔ m !! k = Some v.
Proof. intros Hs. unfold spread in Hs. rewrite Hs. apply elem_of_map_to_list. Qed.

(** The listing by keys is a listing. *)
Lemma listing_spreads m : spreads (listing m) m.
Proof. unfold spreads, spread. by split_and!. Qed.

(** What [find] answers on a listing is an entry of the map, and it
    answers when the map has a fitting entry. *)
Lemma find_spread `{Countable K} {V} (f : K * V → bool) (entries : list (K * V))
    (m : gmap K V) :
  spread entries m →
  match List.find f entries with
  | Some y => m !! y.1 = Some y.2 ∧ f y = true
  | None => ∀ k v, m !! k = Some v → f (k, v) = false
  end.
Proof.
  intros Hs. destruct (List.find f entries) as [[k v]|] eqn:E.
  - apply find_some in E as [Hin Hf]. split; [|done].
    apply (spread_elem _ _ _ _ Hs). by apply list_elem_of_In.
  - intros k v Hkv. apply (spread_elem _ _ _ _ Hs) in Hkv.
    apply list_elem_of_In in Hkv. by apply (find_none _ _ E) in Hkv.
Qed.

(** When one key only fits, the order of the listing does not matter. *)
Lemma find_spread_unique `{Countable K} {V} (f : K * V → bool) (entries : list (K * V))
    (m : gmap K V) k v :
  spread entries m →
  m !! k = Some v → f (k, v) = true →
  (∀ k' v', m !! k' = Some v' → f (k', v') = true → k' = k) →
  List.find f entries = Some (k, v).
Proof.
  intros Hs Hkv Hf Hu. pose proof (find_spread f entries m Hs) as Hfind.
  destruct (List.find f entries) as [[k' v']|].
  - destruct Hfind as [Hm Hf']. simpl in Hm.
    assert (k' = k) as -> by eauto. congruence.
  - rewrite (Hfind k v Hkv) in Hf. done.
Qed.

(** X1.  Grid of a window and window of a grid (lines 96-103).  Whatever
    the order of the entries of the grid map: the grid that
    [getGridIdForWinId] answers for a window has that window; it answers
    nothing only when no grid has the window; and when one grid only has
    the window, it answers that grid. *)
Theorem getGridIdForWinId_round_trip (x : Spreads) (m : BufferManager) (id : Z) :
  spreads x m →
  (∀ g, getGridIdForWinId x id = Some g → getWinIdForGridId m g = Some id) ∧
  (getGridIdForWinId x id = None → ∀ g, getWinIdForGridId m g ≠ Some id) ∧
  (∀ g, getWinIdForGridId m g = Some id →
        (∀ g', getWinIdForGridId m g' = Some id → g' = g) →
        getGridIdForWinId x id = Some g).
Proof.
  intros (_ & Hg & _). unfold getGridIdForWinId, getWinIdForGridId.
  set (f := λ '(_, conf), bool_decide (winId conf = id)).
  pose proof (find_spread f _ _ Hg) as Hfind.
  split_and!.
  - intros g. destruct (List.find f (gridEntries x)) as [[g' conf]|]; [|done].
    intros [= <-]. destruct Hfind as [Hm Hf]. simpl in *. rewrite Hm. simpl.
    apply bool_decide_eq_true in Hf. by rewrite Hf.
  - destruct (List.find f (gridEntries x)) as [[g' conf]|]; [done|].
    intros _ g. destruct (grids m !! g) as [conf|] eqn:E; [|done]. simpl.
    apply Hfind in E. simpl in E. apply bool_decide_eq_false in E. congruence.
  - intros g Hg1 Hu. destruct (grids m !! g) as [conf|] eqn:E; [|done].
    simpl in Hg1. injection Hg1 as Hid.
    rewrite (find_spread_unique f _ _ g conf Hg E); [done|by apply bool_decide_eq_true|].
    intros g' conf' E' Hf'. apply Hu. rewrite E'. simpl.
    apply bool_decide_eq_true in Hf'. by rewrite Hf'.
Qed.

(** X2.  Document of a buffer and buffer of a document (lines 87-94).
    Whatever the order of the entries of the document map: the document
    that [getTextDocumentForBufferId] answers for an id is mapped to that id
    and is not closed; for the id [NaN], which a jump request can store,
    it answers nothing; and when one document only is mapped to the id, it
    answers that document if the document is open and nothing if it is
    closed. *)
Theorem getTextDocumentForBufferId_round_trip (x : Spreads) (m : BufferManager) (h : Host)
    (id : number) :
  spreads x m →
  (∀ d, getTextDocumentForBufferId x h id = Some d →
        getBufferIdForTextDocument m d = Some id ∧ isClosed (documents h d) = false ∧
        id ≠ NaN) ∧
  getTextDocumentForBufferId x h NaN = None ∧
  (∀ d, getBufferIdForTextDocument m d = Some id → id ≠ NaN →
        (∀ d', getBufferIdForTextDocument m d' = Some id → d' = d) →
        getTextDocumentForBufferId x h id =
          if isClosed (documents h d) then None else Some d).
Proof.
  intros (Hd & _). unfold getTextDocumentForBufferId, getBufferIdForTextDocument.
  assert (∀ a b, number_eqb a b = true ↔ a = b ∧ a ≠ NaN) as Heq.
  { intros [a| |a] [b| |b]; unfold number_eqb; rewrite ?bool_decide_eq_true;
      split; try done; try (intros [? ?]; congruence); intros ->; done. }
  split_and!.
  - intros d.
    pose proof (find_spread (λ '(_, bufId), number_eqb id bufId) _ _ Hd) as Hfind.
    destruct (List.find _ (documentEntries x)) as [[d' b]|]; [|done].
    destruct Hfind as [Hm Hf]. simpl in *. apply Heq in Hf as [-> Hn].
    destruct (isClosed (documents h d')) eqn:Ec; simpl; [done|]. by intros [= <-].
  - destruct (List.find _ (documentEntries x)) as [[d' b]|] eqn:E; [|done].
    apply find_some in E as [_ E]. by destruct b.
  - intros d Hm Hn Hu.
    rewrite (find_spread_unique (λ '(_, bufId), number_eqb id bufId) _ _ d id Hd Hm).
    + by destruct (isClosed (documents h d)).
    + by apply Heq.
    + intros d' b' Hm' Hf'. apply Heq in Hf' as [<- _]. by apply Hu.
Qed.

Lemma column_Some h e c :
  column h e = Some c ↔ viewColumn (editors h e) = Some c ∧ truthy c = true.
Proof.
  unfold column. destruct (viewColumn (editors h e)) as [c'|].
  - destruct (truthy c') eqn:E; split.
    + by intros [= <-].
    + by intros [[= <-] _].
    + done.
    + intros [[= <-] ?]. congruence.
  - split; [done|by intros [? _]].
Qed.

(** X3.  Editor of a window (lines 113-125).  Whatever the order of the
    entries: the editor that [getEditorFromWinId] answers for a window is
    filed under that window in the map of the editors without column, or it
    is an editor of the snapshot that sits in a column and whose window,
    as [getWinIdForTextEditor] reads it, is that window. *)
Theorem getEditorFromWinId_sound (x : Spreads) (m : BufferManager) (h : Host) (id : Z)
    (e : TextEditor) :
  spreads x m →
  getEditorFromWinId x m h id = Some e →
  noColumnEditorsToWinId m !! e = Some id ∨
  (e ∈ openedEditors m ∧ is_Some (column h e) ∧ getWinIdForTextEditor m h e = Some id).
Proof.
  intros (_ & _ & Hn & Hc). unfold getEditorFromWinId.
  pose proof (find_spread (λ '(_, w), bool_decide (w = id)) _ _ Hn) as Hfn.
  pose proof (find_spread (λ '(_, w), bool_decide (w = id)) _ _ Hc) as Hfc.
  destruct (List.find _ (noColumnEntries x)) as [[e' w]|].
  - intros [= <-]. left. destruct Hfn as [Hm Hf]. simpl in *.
    apply bool_decide_eq_true in Hf. congruence.
  - destruct (List.find _ (columnEntries x)) as [[c w]|]; [|done].
    destruct Hfc as [Hm Hf]. simpl in *. apply bool_decide_eq_true in Hf. subst w.
    destruct (truthy c) eqn:Et; [|done].
    intros Hfind. apply find_some in Hfind as [Hin Hv].
    apply bool_decide_eq_true in Hv. right.
    assert (column h e = Some c) as Hcol by by apply column_Some.
    split_and!; [by apply list_elem_of_In|by rewrite Hcol|].
    unfold getWinIdForTextEditor. by rewrite Hcol.
Qed.

(** *** Grids placed by a redraw batch *)

Lemma handleRedrawBatch_snoc m batch ev :
  handleRedrawBatch m (batch ++ [ev]) = handleRedrawEvent (handleRedrawBatch m batch) ev.
Proof. unfold handleRedrawBatch. by rewrite foldl_app. Qed.

Lemma getEditorFromWinId_grids x m f h id :
  getEditorFromWinId x (upd_grids f m) h id = getEditorFromWinId x m h id.
Proof. done. Qed.

Lemma getEditorFromWinId_redraw x m batch h id :
  getEditorFromWinId x (handleRedrawBatch m batch) h id = getEditorFromWinId x m h id.
Proof.
  unfold getEditorFromWinId.
  destruct (handleRedrawBatch_same m batch) as (_ & _ & -> & _). done.
Qed.

(** X6.  Editor of a grid after a redraw batch (lines 127-133 and
    139-158).  When the last event of a batch places a grid on a window
    (and no later tuple of the event names the grid again), the window of
    the grid is that window, and the editor of the grid is the editor of
    that window, but nothing when the window id is 0; when the last event
    closes the grid, the grid has no window and no editor. *)
Theorem getEditorFromGridId_redraw (x : Spreads) (m : BufferManager) (h : Host)
    (batch : list RedrawEvent) (name : string) (pre post : list (Z * Window))
    (g : Z) (win : Window) :
  g ∉ post.*1 →
  let positioned := handleRedrawBatch m (batch ++ [(name, pre ++ (g, win) :: post)]) in
  (name ∈ ["win_pos"; "win_external_pos"] →
   getWinIdForGridId positioned g = Some (win_id win) ∧
   getEditorFromGridId x positioned h g =
     if truthy (win_id win) then getEditorFromWinId x m h (win_id win) else None) ∧
  (name = "win_close" →
   getWinIdForGridId positioned g = None ∧ getEditorFromGridId x positioned h g = None).
Proof.
  intros Hpost positioned. subst positioned.
  rewrite handleRedrawBatch_snoc, handleRedrawEvent_grids.
  unfold getEditorFromGridId, getWinIdForGridId. simpl. split.
  - intros Hn. rewrite redraw_grids_pos_last by done. simpl. split; [done|].
    destruct (truthy (win_id win)); [|done].
    by rewrite getEditorFromWinId_grids, getEditorFromWinId_redraw.
  - intros ->. rewrite redraw_grids_close.
    rewrite bool_decide_eq_true_2; [done|]. rewrite fmap_app. set_solver.
Qed.

(** ** The lines of a document *)

Lemma append_String a (s r : string) : String a s +:+ r = String a (s +:+ r).
Proof. reflexivity. Qed.

Lemma append_nil_r (s : string) : s +:+ EmptyString = s.
Proof. induction s as [|a s IH]; [done|]. rewrite append_String. congruence. Qed.

Lemma append_assoc (a b c : string) : (a +:+ b) +:+ c = a +:+ (b +:+ c).
Proof. induction a as [|x a IH]; [done|]. rewrite !append_String. congruence. Qed.

Lemma length_append (a b : string) :
  String.length (a +:+ b) = (String.length a + String.length b)%nat.
Proof. induction a as [|x a IH]; [done|]. rewrite append_String. simpl. congruence. Qed.

Lemma prefix_app (sep s : string) :
  String.prefix sep s = true → ∃ rest, s = sep +:+ rest.
Proof.
  revert s. induction sep as [|a sep IH]; intros s; simpl.
  - intros _. by exists s.
  - destruct s as [|b s]; simpl; [done|].
    destruct (Ascii.ascii_dec a b) as [->|]; [|done].
    intros [rest ->]%IH. by exists rest.
Qed.

Lemma split_from_skip (sep t rest cur : string) :
  split_from sep (t +:+ rest) (String.length t) cur =
  match rest with
  | EmptyString => [cur]
  | _ => split_from sep rest 0 cur
  end.
Proof.
  induction t as [|a t IH].
  - by destruct rest.
  - rewrite append_String. exact IH.
Qed.

Lemma split_from_cons (sep s : string) skip cur :
  ∃ x r, split_from sep s skip cur = x :: r.
Proof.
  revert skip cur. induction s as [|a s IH]; intros skip cur; cbn [split_from].
  - by exists cur, [].
  - destruct skip; [|apply IH].
    destruct (String.prefix sep (String a s)); [|apply IH]. do 2 eexists. reflexivity.
Qed.

Lemma join_cons sep x l : l ≠ [] → join sep (x :: l) = x +:+ sep +:+ join sep l.
Proof. by destruct l. Qed.

Lemma split_from_join (sep : string) (n : nat) :
  sep ≠ EmptyString →
  ∀ s cur, (String.length s ≤ n)%nat → join sep (split_from sep s 0 cur) = cur +:+ s.
Proof.
  intros Hsep. induction n as [|n IH]; intros s cur Hlen.
  - destruct s; [|simpl in Hlen; lia]. simpl. by rewrite append_nil_r.
  - destruct s as [|a s]; [simpl; by rewrite append_nil_r|].
    simpl in Hlen. cbn [split_from].
    destruct (String.prefix sep (String a s)) eqn:Ep.
    + apply prefix_app in Ep as [rest Erest].
      destruct sep as [|b sep']; [done|]. rewrite append_String in Erest.
      injection Erest as -> ->.
      cbn [String.length Nat.pred]. rewrite split_from_skip.
      destruct rest as [|c rest].
      * simpl. by rewrite !append_nil_r.
      * destruct (split_from_cons (String b sep') (String c rest) 0 EmptyString) as (x & r & E).
        rewrite join_cons by (by rewrite E).
        rewrite IH.
        -- change (EmptyString +:+ String c rest) with (String c rest).
           by rewrite append_String.
        -- rewrite length_append in Hlen. simpl in *. lia.
    + rewrite IH by lia. rewrite append_assoc. reflexivity.
Qed.

(** Splitting loses nothing: the pieces, joined with the separator, are
    the string. *)
Lemma split_join (sep s : string) :
  sep ≠ EmptyString → join sep (JS.split sep s) = s ∧ JS.split sep s ≠ [].
Proof.
  intros Hsep. split.
  - unfold JS.split. by rewrite (split_from_join sep (String.length s)).
  - unfold JS.split. by destruct (split_from_cons sep s 0 EmptyString) as (x & r & ->).
Qed.

(** X24.  The lines of an initialised buffer (lines 447-458).  The batch
    that initialises the buffer of a document holds one
    [nvim_buf_set_lines] call over the whole buffer; its lines are not
    empty as a list and, joined with the line separator of the document,
    they are the text of the document: nothing of the text is lost or
    added. *)
Theorem initRequests_lines (h : Host) (document : TextDocument) (bufId : Z)
    (editor : option TextEditor) :
  ∃ lines,
    filter (λ r, r.1 = "nvim_buf_set_lines") (initRequests h document bufId editor) =
      [("nvim_buf_set_lines",
        [ANum (Int bufId); ANum (Int 0); ANum (Int 1); ABool false; AList (AStr <$> lines)])] ∧
    lines ≠ [] ∧
    join (eolText (eol (documents h document))) lines = getText (documents h document).
Proof.
  exists (JS.split (eolText (eol (documents h document))) (getText (documents h document))).
  split.
  - unfold initRequests, tabOptionRequests, eolText. simpl. done.
  - assert (eolText (eol (documents h document)) ≠ EmptyString) as Hsep
      by (by destruct (eol (documents h document))).
    destruct (split_join _ (getText (documents h document)) Hsep). done.
Qed.

(** ** Frames of the handlers *)

Section Frames.
Context {B : Type} (R : System B → System B → Prop).
Context (R_refl : ∀ s, R s s) (R_trans : ∀ s1 s2 s3, R s1 s2 → R s2 s3 → R s1 s3).

Lemma respects_ret {A} (a : A) : respects R (ret a).
Proof. intros s r s' [= _ <-]. apply R_refl. Qed.

Lemma respects_throw {A} e : respects R (throw (A:=A) e).
Proof. intros s r s' [= _ <-]. apply R_refl. Qed.

Lemma respects_get : respects R get.
Proof. intros s r s' [= _ <-]. apply R_refl. Qed.

Lemma respects_bind {A C} (m : M B A) (k : A → M B C) :
  respects R m → (∀ a, respects R (k a)) → respects R (bind m k).
Proof.
  intros Hm Hk s r s'. unfold bind. destruct (m s) as [[a|e] s1] eqn:E.
  - intros E2. eapply R_trans; [by eapply Hm|by eapply Hk].
  - intros [= _ <-]. by eapply Hm.
Qed.

Lemma respects_try_catch {A} (m : M B A) (k : Error → M B A) :
  respects R m → (∀ e, respects R (k e)) → respects R (try_catch m k).
Proof.
  intros Hm Hk s r s'. unfold try_catch. destruct (m s) as [[a|e] s1] eqn:E.
  - intros [= _ <-]. by eapply Hm.
  - intros E2. eapply R_trans; [by eapply Hm|by eapply Hk].
Qed.

End Frames.

(** Splits a handler into its primitives; [prim] proves the frame of a
    primitive, and that the relation is a preorder. *)
Ltac respects_auto prim :=
  repeat first
    [ apply respects_ret; [prim] | apply respects_throw; [prim]
    | apply respects_get; [prim]
    | apply respects_bind; [prim| |intros ?]
    | apply respects_try_catch; [prim| |intros ?]
    | prim
    | match goal with
      | |- respects _ (match ?x with _ => _ end) => destruct x
      | |- respects _ (if ?x then _ else _) => destruct x
      end ].

(** ** More on the handlers *)

Section Further.
Context {B : Type} `{!NeovimClient B} `{!VSCode} `{!Utils}.

Ltac run :=
  unfold bind, ret, get, with_manager, emit, on_nvim, on_host, throw, try_catch,
    logger_error, new_promise; simpl.

(** *** What a request of the backend leaves alone *)

Lemma untouched_refl (s : System B) : untouched s s.
Proof.
  split_and!; try done; try apply same_rest_refl. exists []. by rewrite app_nil_r.
Qed.

Lemma untouched_trans (s1 s2 s3 : System B) :
  untouched s1 s2 → untouched s2 s3 → untouched s1 s3.
Proof.
  intros (?&?&?&?&e1&?&?) (?&?&?&?&e2&?&?). split_and!; try congruence.
  - by eapply same_rest_trans.
  - exists (e1 ++ e2). split; [rewrite app_assoc; congruence|by apply Forall_app].
Qed.

Lemma host_only_refl (s : System B) : host_only s s.
Proof. done. Qed.

Lemma host_only_trans (s1 s2 s3 : System B) :
  host_only s1 s2 → host_only s2 s3 → host_only s1 s3.
Proof. intros [??] [??]. split; congruence. Qed.

Lemma untouched_emit e : requestEffect e = true → respects (B:=B) untouched (emit e).
Proof.
  intros He s r s' [= _ <-]. split_and!; try done; try apply same_rest_refl.
  exists [e]. split; [done|by constructor].
Qed.

Lemma untouched_on_host {A} (f : Host → Result A * Host) :
  respects (B:=B) untouched (on_host f).
Proof.
  intros s r s'. unfold on_host. destruct (f (host s)). intros [= _ <-].
  split_and!; try done; try apply same_rest_refl. exists []. by rewrite app_nil_r.
Qed.

Lemma untouched_on_nvim {A} (f : B → A * B) : respects (B:=B) untouched (on_nvim f).
Proof.
  intros s r s'. unfold on_nvim. destruct (f (nvim s)). intros [= _ <-].
  split_and!; try done; try apply same_rest_refl. exists []. by rewrite app_nil_r.
Qed.

Lemma untouched_documents f :
  respects (B:=B) untouched (with_manager (upd_textDocumentToBufferId f)).
Proof.
  intros s r s' [= _ <-]. split_and!; try done. exists []. by rewrite app_nil_r.
Qed.

Lemma host_only_emit e : respects (B:=B) host_only (emit e).
Proof. by intros s r s' [= _ <-]. Qed.

Lemma host_only_on_host {A} (f : Host → Result A * Host) :
  respects (B:=B) host_only (on_host f).
Proof. intros s r s'. unfold on_host. destruct (f (host s)). by intros [= _ <-]. Qed.

Lemma openFile_host_only fileName close : respects (B:=B) host_only (openFile fileName close).
Proof.
  unfold openFile, openTextDocument, showTextDocument, executeCommand.
  respects_auto ltac:(first [ apply host_only_refl | apply host_only_trans
    | apply host_only_emit | apply host_only_on_host ]).
Qed.

(** X16.  Failures of the host during an open-file request (lines
    162-184).  The request raises what the host raises and does nothing
    after it: when the document cannot be opened nothing is closed or
    shown; when the closing of the current editor fails the document is
    not shown; when the showing fails the other editors are not closed.
    The manager and the backend are untouched in each case. *)
Theorem openFile_failure (fileName : string) (close : CloseMode) (s : System B) :
  let h := host s in
  let request := handleExtensionRequest "open-file" (OpenFileArgs fileName close) in
  let after h' evs :=
    {| manager := manager s; host := h'; nvim := nvim s;
       effects := effects s ++ OpenTextDocument (openTarget fileName) :: evs;
       promises := promises s |} in
  (∀ err h1, workspace_openTextDocument (openTarget fileName) h = (Throw err, h1) →
     request s = (Throw err, after h1 [])) ∧
  (∀ doc h1 err h2,
     workspace_openTextDocument (openTarget fileName) h = (Ok doc, h1) →
     closesCurrent close h = true →
     commands_executeCommand closeActiveCommand h1 = (Throw err, h2) →
     request s = (Throw err, after h2 [ExecuteCommand closeActiveCommand])) ∧
  (∀ doc h1 h2 err h3,
     workspace_openTextDocument (openTarget fileName) h = (Ok doc, h1) →
     (if closesCurrent close h
      then commands_executeCommand closeActiveCommand h1 = (Ok tt, h2) else h2 = h1) →
     window_showTextDocument doc (InColumn (reusedColumn close h h1)) h2 = (Throw err, h3) →
     request s =
       (Throw err,
        after h3 ((if closesCurrent close h then [ExecuteCommand closeActiveCommand] else []) ++
                  [ShowTextDocument doc (InColumn (reusedColumn close h h1))]))).
Proof.
  intros h request after. subst request after.
  unfold handleExtensionRequest, openFile, openTextDocument, showTextDocument, executeCommand.
  simpl. fold h. fold (openTarget fileName).
  unfold reusedColumn, closesCurrent, closeActiveCommand.
  split_and!.
  - intros err h1 Hopen. run. fold h. by rewrite Hopen.
  - intros doc h1 err h2 Hopen Hcur Hclose. run. fold h. rewrite Hopen. simpl.
    destruct close as [n|]; [|done]. destruct (activeTextEditor h) as [a|]; [|done].
    rewrite Hcur. run. rewrite Hclose. simpl. by rewrite <- app_assoc.
  - intros doc h1 h2 err h3 Hopen Hclose Hshow. run. fold h. rewrite Hopen. simpl.
    destruct close as [n|]; [destruct (activeTextEditor h) as [a|] eqn:Ea;
      [destruct (truthy n) eqn:Hn|]|destruct (activeTextEditor h) as [a|] eqn:Ea];
      simpl in *; run; rewrite ?Hclose; subst; simpl; rewrite ?Hshow; simpl;
      by rewrite <- ?app_assoc.
Qed.

(** *** The jump path of an external-buffer request *)

Lemma number_eqb_eq a b : number_eqb a b = true → a = b.
Proof.
  destruct a, b; unfold number_eqb; try done; intros ?%bool_decide_eq_true; congruence.
Qed.

(** X14.  The jump path when the backend has the buffer (lines 195-226 and
    442-493).  For a document without entry and a buffer of the parsed id
    in the list of the backend: the buffer list is fetched, the buffer is
    initialised for the document with the default tab options (no editor
    is known yet), the entry from the document to the id is recorded, the
    document is shown, and then the tab options of the buffer are set
    again from the options of the editor that shows it.  When the showing
    fails, the entry stays and the tab options are not set again; the
    request returns normally in both cases. *)
Theorem externalBuffer_jump_known_buffer (name idStr : string)
    (expandTab tabStop isJumping : Z) (s s1 : System B) (d : TextDocument)
    (buffers : list Buffer) (b1 : B) (buf : Buffer) :
  includes "://" name = true →
  truthy isJumping = true →
  jumpDocument name s = (Ok d, s1) →
  textDocumentToBufferId (manager s1) !! d = None →
  client_buffers (nvim s1) = (buffers, b1) →
  List.find (λ b, number_eqb (Int (buf_id b)) (parseInt idStr)) buffers = Some buf →
  let init := initRequests (host s1) d (buf_id buf) None in
  let arg := WithOptions (activeColumn (host s1)) false false in
  let b2 := buffer_listen buf "lines" (client_callAtomic init b1).2 in
  ∃ s', handleExtensionRequest "external-buffer"
          (ExternalBufferArgs name idStr expandTab tabStop isJumping) s = (Ok tt, s') ∧
        textDocumentToBufferId (manager s') =
          <[d := Int (buf_id buf)]> (textDocumentToBufferId (manager s1)) ∧
        host s' = (window_showTextDocument d arg (host s1)).2 ∧
        effects s' = effects s1 ++ [GetBuffers; CallAtomic init] ++ atomicLog init b1 ++
          (if onBufferInit (manager s1) then [BufferInit (buf_id buf) d] else []) ++
          [BufferListen (buf_id buf) "lines"; ShowTextDocument d arg] ++
          match (window_showTextDocument d arg (host s1)).1 with
          | Ok ed =>
              let tab := tabOptionRequests (Int (buf_id buf)) (options (editors (host s') ed)) in
              CallAtomic tab :: atomicLog tab b2
          | Throw _ => []
          end.
Proof.
  intros Huri Hjump Hdoc Hnone Hbufs Hfind init arg b2.
  pose proof (find_some _ _ Hfind) as [_ Hid]. apply number_eqb_eq in Hid.
  unfold handleExtensionRequest, externalBuffer. simpl.
  rewrite Huri, (includes_truthy "://" name), Hjump by done. simpl.
  unfold try_catch, openOnJump, mapOnJump. unfold bind at 1. rewrite Hdoc.
  unfold bind at 1. unfold bind at 1. unfold get at 1. simpl. rewrite Hnone.
  rewrite bool_decide_eq_false_2 by (by intros [? ?]).
  unfold getBuffers, showTextDocument, resyncBufferTabOptions, initBufferForDocument, listen.
  unfold bind at 1. unfold bind at 1. unfold bind at 1. unfold bind at 1.
  unfold emit at 1. simpl. unfold on_nvim at 1. simpl. rewrite Hbufs. simpl.
  rewrite Hfind. unfold bind at 1. unfold bind at 1. unfold bind at 1. unfold get at 1.
  simpl. unfold bind at 1. rewrite callAtomic_run. simpl. fold init. rewrite <- Hid.
  destruct (onBufferInit (manager s1)); run; fold arg;
    (destruct (window_showTextDocument d arg (host s1)) as [[ed|err] h'] eqn:Eshow; simpl;
     rewrite ?callAtomic_run; simpl;
     (eexists; split; [reflexivity|]); simpl;
     (split_and!; [done|done|]); rewrite <- ?app_assoc; simpl; done).
Qed.

(** X15.  The jump path for a document that has an entry (lines 201 and
    215-226).  The document is shown and nothing else is done: the buffer
    list is not fetched, no batch is issued, and the entry of the document
    stays as it is, also when it differs from the id of the request. *)
Theorem externalBuffer_jump_known_document (name idStr : string)
    (expandTab tabStop isJumping : Z) (s s1 : System B) (d : TextDocument) :
  includes "://" name = true →
  truthy isJumping = true →
  jumpDocument name s = (Ok d, s1) →
  is_Some (textDocumentToBufferId (manager s1) !! d) →
  let arg := WithOptions (activeColumn (host s1)) false false in
  handleExtensionRequest "external-buffer"
    (ExternalBufferArgs name idStr expandTab tabStop isJumping) s =
  (Ok tt, {| manager := manager s1; host := (window_showTextDocument d arg (host s1)).2;
             nvim := nvim s1; effects := effects s1 ++ [ShowTextDocument d arg];
             promises := promises s1 |}).
Proof.
  intros Huri Hjump Hdoc Hsome arg.
  unfold handleExtensionRequest, externalBuffer. simpl.
  rewrite Huri, (includes_truthy "://" name), Hjump by done. simpl.
  unfold try_catch, openOnJump, mapOnJump. unfold bind at 1. rewrite Hdoc.
  unfold bind at 1. unfold bind at 1. unfold get at 1. simpl.
  rewrite bool_decide_eq_true_2 by done.
  unfold showTextDocument. run. fold arg.
  by destruct (window_showTextDocument d arg (host s1)) as [[ed|err] h'].
Qed.


(** *** The close notification *)

(** X22.  [onDidCloseTextDocument] (lines 236-238) with the lookups (lines
    87-94): after the notification the document has no buffer id, and no
    buffer id leads back to the document, whatever the order of the
    entries; the entries of the other documents, the window maps and the
    effects are as before. *)
Theorem onDidCloseTextDocument_forgets (d : TextDocument) (s : System B) :
  ∃ s', onDidCloseTextDocument d s = (Ok tt, s') ∧
        getBufferIdForTextDocument (manager s') d = None ∧
        (∀ x id, spreads x (manager s') →
                 getTextDocumentForBufferId x (host s') id ≠ Some d) ∧
        (∀ d', d' ≠ d → getBufferIdForTextDocument (manager s') d' =
                        getBufferIdForTextDocument (manager s) d') ∧
        editorColumnsToWinId (manager s') = editorColumnsToWinId (manager s) ∧
        noColumnEditorsToWinId (manager s') = noColumnEditorsToWinId (manager s) ∧
        effects s' = effects s.
Proof.
  eexists. split; [reflexivity|]. unfold getBufferIdForTextDocument. simpl.
  split_and!; try done.
  - apply lookup_delete_eq.
  - intros x id (Hd & _). unfold getTextDocumentForBufferId. simpl in Hd.
    destruct (List.find _ (documentEntries x)) as [[d' b]|] eqn:E; [|done].
    apply find_some in E as [Hin _]. apply list_elem_of_In in Hin.
    apply (spread_elem _ _ _ _ Hd) in Hin.
    destruct (negb _); [|done]. intros [= ->]. by rewrite lookup_delete_eq in Hin.
  - intros d' Hne. by apply lookup_delete_ne.
Qed.

(** *** Columns that have a window *)

Lemma columns_truthy_frame (m m' : BufferManager) :
  columns_truthy m → editorColumnsToWinId m' ⊆ editorColumnsToWinId m → columns_truthy m'.
Proof. intros Hinv Hsub c w Hc. eapply Hinv. by eapply lookup_weaken. Qed.

Lemma columns_truthy_visits es l (s : System B) l' s' :
  columns_truthy (manager s) → visits es l s l' s' → columns_truthy (manager s').
Proof.
  revert l s. induction es as [|e es IH]; intros l s Hinv; simpl.
  - by intros [_ ->].
  - intros (l1 & s1 & (_ & _ & Hw & _) & Hvs). eapply IH; [|done].
    destruct Hw as [[Hc _]|[w [_ Hw]]].
    + eapply columns_truthy_frame; [done|by rewrite Hc].
    + destruct (column (host s) e) as [c|] eqn:Ecol.
      * destruct Hw as (_ & Hc & _). intros c' w'. rewrite Hc.
        destruct (decide (c' = c)) as [->|Hne].
        -- intros _. by apply column_Some in Ecol as [_ ?].
        -- rewrite lookup_insert_ne by done. apply Hinv.
      * destruct Hw as (Hc & _). eapply columns_truthy_frame; [done|by rewrite Hc].
Qed.

Lemma columns_truthy_batch (s : System B) r s' :
  columns_truthy (manager s) → syncLayoutBatch s = (r, s') → columns_truthy (manager s').
Proof.
  intros Hinv.
  destruct (syncLayout_run s)
    as (l1 & s1 & l2 & s2 & s0 & E1 & Hv & E2 & Hc & _).
  unfold syncLayoutBatch. unfold bind at 1. unfold get at 1. simpl.
  unfold bind at 1. rewrite E1. unfold bind at 1. rewrite E2.
  unfold bind at 1. rewrite callAtomic_run. simpl. intros [= _ <-]. simpl.
  apply (columns_truthy_visits _ _ _ _ _ Hinv) in Hv.
  destruct Hc as (_ & _ & _ & _ & _ & _ & _ & Hcs & _).
  by eapply columns_truthy_frame.
Qed.

Lemma columns_truthy_settle cur (s : System B) r s' :
  columns_truthy (manager s) → syncLayoutSettle cur s = (r, s') → columns_truthy (manager s').
Proof.
  intros Hinv. unfold syncLayoutSettle. run.
  destruct (changeLayoutPromiseResolve (manager s)); run; by intros [= _ <-].
Qed.

Lemma reachable_columns_truthy (s : System B) : reachable s → columns_truthy (manager s).
Proof.
  induction 1 as [st h b|s h _ IH|s r s' _ IH E|s r s' _ IH E|s cur r s' _ IH E
                 |s r s' _ IH E|s r s' _ IH E
                 |s d r s' _ IH E|s batch r s' _ IH E|s name args r s' _ IH E].
  - by intros c w.
  - done.
  - revert E. unfold syncLayout, bind.
    destruct (syncLayoutBatch s) as [[cur|err] sb] eqn:Eb;
      apply (columns_truthy_batch _ _ _ IH) in Eb.
    + by apply columns_truthy_settle.
    + by intros [= _ <-].
  - by eapply columns_truthy_batch.
  - by eapply columns_truthy_settle.
  - assert (keeps syncActiveEditorNow) as Hk.
    { unfold syncActiveEditorNow, logger_error.
      apply keeps_bind; [apply keeps_get|intros s0].
      destruct (activeTextEditor (host s0)); [|apply keeps_ret].
      destruct (getWinIdForTextEditor _ _ _) as [w|]; [|apply keeps_emit].
      destruct (truthy w); [apply keeps_request|apply keeps_emit]. }
    apply Hk in E as (Hc & _). eapply columns_truthy_frame; [done|by rewrite Hc].
  - revert E. unfold onDidChangeVisibleTextEditors. run.
    destruct (changeLayoutPromise (manager s)); run; by intros [= _ <-].
  - revert E. unfold onDidCloseTextDocument. run. by intros [= _ <-].
  - revert E. run. intros [= _ <-].
    destruct (handleRedrawBatch_same (manager s) batch) as (_&_&_&_&Hc&_).
    eapply columns_truthy_frame; [done|]. simpl. by rewrite Hc.
  - apply handleExtensionRequest_windows in E as (Hc & _).
    eapply columns_truthy_frame; [done|by rewrite Hc].
Qed.

(** X4.  In every reachable state the columns that have a window are
    truthy columns (lines 308-316): the column 0 never has a window, so the
    guard of line 120 never drops a column that was found. *)
Theorem column_keys_truthy (s : System B) (c w : Z) :
  reachable s →
  editorColumnsToWinId (manager s) !! c = Some w →
  truthy c = true ∧ c ≠ 0.
Proof.
  intros Hr Hc. pose proof (reachable_columns_truthy s Hr c w Hc) as Ht.
  split; [done|]. intros ->. done.
Qed.

Section Unique.
Context (known : B → Z → Prop) (Hfresh : fresh_windows known).

(** X5.  Editor of a window in a reachable state (lines 113-125), with a
    backend whose windows are freshly created.  Whatever the order of the
    entries: the window of an editor without column leads back to that
    editor, and the window of a column leads to the first editor of the
    snapshot that sits in that column. *)
Theorem getEditorFromWinId_reachable (s : System B) (x : Spreads) :
  reachable s →
  spreads x (manager s) →
  let m := manager s in
  (∀ e w, noColumnEditorsToWinId m !! e = Some w →
          getEditorFromWinId x m (host s) w = Some e) ∧
  (∀ c w, editorColumnsToWinId m !! c = Some w →
          getEditorFromWinId x m (host s) w =
          List.find (λ e, bool_decide (viewColumn (editors (host s) e) = Some c))
            (openedEditors m)).
Proof.
  intros Hr Hx m. destruct (reachable_windows_fresh known Hfresh s Hr) as [Hu _].
  pose proof (reachable_columns_truthy s Hr) as Ht. fold m in Hu, Ht.
  destruct Hx as (_ & _ & Hn & Hc). fold m in Hn, Hc.
  unfold getEditorFromWinId. split.
  - intros e w He.
    rewrite (find_spread_unique (λ '(_, w0), bool_decide (w0 = w)) _ _ e w Hn He);
      [done|by apply bool_decide_eq_true|].
    intros e' w' He' Hf. apply bool_decide_eq_true in Hf. subst w'.
    specialize (Hu (inr e') (inr e) w He' He). congruence.
  - intros c w Hcw.
    pose proof (find_spread (λ '(_, w0), bool_decide (w0 = w)) _ _ Hn) as Hfn.
    destruct (List.find _ (noColumnEntries x)) as [[e' w']|].
    { destruct Hfn as [Hm Hf]. simpl in *. apply bool_decide_eq_true in Hf. subst w'.
      specialize (Hu (inr e') (inl c) w Hm Hcw). congruence. }
    rewrite (find_spread_unique (λ '(_, w0), bool_decide (w0 = w)) _ _ c w Hc Hcw);
      [|by apply bool_decide_eq_true|].
    + by rewrite (Ht c w Hcw).
    + intros c' w' Hc' Hf. apply bool_decide_eq_true in Hf. subst w'.
      specialize (Hu (inl c') (inl c) w Hc' Hcw). congruence.
Qed.

End Unique.

(** *** Passes that log no error *)

Lemma errors_app (l1 l2 : list Effect) : errors (l1 ++ l2) = errors l1 ++ errors l2.
Proof. unfold errors. apply omap_app. Qed.

Lemma quiet_refl (s : System B) : quiet s s.
Proof. done. Qed.

(** A step that logs an error is not quiet. *)
Lemma loud (s s' : System B) evs msg :
  effects s' = effects s ++ evs ++ [LoggerError msg] → ¬ quiet s s'.
Proof.
  unfold quiet. intros -> Hq. rewrite !errors_app in Hq. simpl in Hq.
  apply (f_equal length) in Hq. rewrite !length_app in Hq. simpl in Hq. lia.
Qed.

(** Quiet steps are made of quiet steps. *)
Lemma quiet_split (s s1 s' : System B) :
  evolves s s1 → (∃ evs, effects s' = effects s1 ++ evs) → quiet s s' →
  quiet s s1 ∧ quiet s1 s'.
Proof.
  intros (_ & _ & _ & [evs1 E1] & _) [evs2 E2]. unfold quiet.
  rewrite E2, E1, !errors_app. intros Hq.
  assert (errors evs1 = [] ∧ errors evs2 = []) as [-> ->].
  { apply (f_equal length) in Hq. rewrite !length_app in Hq.
    split; apply length_zero_iff_nil; lia. }
  by rewrite !app_nil_r.
Qed.

Lemma ensureBuffer_refusal e (s : System B) s' :
  ensureBuffer e s = (Ok false, s') → ¬ quiet s s'.
Proof.
  unfold ensureBuffer. unfold bind at 1. unfold get at 1. simpl.
  case_bool_decide as Hk; [by intros [= ]|].
  unfold createBuffer. run.
  destruct (client_createBuffer false true (nvim s)) as [[buf|code] b0] eqn:E0; run.
  - match goal with |- context [initBufferForDocument ?d ?b ?ed ?s0] =>
      destruct (initBufferForDocument_evolves d b ed s0) as (s1 & -> & Hm & Hev) end.
    simpl. by intros [= ].
  - intros [= <-]. eapply (loud _ _ [CreateBuffer false true]). simpl.
    by rewrite <- app_assoc.
Qed.

Lemma assignWindow_quiet l e (s : System B) l' s' :
  assignWindow l e s = (Ok l', s') →
  quiet s s' →
  ∃ w, truthy w = true ∧ getWinIdForTextEditor (manager s') (host s) e = Some w ∧
       nvimRequests l' = nvimRequests l ++
         [ ("nvim_win_set_buf",
             [ANum (Int w);
              arg_of (textDocumentToBufferId (manager s) !! document (editors (host s) e))]);
           setCursor (host s) e w ] ∧
       keepViewColumns l' = match column (host s) e with
                            | Some c => {[c]} ∪ keepViewColumns l
                            | None => keepViewColumns l
                            end.
Proof.
  unfold assignWindow, resolveWindow, getWinIdForTextEditor.
  unfold bind at 1. unfold get at 1. simpl.
  unfold try_catch. unfold bind at 1. unfold bind at 1. unfold get at 1. simpl.
  destruct (column (host s) e) as [c|] eqn:Ec;
    [destruct (editorColumnsToWinId (manager s) !! c) as [w|] eqn:Ew|].
  - run. destruct (truthy w) eqn:Ht; run.
    + intros [= <- <-] _. rewrite Ec. exists w. by split_and!.
    + intros [= <- <-] Hq. exfalso. eapply (loud _ _ []); [|exact Hq]. done.
  - unfold bind at 1.
    destruct (createNeovimWindow_spec s) as (r & s1 & -> & Hm & Hev & Hmade).
    pose proof (evolves_host _ _ Hev) as Hh.
    destruct Hev as (_ & _ & _ & [evs Hevs] & _).
    destruct r as [w|err]; run; [destruct (truthy w) eqn:Ht; run|].
    + rewrite Hh, Ec. intros [= <- <-] _. simpl. rewrite Hm. simpl.
      exists w. rewrite lookup_insert_eq. by split_and!.
    + intros [= <- <-] Hq. exfalso. eapply (loud _ _ evs); [|exact Hq].
      simpl. by rewrite Hevs, <- app_assoc.
    + intros [= <- <-] Hq. exfalso. eapply (loud _ _ evs); [|exact Hq].
      simpl. by rewrite Hevs, <- app_assoc.
  - unfold bind at 1.
    destruct (createNeovimWindow_spec s) as (r & s1 & -> & Hm & Hev & Hmade).
    pose proof (evolves_host _ _ Hev) as Hh.
    destruct Hev as (_ & _ & _ & [evs Hevs] & _).
    destruct r as [w|err]; run; [destruct (truthy w) eqn:Ht; run|].
    + rewrite Hh, Ec. intros [= <- <-] _. simpl. rewrite Hm. simpl.
      exists w. rewrite lookup_insert_eq. by split_and!.
    + intros [= <- <-] Hq. exfalso. eapply (loud _ _ evs); [|exact Hq].
      simpl. by rewrite Hevs, <- app_assoc.
    + intros [= <- <-] Hq. exfalso. eapply (loud _ _ evs); [|exact Hq].
      simpl. by rewrite Hevs, <- app_assoc.
Qed.

(** A quiet visit serves its editor. *)
Lemma openVisible_quiet prev l e (s : System B) l' s' :
  openVisible prev l e s = (Ok l', s') →
  quiet s s' →
  ∃ b, textDocumentToBufferId (manager s') !! document (editors (host s) e) = Some b ∧
       (e ∈ prev → l' = l) ∧
       (e ∉ prev →
        ∃ w, truthy w = true ∧ getWinIdForTextEditor (manager s') (host s) e = Some w ∧
             nvimRequests l' = nvimRequests l ++ [setBuf w b; setCursor (host s) e w] ∧
             ∀ c, column (host s) e = Some c → c ∈ keepViewColumns l').
Proof.
  unfold openVisible. unfold bind at 1.
  destruct (ensureBuffer_spec e s) as (known & s1 & E1 & Hev1 & Hc & Hn & Hd & Hk).
  rewrite E1. pose proof (evolves_host _ _ Hev1) as Hh.
  destruct known; simpl; [case_bool_decide as Hin|].
  - intros [= <- <-] _. destruct (Hk eq_refl) as [b Hb]. exists b. by split_and!.
  - intros E2 Hq.
    destruct (assignWindow_spec l e s1) as (l2 & s2 & E2' & Hev2 & Hd2 & _).
    assert (l2 = l' ∧ s2 = s') as [-> ->] by (split; congruence).
    destruct (quiet_split s s1 s' Hev1) as [_ Hq2]; [by destruct Hev2 as (_&_&_&?&_)|done|].
    destruct (assignWindow_quiet _ _ _ _ _ E2 Hq2) as (w & Ht & Hw & Hr & Hkeep).
    destruct (Hk eq_refl) as [b Hb]. rewrite Hh in *. rewrite Hb in Hr. simpl in Hr.
    exists b. split_and!; [by rewrite Hd2|done|]. intros _. exists w. split_and!; try done.
    intros c Hcol. rewrite Hkeep, Hcol. set_solver.
  - intros [= <- <-] Hq. by apply ensureBuffer_refusal in E1.
Qed.

Lemma visits_mono es l (s : System B) l' s' :
  visits es l s l' s' →
  (∀ c w, editorColumnsToWinId (manager s) !! c = Some w →
          editorColumnsToWinId (manager s') !! c = Some w) ∧
  (∃ extra, nvimRequests l' = nvimRequests l ++ extra) ∧
  keepViewColumns l ⊆ keepViewColumns l'.
Proof.
  revert l s. induction es as [|e es IH]; intros l s; simpl.
  - intros [-> ->]. split_and!; [done|by exists []; rewrite app_nil_r|done].
  - intros (l1 & s1 & (_ & _ & Hw & Hl) & Hvs).
    destruct (IH _ _ Hvs) as (Hc & [extra Hx] & Hk). split_and!.
    + intros c w Hcw. apply Hc.
      destruct Hw as [[-> _]|[w' [_ Hw]]]; [done|].
      destruct (column (host s) e) as [c'|].
      * destruct Hw as (Hnone & -> & _).
        rewrite lookup_insert_ne; [done|]. intros ->. congruence.
      * destruct Hw as (-> & _). done.
    + destruct Hl as [->|(w & buf & cursor & Hr & _)]; [by exists extra|].
      eexists. by rewrite Hx, Hr, <- app_assoc.
    + destruct Hl as [->|(w & buf & cursor & _ & Hkeep)]; [done|].
      etrans; [|exact Hk]. rewrite Hkeep. destruct (column (host s) e); set_solver.
Qed.

(** A quiet loop serves every editor it visits. *)
Lemma openLoop_quiet prev es l (s : System B) l' s' :
  foldM (openVisible prev) l es s = (Ok l', s') →
  quiet s s' →
  ∀ e, e ∈ es →
    served prev (host s) e (manager s') (nvimRequests l') (keepViewColumns l').
Proof.
  revert l s. induction es as [|e0 es IH]; intros l s; simpl; [by intros _ _ e ?%elem_of_nil|].
  unfold bind.
  destruct (openVisible_spec prev l e0 s) as (l1 & s1 & E1 & Hv1). rewrite E1.
  destruct (openLoop_spec prev es l1 s1) as (l2 & s2 & E2 & Hvs). rewrite E2.
  intros [= <- <-] Hq.
  pose proof Hv1 as (Hev1 & _).
  pose proof (evolves_host _ _ Hev1) as Hh.
  destruct (quiet_split s s1 s2 Hev1) as [Hq1 Hq2];
    [by destruct (visits_evolves _ _ _ _ _ Hvs) as (_&_&_&?&_)|done|].
  intros e He. destruct (decide (e ∈ es)) as [Hin|Hout].
  { rewrite <- Hh. by eapply IH. }
  assert (e = e0) as -> by set_solver.
  destruct (openVisible_quiet _ _ _ _ _ _ E1 Hq1) as (b & Hb & _ & Hnew).
  destruct (visits_mono _ _ _ _ _ Hvs) as (Hc & [extra Hx] & Hk).
  exists b. split; [by eapply visits_documents|].
  intros Hp. destruct (Hnew Hp) as (w & Ht & Hw & Hr & Hkeep).
  exists w. split_and!; [done|..].
  - revert Hw. unfold getWinIdForTextEditor. destruct (column (host s) e0) as [c|].
    + apply Hc.
    + intros Hw. by rewrite (visits_editors _ _ _ _ _ _ Hvs Hout).
  - rewrite Hx, Hr. set_solver.
  - rewrite Hx, Hr. set_solver.
  - intros c Hcol. apply Hk. by apply Hkeep.
Qed.

(** The second loop leaves the windows of the kept columns and of the
    visible editors where they are. *)
Lemma closeInvisible_keeps cur l p (s : System B) l' s' :
  closeInvisible cur l p s = (Ok l', s') →
  (∀ c, c ∈ keepViewColumns l →
        editorColumnsToWinId (manager s') !! c = editorColumnsToWinId (manager s) !! c) ∧
  (∀ e, e ∈ cur →
        noColumnEditorsToWinId (manager s') !! e = noColumnEditorsToWinId (manager s) !! e).
Proof.
  unfold closeInvisible. case_bool_decide as Hin; [by intros [= <- <-]|].
  unfold closeWindow. run.
  destruct (shown (host s) cur (document (editors (host s) p))) eqn:Esh; run;
    (destruct (column (host s) p) as [c|] eqn:Ec; run;
     [case_bool_decide as Hkeep; run;
      [|destruct (editorColumnsToWinId (manager s) !! c) as [w|] eqn:Ew; run;
        [destruct (truthy w) eqn:Ht; run|]]
     |destruct (noColumnEditorsToWinId (manager s) !! p) as [w|] eqn:Ew; run;
        [destruct (truthy w) eqn:Ht; run|]]);
    intros [= <- <-]; simpl; (split; [intros c0 Hc0|intros e0 He0]); try done;
    rewrite lookup_delete_ne; congruence.
Qed.

Lemma closeLoop_keeps cur prev l (s : System B) l' s' :
  foldM (closeInvisible cur) l prev s = (Ok l', s') →
  (∀ c, c ∈ keepViewColumns l →
        editorColumnsToWinId (manager s') !! c = editorColumnsToWinId (manager s) !! c) ∧
  (∀ e, e ∈ cur →
        noColumnEditorsToWinId (manager s') !! e = noColumnEditorsToWinId (manager s) !! e).
Proof.
  revert l s. induction prev as [|p prev IH]; intros l s; simpl; [by intros [= <- <-]|].
  unfold bind.
  destruct (closeInvisible_spec cur l p s) as (l1 & s1 & E1 & Hc1). rewrite E1.
  intros E2. destruct (closeInvisible_keeps _ _ _ _ _ _ E1) as [Hc He].
  destruct (IH _ _ E2) as [Hc' He'].
  destruct Hc1 as (_ & _ & _ & _ & _ & Hk & _).
  split.
  - intros c Hin. rewrite Hc', Hc; [done|done|by rewrite Hk].
  - intros e Hin. by rewrite He', He.
Qed.

Lemma shown_visible h cur e : e ∈ cur → shown h cur (document (editors h e)) = true.
Proof.
  intros Hin. unfold shown. apply existsb_exists. exists e.
  split; [by apply list_elem_of_In|by apply bool_decide_eq_true].
Qed.

(** A quiet pass serves every visible editor. *)
Lemma syncLayout_quiet (s : System B) :
  ∃ s' batch, syncLayout s = (Ok tt, s') ∧ host s' = host s ∧
    openedEditors (manager s') = visibleTextEditors (host s) ∧
    last (batches (effects s')) = Some batch ∧
    (quiet s s' →
     ∀ e, e ∈ visibleTextEditors (host s) →
       ∃ keep, served (openedEditors (manager s)) (host s) e (manager s') batch keep).
Proof.
  destruct (syncLayout_run s)
    as (l1 & s1 & l2 & s2 & s' & E1 & Hv & E2 & Hc & E & He & Hm & Hh & _).
  exists s', (nvimRequests l2). split_and!; [done|done|by rewrite Hm|..].
  { rewrite He. unfold batches. rewrite !omap_app. simpl.
    destruct (atomicLog_quiet (nvimRequests l2) (nvim s2)) as [_ Hq1].
    destruct (resolveLog_quiet (manager s2)) as [_ Hq2].
    unfold batches in Hq1, Hq2. rewrite Hq1, Hq2. simpl. by rewrite last_snoc. }
  intros Hq e Hin.
  pose proof (visits_evolves _ _ _ _ _ Hv) as Hev1.
  pose proof (evolves_host _ _ Hev1) as Hh1.
  destruct (closeLoop_keeps _ _ _ _ _ _ E2) as [Hkc Hke].
  destruct Hc as (Hh2 & _ & He2 & _ & _ & Hk & _ & _ & _ & (x & Hx & _) & Hsh & _).
  destruct (quiet_split s s1 s' Hev1) as [Hq1 _]; [|done|].
  { rewrite He, He2. by eexists. }
  destruct (openLoop_quiet _ _ _ _ _ _ E1 Hq1 e Hin) as (b & Hb & Hnew).
  exists (keepViewColumns l1), b. rewrite Hm. simpl. split.
  - rewrite Hsh; [done|]. rewrite Hh1. by apply shown_visible.
  - intros Hp. destruct (Hnew Hp) as (w & Ht & Hw & Hr1 & Hr2 & Hkeep).
    exists w. split_and!; try done; [|rewrite Hx; set_solver..].
    revert Hw. unfold getWinIdForTextEditor. simpl.
    destruct (column (host s) e) as [c|] eqn:Ecol.
    + rewrite Hkc; [done|]. by apply Hkeep.
    + by rewrite Hke.
Qed.

(** A pass over editors that were all seen, with all their documents
    known, queues nothing and changes no map. *)
Lemma syncLayout_skip (s : System B) :
  (∀ e, e ∈ visibleTextEditors (host s) → e ∈ openedEditors (manager s)) →
  (∀ e, e ∈ openedEditors (manager s) → e ∈ visibleTextEditors (host s)) →
  (∀ e, e ∈ visibleTextEditors (host s) →
        is_Some (textDocumentToBufferId (manager s) !! document (editors (host s) e))) →
  ∃ s', syncLayout s = (Ok tt, s') ∧
        effects s' = effects s ++ [CallAtomic []] ++ atomicLog [] (nvim s) ++
                     resolveLog (manager s) ∧
        same_maps (manager s) (manager s') ∧
        openedEditors (manager s') = visibleTextEditors (host s) ∧
        host s' = host s.
Proof.
  intros Hsub Hsup Hknown.
  unfold syncLayout, syncLayoutBatch. unfold bind at 1. unfold bind at 1. unfold get at 1.
  simpl. unfold bind at 1.
  rewrite foldM_skip; [|intros; apply openVisible_seen; [by apply Hknown|by apply Hsub]].
  unfold bind at 1.
  rewrite foldM_skip; [|intros; apply closeInvisible_visible; by apply Hsup].
  simpl. unfold bind at 1. rewrite callAtomic_run. simpl.
  unfold syncLayoutSettle. run. unfold resolveLog.
  destruct (changeLayoutPromiseResolve (manager s)) as [p|]; simpl;
    (eexists; split; [reflexivity|]); simpl; rewrite <- ?app_assoc; simpl;
    rewrite ?app_nil_r; by split_and!.
Qed.


(** X8.  Two passes in a row (lines 259-394).  After a pass that logged no
    error, a second pass over the same layout issues the empty batch,
    makes nothing in the backend and leaves the three maps and the
    snapshot as they are. *)
Theorem syncLayout_twice (s s1 : System B) :
  syncLayout s = (Ok tt, s1) →
  quiet s s1 →
  ∃ s2, syncLayout s1 = (Ok tt, s2) ∧
        effects s2 = effects s1 ++ [CallAtomic []] ++ atomicLog [] (nvim s1) ++
                     resolveLog (manager s1) ∧
        same_maps (manager s1) (manager s2) ∧
        openedEditors (manager s2) = openedEditors (manager s1).
Proof.
  intros E Hq.
  destruct (syncLayout_quiet s) as (s' & batch & E' & Hh & Ho & _ & Hserved).
  assert (s' = s1) as -> by congruence.
  destruct (syncLayout_skip s1) as (s2 & E2 & He & Hm & Ho2 & _).
  - intros e. by rewrite Hh, Ho.
  - intros e. by rewrite Hh, Ho.
  - rewrite Hh. intros e Hin. destruct (Hserved Hq e Hin) as (keep & b & Hdoc & _).
    by exists b.
  - exists s2. split_and!; try done. by rewrite Ho2, Hh, Ho.
Qed.


(** *** Editors that stay while their column is given up *)





(** *** The readiness promise *)














(** X27.  Buffers of visible documents are stable (lines 284-297 and
    350-356).  A pass never drops or changes the buffer id of a document
    that a visible editor shows: the id the document had before the pass
    is the id it has after it, whatever the backend answers. *)
Theorem syncLayout_keeps_visible_buffers (s : System B) (e : TextEditor) (b : number) :
  e ∈ visibleTextEditors (host s) →
  getBufferIdForTextDocument (manager s) (document (editors (host s) e)) = Some b →
  ∃ s', syncLayout s = (Ok tt, s') ∧
        getBufferIdForTextDocument (manager s') (document (editors (host s') e)) = Some b.
Proof.
  intros Hin Hb.
  destruct (syncLayout_run s)
    as (l1 & s1 & l2 & s2 & s' & E1 & Hv & E2 & Hc & E & He & Hm & Hh & _).
  exists s'. split; [done|]. unfold getBufferIdForTextDocument in *. rewrite Hh, Hm. simpl.
  pose proof (evolves_host _ _ (visits_evolves _ _ _ _ _ Hv)) as Hh1.
  destruct Hc as (_ & _ & _ & _ & _ & _ & _ & _ & _ & _ & Hsh & _).
  rewrite Hsh.
  - by eapply visits_documents.
  - rewrite Hh1. by apply shown_visible.
Qed.

(** *** The shape of the batch *)

Lemma visits_requests es l (s : System B) l' s' :
  visits es l s l' s' →
  ∃ extra, nvimRequests l' = nvimRequests l ++ extra ∧ Forall (λ r, assigns r = true) extra.
Proof.
  revert l s. induction es as [|e es IH]; intros l s; simpl.
  - intros [-> ->]. exists []. by rewrite app_nil_r.
  - intros (l1 & s1 & (_ & _ & _ & Hl) & Hvs).
    destruct (IH _ _ Hvs) as (extra & Hx & Hall).
    destruct Hl as [->|(w & buf & cursor & Hr & _)]; [by exists extra|].
    eexists. rewrite Hx, Hr, <- app_assoc. split; [done|].
    apply Forall_app. split; [|done]. by repeat constructor.
Qed.

Lemma closeInvisible_requests cur l p (s : System B) l' s' :
  closeInvisible cur l p s = (Ok l', s') →
  ∃ extra, nvimRequests l' = nvimRequests l ++ extra ∧ Forall closing extra.
Proof.
  unfold closeInvisible. case_bool_decide as Hin.
  { intros [= <- <-]. exists []. by rewrite app_nil_r. }
  unfold closeWindow. run.
  destruct (shown (host s) cur (document (editors (host s) p))) eqn:Esh; run;
    (destruct (column (host s) p) as [c|] eqn:Ec; run;
     [case_bool_decide as Hkeep; run;
      [|destruct (editorColumnsToWinId (manager s) !! c) as [w|] eqn:Ew; run;
        [destruct (truthy w) eqn:Ht; run|]]
     |destruct (noColumnEditorsToWinId (manager s) !! p) as [w|] eqn:Ew; run;
        [destruct (truthy w) eqn:Ht; run|]]);
    intros [= <- <-]; simpl;
    first [ by (exists []; rewrite app_nil_r)
          | (eexists; split; [reflexivity|]; constructor; [by exists w|constructor]) ].
Qed.

Lemma closeLoop_requests cur prev l (s : System B) l' s' :
  foldM (closeInvisible cur) l prev s = (Ok l', s') →
  ∃ extra, nvimRequests l' = nvimRequests l ++ extra ∧ Forall closing extra.
Proof.
  revert l s. induction prev as [|p prev IH]; intros l s; simpl.
  { intros [= <- <-]. exists []. by rewrite app_nil_r. }
  unfold bind.
  destruct (closeInvisible_spec cur l p s) as (l1 & s1 & E1 & _). rewrite E1.
  intros E2. destruct (closeInvisible_requests _ _ _ _ _ _ E1) as (x1 & Hx1 & H1).
  destruct (IH _ _ E2) as (x2 & Hx2 & H2).
  exists (x1 ++ x2). rewrite Hx2, Hx1, <- app_assoc. split; [done|by apply Forall_app].
Qed.

(** X26.  The shape of the batch (lines 266-383).  The batch of a pass is
    made of two parts: first the requests that give the windows of new
    editors their buffer and their cursor, then the requests that close
    windows, each for a truthy window id; no other request is in it. *)
Theorem syncLayout_batch_shape (s : System B) :
  ∃ s' assigned closed,
    syncLayout s = (Ok tt, s') ∧
    last (batches (effects s')) = Some (assigned ++ closed) ∧
    Forall (λ r, assigns r = true) assigned ∧
    Forall closing closed.
Proof.
  destruct (syncLayout_run s)
    as (l1 & s1 & l2 & s2 & s' & E1 & Hv & E2 & Hc & E & He & _).
  destruct (visits_requests _ _ _ _ _ Hv) as (assigned & Ha & Hopens).
  destruct (closeLoop_requests _ _ _ _ _ _ E2) as (closed & Hcl & Hcloses).
  exists s', assigned, closed. split_and!; [done| |done|done].
  rewrite He. unfold batches. rewrite !omap_app. simpl.
  destruct (atomicLog_quiet (nvimRequests l2) (nvim s2)) as [_ Hq1].
  destruct (resolveLog_quiet (manager s2)) as [_ Hq2].
  unfold batches in Hq1, Hq2. rewrite Hq1, Hq2. simpl. rewrite last_snoc.
  by rewrite Hcl, Ha.
Qed.

(** *** Debouncing *)



End Further.

(** ** The logger *)

Section LoggerProperties.
Context {F : Type} `{!Logger.FileSystem F}.
Import Logger.

Lemma put_nil (w : World F) : put [] w = w.
Proof. destruct w. unfold put. simpl. by rewrite app_nil_r. Qed.

Lemma put_put o1 o2 (w : World F) : put o2 (put o1 w) = put (o1 ++ o2) w.
Proof. unfold put. simpl. by rewrite app_assoc. Qed.

(** A logger without file never throws and never touches the file system. *)
Lemma call_no_file lg c (w : World F) :
  truthy (fd lg) = false → call lg c w = (Ok tt, put (entries lg c) w).
Proof.
  intros Hfd. destruct c as [t m|t m|t m]; simpl;
    unfold debug, warn, error, write, entries; simpl; rewrite Hfd;
    destruct (enabled lg _); simpl; rewrite ?put_put, ?put_nil, ?app_nil_r; done.
Qed.

Lemma calls_no_file lg cs (w : World F) :
  truthy (fd lg) = false → calls lg cs w = (Ok tt, put (cs ≫= entries lg) w).
Proof.
  intros Hfd. revert w. induction cs as [|c cs IH]; intros w; simpl.
  - by rewrite put_nil.
  - rewrite call_no_file by done. by rewrite IH, put_put.
Qed.

Lemma entries_level_none lg cs :
  logLevel lg = LogLevel.none → cs ≫= entries lg = shownErrors cs.
Proof.
  intros Hl. unfold shownErrors. induction cs as [|c cs IH]; [done|].
  rewrite !bind_cons, IH. f_equal. unfold entries, enabled. rewrite Hl.
  by destruct c.
Qed.

(** X17.  A logger of level [none] (lines 20-34, 36-87).  Its constructor
    opens no file and makes no channel; whatever is logged through it,
    no call throws, the file system is not touched and nothing is given
    out but the messages of the [error] calls, which are shown to the
    user, in their order; disposing of it does nothing. *)
Theorem logger_level_none (EXT_NAME filePath : string) (console : bool) (w : World F)
    (cs : list Call) :
  let lg := (new EXT_NAME LogLevel.none filePath console w).1 in
  (new EXT_NAME LogLevel.none filePath console w).2 = w ∧
  calls lg cs w = (Ok tt, put (shownErrors cs) w) ∧
  dispose lg (put (shownErrors cs) w) = (Ok tt, put (shownErrors cs) w).
Proof.
  intros lg. split_and!; [done|..].
  - rewrite calls_no_file by done. by rewrite entries_level_none.
  - unfold dispose. simpl. by rewrite put_nil.
Qed.

(** X18.  A log file that cannot be opened (lines 25-33, 37, 46).  When
    the level is not [none] and the file does not open (or opens under the
    descriptor 0), logging goes on without the file: no call throws and
    none touches the file system, the channel gets the line of each call
    that the level lets through, in the order of the calls, and disposing
    of the logger closes no descriptor. *)
Theorem logger_unopened_file (EXT_NAME filePath : string) (level : LogLevel.t)
    (console : bool) (w : World F) (cs : list Call) :
  level ≠ LogLevel.none →
  (∀ d, (fs_openSync filePath (files w)).1 = Ok d → d = 0) →
  let lg := (new EXT_NAME level filePath console w).1 in
  let w0 := (new EXT_NAME level filePath console w).2 in
  ∃ out, calls lg cs w0 = (Ok tt, put out w0) ∧
         Forall (λ x, touchesFiles x = false) out ∧
         channelLines out = lineOf <$> filter (λ c, enabled lg (levelOf c) = true) cs ∧
         dispose lg (put out w0) = (Ok tt, put [DisposeChannel] (put out w0)).
Proof.
  intros Hlevel Hopen lg w0.
  assert (fd lg = 0 ∧ outputChannel lg = true) as [Hfd Hch].
  { subst lg. unfold new. destruct level; try done;
      destruct (fs_openSync filePath (files w)) as [[d|e] f] eqn:E; simpl; split; try done;
      by apply Hopen. }
  exists (cs ≫= entries lg). split_and!.
  - by rewrite calls_no_file by (by rewrite Hfd).
  - induction cs as [|c cs IH]; [done|]. rewrite bind_cons. apply Forall_app. split; [|done].
    unfold entries. rewrite Hch.
    destruct (enabled lg _), (outputToConsole lg), c; simpl; repeat constructor.
  - induction cs as [|c cs IH]; [done|]. rewrite bind_cons.
    unfold channelLines in *. rewrite omap_app, IH, filter_cons.
    unfold entries. rewrite Hch.
    destruct (enabled lg (levelOf c)) eqn:E; simpl; try case_decide; try done;
      destruct (outputToConsole lg), c; simpl; done.
  - unfold dispose. by rewrite Hfd, Hch.
Qed.

(** X19.  [error] and the user (lines 73-87).  A call of [error] that
    returns has shown the message to the user, once, as the last thing it
    did; it does not return only when the write to the log file throws, and
    then the message reaches neither the channel, nor the console, nor the
    user. *)
Theorem logger_error_shown (lg : Logger) (timestamp msg : string) (w : World F) :
  let line := timestamp +:+ " ERROR " +:+ msg in
  let r := error lg timestamp msg w in
  match r.1 with
  | Ok _ =>
      ∃ out, outputs r.2 = outputs w ++ out ++ [ShowErrorMessage msg] ∧
             Forall (λ x, ∀ m, x ≠ ShowErrorMessage m) out
  | Throw e =>
      truthy (fd lg) = true ∧ enabled lg LogLevel.error = true ∧
      (fs_appendFileSync (fd lg) (line +:+ newline) (files w)).1 = Throw e ∧
      outputs r.2 = outputs w ++ [AppendFileSync (fd lg) (line +:+ newline)]
  end.
Proof.
  intros line r. subst r. unfold error, write. fold line.
  set (told := (if outputChannel lg then [AppendLine line] else []) ++
               (if outputToConsole lg then [ConsoleLog line] else [])).
  assert (Forall (λ x, ∀ m, x ≠ ShowErrorMessage m) told) as Htold.
  { subst told. destruct (outputChannel lg), (outputToConsole lg); simpl;
      repeat constructor; done. }
  destruct (enabled lg LogLevel.error); [destruct (truthy (fd lg))|]; simpl.
  - destruct (fs_appendFileSync _ _ _) as [[[]|e] f]; simpl; [|done].
    exists (AppendFileSync (fd lg) (line +:+ newline) :: told).
    split; [by rewrite <- !app_assoc|]. by constructor.
  - exists told. split; [by rewrite <- !app_assoc|done].
  - exists []. split; [done|constructor].
Qed.

Lemma bind_sublist {A X} (f g : X → list A) (xs : list X) :
  (∀ x, f x `sublist_of` g x) → (xs ≫= f) `sublist_of` (xs ≫= g).
Proof.
  intros Hfg. induction xs as [|x xs IH]; [done|]. rewrite !bind_cons.
  by apply sublist_app.
Qed.

Lemma enabled_atLevel level lg c :
  enabled (atLevel level lg) c = bool_decide (LogLevel.value c ≤ LogLevel.value level).
Proof. done. Qed.

(** X20.  Levels are thresholds (lines 6-11, 45, 60, 75).  For a logger
    without file, what a sequence of calls gives out at one level is a
    part, in the same order, of what it gives out at any level above;
    no call throws and the file system is not touched. *)
Theorem logger_level_monotone (lg : Logger) (level level' : LogLevel.t) (cs : list Call)
    (w : World F) :
  truthy (fd lg) = false →
  LogLevel.value level ≤ LogLevel.value level' →
  let r := calls (atLevel level lg) cs w in
  let r' := calls (atLevel level' lg) cs w in
  r.1 = Ok tt ∧ r'.1 = Ok tt ∧ files r.2 = files w ∧ files r'.2 = files w ∧
  outputs r.2 `sublist_of` outputs r'.2.
Proof.
  intros Hfd Hle r r'. subst r r'. rewrite !calls_no_file by done. simpl.
  split_and!; try done. apply sublist_app; [done|]. apply bind_sublist. intros c.
  unfold entries. rewrite !enabled_atLevel. simpl.
  apply sublist_app; [|done].
  case_bool_decide as H1; [rewrite bool_decide_eq_true_2 by lia; done|].
  apply sublist_nil_l.
Qed.

(** What a call of a logger with a file and a channel gives out. *)
Lemma call_file lg c (w : World F) :
  truthy (fd lg) = true →
  outputChannel lg = true →
  (call lg c w).1 = Ok tt →
  ∃ out, outputs (call lg c w).2 = outputs w ++ out ∧
         channelLines out = (if enabled lg (levelOf c) then [lineOf c] else []) ∧
         fileData out = (λ l, l +:+ newline) <$> channelLines out.
Proof.
  intros Hfd Hch.
  set (tail := match c with CallError _ m => [ShowErrorMessage m] | _ => [] end).
  assert (call lg c w =
    if enabled lg (levelOf c) then
      match fs_appendFileSync (fd lg) (lineOf c +:+ newline) (files w) with
      | (Ok _, f) =>
          (Ok tt, {| files := f;
                     outputs := outputs w ++
                       [AppendFileSync (fd lg) (lineOf c +:+ newline); AppendLine (lineOf c)] ++
                       (if outputToConsole lg then [ConsoleLog (lineOf c)] else []) ++ tail |})
      | (Throw e, f) =>
          (Throw e, {| files := f;
                       outputs := outputs w ++
                         [AppendFileSync (fd lg) (lineOf c +:+ newline)] |})
      end
    else (Ok tt, put tail w)) as ->.
  { subst tail. destruct c as [t m|t m|t m]; simpl; unfold debug, warn, error, write, put;
      rewrite Hfd, Hch; simpl;
      (destruct (enabled lg _); simpl;
       [destruct (fs_appendFileSync _ _ _) as [[[]|e] f]; simpl|]);
      rewrite <- ?app_assoc; simpl; rewrite ?app_nil_r; try done.
    all: by destruct w. }
  destruct (enabled lg (levelOf c)).
  - destruct (fs_appendFileSync _ _ _) as [[[]|e] f]; simpl; [|done]. intros _.
    eexists. split; [reflexivity|]. subst tail.
    destruct (outputToConsole lg), c; done.
  - intros _. exists tail. split; [done|]. subst tail. by destruct c.
Qed.

(** X21.  The file and the channel agree (lines 46-51, 61-66, 76-81).  For
    a logger with a file and a channel, when no write throws: the channel
    gets the line of each call that the level lets through, in the order
    of the calls, and the file gets the same lines, each followed by a
    line feed. *)
Theorem logger_sinks_agree (lg : Logger) (cs : list Call) (w : World F) :
  truthy (fd lg) = true →
  outputChannel lg = true →
  (calls lg cs w).1 = Ok tt →
  ∃ out, outputs (calls lg cs w).2 = outputs w ++ out ∧
         channelLines out = lineOf <$> filter (λ c, enabled lg (levelOf c) = true) cs ∧
         fileData out = (λ l, l +:+ newline) <$> channelLines out.
Proof.
  intros Hfd Hch. revert w. induction cs as [|c cs IH]; intros w.
  { intros _. exists []. simpl. by rewrite app_nil_r. }
  pose proof (call_file lg c w Hfd Hch) as Hcall. simpl.
  destruct (call lg c w) as [[[]|e] w1]; [|done]. intros Hok.
  destruct (Hcall eq_refl) as (out1 & Ho1 & Hc1 & Hf1). simpl in Ho1.
  destruct (IH w1 Hok) as (out & Ho & Hc & Hf).
  exists (out1 ++ out). split_and!.
  - by rewrite Ho, Ho1, <- app_assoc.
  - unfold channelLines in *. rewrite omap_app, Hc, Hc1, filter_cons.
    destruct (enabled lg (levelOf c)) eqn:E; simpl; try case_decide; try done; congruence.
  - unfold fileData, channelLines in *. rewrite !omap_app, fmap_app. congruence.
Qed.
End LoggerProperties.

(** * The handlers with their logger *)

(** ** More on the passes *)

Section Passes.
Context {B : Type} `{!NeovimClient B} `{!VSCode} `{!Utils}.
Implicit Types (s : System B) (l : Locals).

Ltac run :=
  unfold bind, ret, get, with_manager, emit, on_nvim, on_host, throw, try_catch,
    logger_error, new_promise; simpl.

Lemma shown_iff h cur d :
  shown h cur d = true ↔ ∃ e, e ∈ cur ∧ document (editors h e) = d.
Proof.
  unfold shown. rewrite existsb_exists. split.
  - intros (e & Hin & He). exists e. split; [by apply list_elem_of_In|].
    by apply bool_decide_eq_true in He.
  - intros (e & Hin & He). exists e. split; [by apply list_elem_of_In|].
    by apply bool_decide_eq_true.
Qed.

(** The second loop leaves an entry with a falsy window id where it is. *)
Lemma closeInvisible_falsy cur l p s l' s' :
  closeInvisible cur l p s = (Ok l', s') →
  (∀ c w, editorColumnsToWinId (manager s) !! c = Some w → truthy w = false →
          editorColumnsToWinId (manager s') !! c = Some w) ∧
  (∀ e w, noColumnEditorsToWinId (manager s) !! e = Some w → truthy w = false →
          noColumnEditorsToWinId (manager s') !! e = Some w).
Proof.
  unfold closeInvisible. case_bool_decide as Hin; [by intros [= <- <-]|].
  unfold closeWindow. run.
  destruct (shown (host s) cur (document (editors (host s) p))) eqn:Esh; run;
    (destruct (column (host s) p) as [c|] eqn:Ec; run;
     [case_bool_decide as Hkeep; run;
      [|destruct (editorColumnsToWinId (manager s) !! c) as [w|] eqn:Ew; run;
        [destruct (truthy w) eqn:Ht; run|]]
     |destruct (noColumnEditorsToWinId (manager s) !! p) as [w|] eqn:Ew; run;
        [destruct (truthy w) eqn:Ht; run|]]);
    intros [= <- <-]; simpl; (split; [intros c0 w0 Hc0 Hf|intros e0 w0 He0 Hf]); try done;
    rewrite lookup_delete_ne by congruence; done.
Qed.

Lemma closeLoop_falsy cur prev l s l' s' :
  foldM (closeInvisible cur) l prev s = (Ok l', s') →
  (∀ c w, editorColumnsToWinId (manager s) !! c = Some w → truthy w = false →
          editorColumnsToWinId (manager s') !! c = Some w) ∧
  (∀ e w, noColumnEditorsToWinId (manager s) !! e = Some w → truthy w = false →
          noColumnEditorsToWinId (manager s') !! e = Some w).
Proof.
  revert l s. induction prev as [|p prev IH]; intros l s; simpl; [by intros [= <- <-]|].
  unfold bind.
  destruct (closeInvisible_spec cur l p s) as (l1 & s1 & E1 & _). rewrite E1.
  intros E2. destruct (closeInvisible_falsy _ _ _ _ _ _ E1) as [Hc He].
  destruct (IH _ _ E2) as [Hc' He']. split; eauto.
Qed.

(** No request of a batch closes a falsy window. *)
Lemma closeRequest_falsy w (assigned closed : list Request) :
  Forall (λ r, assigns r = true) assigned → Forall closing closed →
  truthy w = false → closeRequest w ∉ assigned ++ closed.
Proof.
  intros Ha Hc Hf [Hin|Hin]%elem_of_app.
  - rewrite Forall_forall in Ha. by specialize (Ha _ Hin).
  - rewrite Forall_forall in Hc. destruct (Hc _ Hin) as (w' & [= Hw] & Ht). congruence.
Qed.

(** What a pass does for the editors that are gone, with [s1] and [l1] the
    state and the locals after the first loop. *)
Lemma pass_cleanup s :
  let h := host s in
  let cur := visibleTextEditors h in
  let prev := openedEditors (manager s) in
  ∃ l1 s1 batch s',
    foldM (openVisible prev) {| nvimRequests := []; keepViewColumns := ∅ |} cur s = (Ok l1, s1) ∧
    syncLayout s = (Ok tt, s') ∧
    last (batches (effects s')) = Some batch ∧
    ∀ p, p ∈ prev → p ∉ cur →
      let d := document (editors h p) in
      ((¬ ∃ e, e ∈ cur ∧ document (editors h e) = d) →
         textDocumentToBufferId (manager s') !! d = None) ∧
      ((∃ e, e ∈ cur ∧ document (editors h e) = d) →
         textDocumentToBufferId (manager s') !! d = textDocumentToBufferId (manager s1) !! d ∧
         ∀ b, textDocumentToBufferId (manager s) !! d = Some b →
              textDocumentToBufferId (manager s') !! d = Some b) ∧
      match column h p with
      | Some c =>
          ((∀ e, e ∈ cur → column h e ≠ Some c) →
             (c ∉ keepViewColumns l1) ∧
             editorColumnsToWinId (manager s1) !! c = editorColumnsToWinId (manager s) !! c) ∧
          (c ∉ keepViewColumns l1 →
           ∀ w, editorColumnsToWinId (manager s1) !! c = Some w →
                if truthy w
                then closeRequest w ∈ batch ∧ editorColumnsToWinId (manager s') !! c = None
                else (closeRequest w ∉ batch) ∧ editorColumnsToWinId (manager s') !! c = Some w)
      | None =>
          noColumnEditorsToWinId (manager s1) !! p = noColumnEditorsToWinId (manager s) !! p ∧
          ∀ w, noColumnEditorsToWinId (manager s1) !! p = Some w →
               if truthy w
               then closeRequest w ∈ batch ∧ noColumnEditorsToWinId (manager s') !! p = None
               else (closeRequest w ∉ batch) ∧ noColumnEditorsToWinId (manager s') !! p = Some w
      end.
Proof.
  intros h cur prev.
  destruct (syncLayout_run s) as (l1 & s1 & l2 & s2 & s' & E1 & Hv & E2 & Hc & E & He & Hm & _).
  fold cur prev in E1, Hv, E2, Hc.
  exists l1, s1, (nvimRequests l2), s'. split_and!; [done|done|..].
  { rewrite He. unfold batches. rewrite !omap_app. simpl.
    destruct (atomicLog_quiet (nvimRequests l2) (nvim s2)) as [_ Hq1].
    destruct (resolveLog_quiet (manager s2)) as [_ Hq2].
    unfold batches in Hq1, Hq2. rewrite Hq1, Hq2. simpl. by rewrite last_snoc. }
  pose proof (evolves_host _ _ (visits_evolves _ _ _ _ _ Hv)) as Hh1. fold h in Hh1.
  destruct (closeLoop_falsy _ _ _ _ _ _ E2) as [Hfc Hfe].
  destruct (visits_requests _ _ _ _ _ Hv) as (assigned & Ha & Hopens). simpl in Ha.
  destruct (closeLoop_requests _ _ _ _ _ _ E2) as (closed & Hcl & Hcloses).
  destruct Hc as (Hh2 & _ & _ & _ & _ & Hk & Hds & Hcs & Hes & (x & Hx & Hxc & Hxe) & Hsh & Hq).
  rewrite Hh1 in *.
  assert (textDocumentToBufferId (manager s') = textDocumentToBufferId (manager s2)) as Hd'
    by (by rewrite Hm).
  assert (editorColumnsToWinId (manager s') = editorColumnsToWinId (manager s2)) as Hc'
    by (by rewrite Hm).
  assert (noColumnEditorsToWinId (manager s') = noColumnEditorsToWinId (manager s2)) as He'
    by (by rewrite Hm).
  rewrite Hd', Hc', He'.
  intros p Hp Hcur d. destruct (Hq p Hp Hcur) as [Hqd Hqw]. fold d in Hqd.
  split_and!.
  - intros Hno. apply Hqd. apply not_true_is_false. by rewrite shown_iff.
  - intros Hs%shown_iff. split; [by apply Hsh|].
    intros b Hb. rewrite (Hsh _ Hs). by eapply visits_documents.
  - destruct (column h p) as [c|] eqn:Ec.
    + split.
      * intros Hfree. split; [|by eapply visits_columns].
        intros Hkept. destruct (visits_kept _ _ _ _ _ _ Hv Hkept) as [Hk0|(e & He1 & He2)].
        -- simpl in Hk0. set_solver.
        -- by eapply Hfree.
      * intros Hkeep w Hw. destruct (truthy w) eqn:Ht.
        -- specialize (Hqw Hkeep w Hw Ht). split; [|done].
           rewrite Hx. apply elem_of_app. right. by eapply Hxc.
        -- split; [|by apply Hfc]. rewrite Hcl, Ha. by apply closeRequest_falsy.
    + split; [by eapply visits_editors|].
      intros w Hw. destruct (truthy w) eqn:Ht.
      * specialize (Hqw w Hw Ht). split; [|done].
        rewrite Hx. apply elem_of_app. right. by eapply Hxe.
      * split; [|by apply Hfe]. rewrite Hcl, Ha. by apply closeRequest_falsy.
Qed.



(** *** What a pass that does not come to its end leaves alone *)










End Passes.

(** ** The two embeddings agree

    With a logger that does not throw, a handler with its logger does what
    the handler without it does. *)

Section Agreement.
Context {B G : Type} `{!NeovimClient B} `{!VSCode} `{!Utils} `{!Log G}.
Context (Hreliable : Logged.reliable).
Implicit Types (s : System (B * G)).

Lemma agrees_ret {A} (a : A) : agrees (B:=B) (G:=G) (ret a) (ret a).
Proof. done. Qed.

Lemma agrees_throw {A} e : agrees (B:=B) (G:=G) (throw (A:=A) e) (throw e).
Proof. done. Qed.

Lemma agrees_bind {A C} (f : M (B * G) A) (m : M B A) (k : A → M (B * G) C) (k' : A → M B C) :
  agrees f m → (∀ a, agrees (k a) (k' a)) → agrees (bind f k) (bind m k').
Proof.
  intros Hf Hk s. unfold agrees_at, bind. destruct (Hf s) as [H1 H2].
  destruct (f s) as [[a|e] s1], (m (Logged.backend s)) as [[a'|e'] t1]; simpl in *;
    simplify_eq; try done; apply Hk.
Qed.

Lemma agrees_try_catch {A} (f : M (B * G) A) (m : M B A) (k : Error → M (B * G) A)
    (k' : Error → M B A) :
  agrees f m → (∀ e, agrees (k e) (k' e)) → agrees (try_catch f k) (try_catch m k').
Proof.
  intros Hf Hk s. unfold agrees_at, try_catch. destruct (Hf s) as [H1 H2].
  destruct (f s) as [[a|e] s1], (m (Logged.backend s)) as [[a'|e'] t1]; simpl in *;
    simplify_eq; try done; apply Hk.
Qed.

(** Both handlers read the state. *)
Lemma agrees_get {A} (k : System (B * G) → M (B * G) A) (k' : System B → M B A) :
  (∀ s, agrees (k s) (k' (Logged.backend s))) → agrees (bind get k) (bind get k').
Proof. intros Hk s. apply Hk. Qed.

(** The handler with the logger reads the state, or logs a line, where
    the other does nothing. *)
Lemma agrees_get_l {A} (k : System (B * G) → M (B * G) A) (m : M B A) :
  (∀ s, agrees (k s) m) → agrees (bind get k) m.
Proof. intros Hk s. apply Hk. Qed.

Lemma agrees_debug_l {A} msg (k : M (B * G) A) (m : M B A) :
  agrees k m → agrees (bind (Logged.logger_debug msg) (λ _, k)) m.
Proof.
  intros Hk s. unfold agrees_at, bind, Logged.logger_debug, Logged.on_logger.
  destruct (Hreliable msg (nvim s).2) as [Hd _]. simpl. rewrite Hd.
  exact (Hk (Logged.with_sinks _ s)).
Qed.

Lemma agrees_debug msg : agrees (B:=B) (G:=G) (Logged.logger_debug msg) (ret tt).
Proof.
  intros s. unfold agrees_at, Logged.logger_debug, Logged.on_logger.
  destruct (Hreliable msg (nvim s).2) as [Hd _]. simpl. by rewrite Hd.
Qed.

Lemma agrees_logger_error msg :
  agrees (B:=B) (G:=G) (Logged.logger_error msg) (logger_error msg).
Proof.
  intros s. unfold agrees_at, Logged.logger_error, logger_error, bind, emit, Logged.on_logger.
  simpl. destruct (Hreliable msg (nvim s).2) as [_ He]. by rewrite He.
Qed.

Lemma agrees_emit e : agrees (B:=B) (G:=G) (emit e) (emit e).
Proof. done. Qed.

Lemma agrees_with_manager f : agrees (B:=B) (G:=G) (with_manager f) (with_manager f).
Proof. done. Qed.

Lemma agrees_on_host {A} (f : Host → Result A * Host) :
  agrees (B:=B) (G:=G) (on_host f) (on_host f).
Proof. intros s. unfold agrees_at, on_host. simpl. by destruct (f (host s)). Qed.

Lemma agrees_on_nvim {A} (f : B * G → A * (B * G)) (f' : B → A * B) :
  (∀ x, (f x).1 = (f' x.1).1 ∧ (f x).2.1 = (f' x.1).2) →
  agrees (on_nvim f) (on_nvim f').
Proof.
  intros Hf s. unfold agrees_at, on_nvim. simpl. destruct (Hf (nvim s)) as [H1 H2].
  destruct (f (nvim s)) as [a x], (f' (nvim s).1) as [a' b]. simpl in *. by subst.
Qed.

Lemma agrees_foldM {A X} (f : A → X → M (B * G) A) (f' : A → X → M B A) a xs :
  (∀ a x, agrees (f a x) (f' a x)) → agrees (foldM f a xs) (foldM f' a xs).
Proof.
  intros Hf. revert a. induction xs as [|x xs IH]; intros a; simpl; [apply agrees_ret|].
  apply agrees_bind; [apply Hf|apply IH].
Qed.

End Agreement.

Ltac agree_step known :=
  lazymatch goal with
  | |- agrees (ret _) (ret _) => apply agrees_ret
  | |- agrees (throw _) (throw _) => apply agrees_throw
  | |- agrees (emit _) (emit _) => apply agrees_emit
  | |- agrees (with_manager _) (with_manager _) => apply agrees_with_manager
  | |- agrees (on_host _) (on_host _) => apply agrees_on_host
  | |- agrees (on_nvim _) (on_nvim _) => apply agrees_on_nvim; intros ?; by split
  | |- agrees (Logged.logger_error _) (logger_error _) => by apply agrees_logger_error
  | |- agrees (bind get _) (bind get _) => apply agrees_get; intros ?; simpl
  | |- agrees (bind (Logged.logger_debug _) _) _ => apply agrees_debug_l; [done|]
  | |- agrees (bind get _) _ => apply agrees_get_l; intros ?; simpl
  | |- agrees (bind _ _) (bind _ _) => apply agrees_bind; [|intros ?]
  | |- agrees (try_catch _ _) (try_catch _ _) => apply agrees_try_catch; [|intros ?]
  | |- agrees (foldM _ _ _) (foldM _ _ _) => apply agrees_foldM; intros ? ?
  | |- agrees (match ?x with _ => _ end) _ => destruct x
  | |- agrees (if ?x then _ else _) _ => destruct x
  | |- _ => known
  end.

Ltac agree known := repeat agree_step known.

Section Simulation.
Context {B G : Type} `{!NeovimClient B} `{!VSCode} `{!Utils} `{!Log G}.
Context (Hreliable : Logged.reliable).

Lemma agrees_createBuffer listed scratch :
  agrees (B:=B) (G:=G) (createBuffer listed scratch) (createBuffer listed scratch).
Proof. unfold createBuffer. agree fail. Qed.

Lemma agrees_openWindow buffer enter opts :
  agrees (B:=B) (G:=G) (openWindow buffer enter opts) (openWindow buffer enter opts).
Proof. unfold openWindow. agree fail. Qed.

Lemma agrees_getBuffers : agrees (B:=B) (G:=G) getBuffers getBuffers.
Proof. unfold getBuffers. agree fail. Qed.

Lemma agrees_listen buffer event : agrees (B:=B) (G:=G) (listen buffer event) (listen buffer event).
Proof. unfold listen. agree fail. Qed.

Lemma agrees_openTextDocument target :
  agrees (B:=B) (G:=G) (openTextDocument target) (openTextDocument target).
Proof. unfold openTextDocument. agree fail. Qed.

Lemma agrees_showTextDocument d arg :
  agrees (B:=B) (G:=G) (showTextDocument d arg) (showTextDocument d arg).
Proof. unfold showTextDocument. agree fail. Qed.

Lemma agrees_executeCommand command :
  agrees (B:=B) (G:=G) (executeCommand command) (executeCommand command).
Proof. unfold executeCommand. agree fail. Qed.

Lemma agrees_callAtomic requests : agrees (B:=B) (G:=G) (Logged.callAtomic requests) (callAtomic requests).
Proof. unfold Logged.callAtomic, callAtomic. agree fail. Qed.

Ltac known :=
  first [ apply agrees_createBuffer | apply agrees_openWindow | apply agrees_getBuffers
        | apply agrees_listen | apply agrees_openTextDocument | apply agrees_showTextDocument
        | apply agrees_executeCommand | by apply agrees_callAtomic ].

Lemma agrees_initBufferForDocument d buf ed :
  agrees (B:=B) (G:=G) (Logged.initBufferForDocument d buf ed) (initBufferForDocument d buf ed).
Proof. unfold Logged.initBufferForDocument, initBufferForDocument. agree known. Qed.

Lemma agrees_resyncBufferTabOptions ed id :
  agrees (B:=B) (G:=G) (Logged.resyncBufferTabOptions ed id) (resyncBufferTabOptions ed id).
Proof. unfold Logged.resyncBufferTabOptions, resyncBufferTabOptions. agree known. Qed.

Lemma agrees_createNeovimWindow : agrees (B:=B) (G:=G) Logged.createNeovimWindow createNeovimWindow.
Proof. unfold Logged.createNeovimWindow, createNeovimWindow. agree known. Qed.

Lemma agrees_openFile fileName close :
  agrees (B:=B) (G:=G) (openFile fileName close) (openFile fileName close).
Proof. unfold openFile. agree known. Qed.

Lemma agrees_handleExtensionRequest name args :
  agrees (B:=B) (G:=G) (Logged.handleExtensionRequest name args) (handleExtensionRequest name args).
Proof.
  unfold Logged.handleExtensionRequest, handleExtensionRequest, Logged.externalBuffer,
    externalBuffer, attachNeovimExternalBuffer, Logged.openOnJump, openOnJump,
    Logged.mapOnJump, mapOnJump, Logged.jumpDocument, jumpDocument.
  agree ltac:(first [ known | apply agrees_openFile | by apply agrees_initBufferForDocument
                    | by apply agrees_resyncBufferTabOptions ]).
Qed.

Lemma agrees_ensureBuffer e : agrees (B:=B) (G:=G) (Logged.ensureBuffer e) (ensureBuffer e).
Proof.
  unfold Logged.ensureBuffer, ensureBuffer.
  agree ltac:(first [ known | by apply agrees_initBufferForDocument ]).
Qed.

Lemma agrees_resolveWindow e : agrees (B:=B) (G:=G) (Logged.resolveWindow e) (resolveWindow e).
Proof.
  unfold Logged.resolveWindow, resolveWindow, Logged.newWindow.
  agree ltac:(first [ known | by apply agrees_createNeovimWindow ]).
Qed.

Lemma agrees_assignWindow l e :
  agrees (B:=B) (G:=G) (Logged.assignWindow l e) (assignWindow l e).
Proof.
  intros s. destruct (agrees_resolveWindow e s) as [H1 H2]. unfold agrees_at.
  unfold Logged.assignWindow, assignWindow, Logged.validWindow, Logged.logger_error,
    logger_error, Logged.logger_debug, Logged.on_logger.
  unfold bind, get, try_catch, ret, throw, emit. simpl.
  destruct (Logged.resolveWindow e s) as [[[w|]|err] s1] eqn:E1;
    destruct (resolveWindow e (Logged.backend s)) as [[[w'|]|err'] t1] eqn:E2;
    simpl in *; simplify_eq; simpl.
  - destruct (truthy w'); simpl.
    + match goal with |- context [log_debug ?m ?g] =>
        destruct (Hreliable m g) as [Hd _]; destruct (log_debug m g) as [r g'] end.
      simpl in *. subst r. done.
    + match goal with |- context [log_error ?m ?g] =>
        destruct (Hreliable m g) as [_ He]; destruct (log_error m g) as [r g'] end.
      simpl in *. subst r. done.
  - match goal with |- context [log_error ?m ?g] =>
      destruct (Hreliable m g) as [_ He]; destruct (log_error m g) as [r g'] end.
    simpl in *. subst r. done.
  - match goal with |- context [log_error ?m ?g] =>
      destruct (Hreliable m g) as [_ He]; destruct (log_error m g) as [r g'] end.
    simpl in *. subst r. done.
Qed.

Lemma agrees_openVisible prev l e : agrees (B:=B) (G:=G) (Logged.openVisible prev l e) (openVisible prev l e).
Proof.
  unfold Logged.openVisible, openVisible.
  agree ltac:(first [ by apply agrees_ensureBuffer | by apply agrees_assignWindow ]).
Qed.

Lemma agrees_closeWindow l p : agrees (B:=B) (G:=G) (Logged.closeWindow l p) (closeWindow l p).
Proof. unfold Logged.closeWindow, closeWindow. agree known. Qed.

Lemma agrees_closeInvisible cur l p :
  agrees (B:=B) (G:=G) (Logged.closeInvisible cur l p) (closeInvisible cur l p).
Proof.
  unfold Logged.closeInvisible, closeInvisible.
  agree ltac:(by apply agrees_closeWindow).
Qed.

Lemma agrees_syncLayoutSettle cur :
  agrees (B:=B) (G:=G) (syncLayoutSettle cur) (syncLayoutSettle cur).
Proof. unfold syncLayoutSettle. agree known. Qed.

Lemma agrees_syncLayoutBatch : agrees (B:=B) (G:=G) Logged.syncLayoutBatch syncLayoutBatch.
Proof.
  unfold Logged.syncLayoutBatch, syncLayoutBatch, Logged.openLoop, Logged.closeLoop.
  agree ltac:(first [ by apply agrees_openVisible | by apply agrees_closeInvisible
                    | by apply agrees_callAtomic ]).
Qed.

Lemma agrees_syncLayout : agrees (B:=B) (G:=G) Logged.syncLayout syncLayout.
Proof.
  unfold Logged.syncLayout, syncLayout.
  agree ltac:(first [ by apply agrees_syncLayoutBatch | apply agrees_syncLayoutSettle ]).
Qed.

End Simulation.

(** ** Properties of the handlers with their logger *)

Section Logging.
Context {B G : Type} `{!NeovimClient B} `{!VSCode} `{!Utils} `{!Log G}.
Implicit Types (s : System (B * G)) (l : Locals).

Ltac run :=
  unfold bind, ret, get, with_manager, emit, on_nvim, on_host, throw, try_catch,
    Logged.logger_error, Logged.logger_debug, Logged.on_logger, new_promise; simpl.

(** What the handler above returns, the handler with a reliable logger
    returns, from a system with any sinks. *)
Lemma agrees_run {A} (f : M (B * G) A) (m : M B A) s r t :
  agrees f m → m (Logged.backend s) = (r, t) →
  ∃ s', f s = (r, s') ∧ Logged.backend s' = t.
Proof.
  intros Ha E. destruct (Ha s) as [H1 H2]. rewrite E in H1, H2. simpl in *.
  exists (f s).2. split; [|done]. rewrite <- H1. apply surjective_pairing.
Qed.


(** *** The first call of the logger *)



(** *** A pass that does not come to its end *)




(** *** Requests of the backend *)

Lemma untouched_on_logger (f : G → Result unit * G) :
  respects (B:=B * G) untouched (Logged.on_logger f).
Proof.
  intros s r s' [= _ <-]. split_and!; try done; try apply same_rest_refl.
  exists []. by rewrite app_nil_r.
Qed.

Lemma handleExtensionRequest_logged_untouched name args :
  respects (B:=B * G) untouched (Logged.handleExtensionRequest name args).
Proof.
  unfold Logged.handleExtensionRequest, openFile, Logged.externalBuffer,
    attachNeovimExternalBuffer, Logged.openOnJump, Logged.mapOnJump, Logged.jumpDocument,
    Logged.resyncBufferTabOptions, Logged.initBufferForDocument, Logged.callAtomic,
    getBuffers, listen, Logged.logger_error, Logged.logger_debug,
    openTextDocument, showTextDocument, executeCommand.
  respects_auto ltac:(first [ apply untouched_refl | apply untouched_trans
    | by apply untouched_emit | apply untouched_on_host | apply untouched_on_nvim
    | apply untouched_on_logger | apply untouched_documents ]).
Qed.

(** An external-buffer request raises what its first call of the logger
    raises, and nothing else. *)
Lemma externalBuffer_raises name idStr expandTab tabStop isJumping s :
  let r := Logged.externalBuffer name idStr expandTab tabStop isJumping s in
  r.1 = Ok tt ∨
  ∃ err g,
    log_debug (if negb (truthy_str name && includes "://" name)
               then Logged.attachingText name else Logged.openingText name)
      (nvim s).2 = (Throw err, g) ∧
    r = (Throw err, Logged.with_sinks g s).
Proof.
  unfold Logged.externalBuffer, attachNeovimExternalBuffer.
  destruct (negb _); simpl.
  - run. destruct (log_debug _ _) as [[[]|err] g] eqn:E; simpl; [by left|].
    right. by exists err, g.
  - destruct (_ && _); [|by left]. run.
    destruct (log_debug _ _) as [[[]|err] g] eqn:E; simpl; [|right; by exists err, g].
    left. by destruct (Logged.openOnJump _ _ _) as [[[]|e] s1].
Qed.

(** X13.  The frame of the requests of the backend (lines 160-234).  A
    request, whatever its name and arguments and whatever the host, the
    backend and the logger answer, leaves the window maps, the grids, the
    snapshot of the editors and the readiness promise as they are.  Its
    only calls of the backend are the fetch of the buffer list, atomic
    batches and the subscription to the lines of a buffer: it makes no
    buffer and no window, never calls [client.request] and settles no
    promise.  An open-file request changes nothing of the manager and does
    not reach the backend at all.  An external-buffer request raises only
    when its first call of the logger (line 189 or line 192, both outside
    of the [try]) throws, and then it raises that exception and has done
    nothing else. *)
Theorem handleExtensionRequest_frame (name : string) (args : ExtensionArgs) s :
  let r := Logged.handleExtensionRequest name args s in
  same_rest (manager s) (manager r.2) ∧
  editorColumnsToWinId (manager r.2) = editorColumnsToWinId (manager s) ∧
  noColumnEditorsToWinId (manager r.2) = noColumnEditorsToWinId (manager s) ∧
  promises r.2 = promises s ∧
  (∃ evs, effects r.2 = effects s ++ evs ∧ Forall (λ e, requestEffect e = true) evs) ∧
  match args with
  | OpenFileArgs _ _ => manager r.2 = manager s ∧ nvim r.2 = nvim s
  | ExternalBufferArgs bname _ _ _ _ =>
      r.1 = Ok tt ∨
      ∃ err g,
        log_debug (if negb (truthy_str bname && includes "://" bname)
                   then Logged.attachingText bname else Logged.openingText bname)
          (nvim s).2 = (Throw err, g) ∧
        r = (Throw err, Logged.with_sinks g s)
  end.
Proof.
  intros r.
  destruct (handleExtensionRequest_logged_untouched name args s r.1 r.2) as (?&?&?&?&?);
    [apply surjective_pairing|].
  split_and!; try done. subst r. destruct args as [fileName close|]; simpl.
  - case_bool_decide; [|done]. eapply openFile_host_only. apply surjective_pairing.
  - case_bool_decide; [|by left]. apply externalBuffer_raises.
Qed.

(** The text of line 203. *)

(** C9 (as amended).  The jump path of an external-buffer request
    (URI-shaped name, jump flag set), for a document [d] that has no entry
    in the Document→Buffer map; [s0] is the state after the call of the
    logger of line 192 and [s1] the state once the document is found or
    opened.  When the call of the logger of line 203 returns and the
    buffer list of the backend holds no buffer of the parsed id, the
    handler returns normally, the map gains the entry from [d] to the
    parsed id, and the only actions are the fetch of the buffer list and
    the showing of the document; no batch is issued, so the buffer is not
    initialised and its tab options are not resynchronised.  This is so
    whether the host shows the document or fails to.  When the call of
    line 203 throws, the [catch] of lines 227-229 swallows the exception:
    the handler returns normally, and no entry is recorded and nothing
    else is done. *)
Theorem externalBuffer_jump_unknown_buffer (name idStr : string)
    (expandTab tabStop isJumping : Z) s s0 s1 (d : TextDocument) :
  let request := Logged.handleExtensionRequest "external-buffer"
                   (ExternalBufferArgs name idStr expandTab tabStop isJumping) in
  includes "://" name = true →
  truthy isJumping = true →
  Logged.logger_debug (Logged.openingText name) s = (Ok tt, s0) →
  Logged.jumpDocument name s0 = (Ok d, s1) →
  textDocumentToBufferId (manager s1) !! d = None →
  (∀ s2 buffers b1,
     Logged.logger_debug Logged.mappingText s1 = (Ok tt, s2) →
     client_buffers (nvim s2).1 = (buffers, b1) →
     List.find (λ b, number_eqb (Int (buf_id b)) (parseInt idStr)) buffers = None →
     ∃ s', request s = (Ok tt, s') ∧
           textDocumentToBufferId (manager s') =
             <[d := parseInt idStr]> (textDocumentToBufferId (manager s1)) ∧
           textDocumentToBufferId (manager s') !! d = Some (parseInt idStr) ∧
           effects s' = effects s1 ++
             [GetBuffers; ShowTextDocument d (WithOptions (activeColumn (host s1)) false false)] ∧
           batches (drop (length (effects s1)) (effects s')) = []) ∧
  (∀ err s2,
     Logged.logger_debug Logged.mappingText s1 = (Throw err, s2) →
     request s = (Ok tt, s2) ∧
     manager s2 = manager s1 ∧ effects s2 = effects s1 ∧
     textDocumentToBufferId (manager s2) !! d = None).
Proof.
  intros request Huri Hjump H192 Hdoc Hnone. subst request.
  split; [intros s2 buffers b1 H203 Hbufs Hfind|intros err s2 H203];
    unfold Logged.handleExtensionRequest, Logged.externalBuffer; simpl;
    rewrite Huri, (includes_truthy "://" name), Hjump by done; simpl;
    unfold bind at 1; rewrite H192;
    unfold try_catch, Logged.openOnJump, Logged.mapOnJump; unfold bind at 1; rewrite Hdoc;
    unfold bind at 1; unfold bind at 1; unfold get at 1; simpl; rewrite Hnone;
    rewrite bool_decide_eq_false_2 by (by intros [? ?]);
    unfold bind at 1; unfold bind at 1; rewrite H203;
    (assert (manager s2 = manager s1 ∧ effects s2 = effects s1 ∧ host s2 = host s1)
       as (Hm & He & Hh)
       by (revert H203; unfold Logged.logger_debug, Logged.on_logger; by intros [= _ <-])).
  - unfold getBuffers, showTextDocument. run. rewrite Hbufs. simpl. rewrite Hfind. simpl.
    rewrite Hm, He, Hh.
    destruct (window_showTextDocument _ _ _) as [[ed|err] h'] eqn:Eshow; simpl;
      (eexists; split; [reflexivity|]); simpl;
      (split_and!; [done|apply lookup_insert_eq|by rewrite <- app_assoc|]);
      rewrite <- app_assoc; by rewrite drop_app_length.
  - by rewrite Hm.
Qed.

Lemma agrees_firstLoop (Hrel : Logged.reliable) prev cur :
  agrees (B:=B) (G:=G)
    (bind (Logged.logger_debug Logged.syncingText) (λ _, Logged.openLoop prev cur))
    (foldM (openVisible prev) {| nvimRequests := []; keepViewColumns := ∅ |} cur).
Proof.
  unfold Logged.openLoop. agree ltac:(by apply agrees_openVisible).
Qed.

(** C2 (as amended).  Cleanup.  (1) A document-close notification
    removes the entry of that document from the Document→Buffer map.  (2)
    In every pass with a logger that does not throw, with [s1] and [l1] the
    state and the locals after the first loop: for every editor of the
    previous snapshot that is not visible any more, the entry of its
    document is gone after the pass when no visible editor shows the
    document, and is what the first loop left when one does (an entry the
    document had before the pass is still there); when its column was not
    kept, which is so whenever no visible editor is filed under that
    column, and the column has a window id other than 0, the issued batch
    holds the request that closes this window and the column has no entry
    after the pass; a window id 0 is not closed and its entry stays (line
    368); the entry of an editor without column is treated in the same
    way. *)
Theorem syncLayout_cleanup s :
  let h := host s in
  let cur := visibleTextEditors h in
  let prev := openedEditors (manager s) in
  (∀ d, ∃ sd, onDidCloseTextDocument d s = (Ok tt, sd) ∧
      textDocumentToBufferId (manager sd) = delete d (textDocumentToBufferId (manager s)) ∧
      textDocumentToBufferId (manager sd) !! d = None) ∧
  (Logged.reliable →
   ∃ l1 s1 batch s',
    bind (Logged.logger_debug Logged.syncingText) (λ _, Logged.openLoop prev cur) s =
      (Ok l1, s1) ∧
    Logged.syncLayout s = (Ok tt, s') ∧
    last (batches (effects s')) = Some batch ∧
    ∀ p, p ∈ prev → p ∉ cur →
      let d := document (editors h p) in
      ((¬ ∃ e, e ∈ cur ∧ document (editors h e) = d) →
         textDocumentToBufferId (manager s') !! d = None) ∧
      ((∃ e, e ∈ cur ∧ document (editors h e) = d) →
         textDocumentToBufferId (manager s') !! d = textDocumentToBufferId (manager s1) !! d ∧
         ∀ b, textDocumentToBufferId (manager s) !! d = Some b →
              textDocumentToBufferId (manager s') !! d = Some b) ∧
      match column h p with
      | Some c =>
          ((∀ e, e ∈ cur → column h e ≠ Some c) →
             (c ∉ keepViewColumns l1) ∧
             editorColumnsToWinId (manager s1) !! c = editorColumnsToWinId (manager s) !! c) ∧
          (c ∉ keepViewColumns l1 →
           ∀ w, editorColumnsToWinId (manager s1) !! c = Some w →
                if truthy w
                then closeRequest w ∈ batch ∧ editorColumnsToWinId (manager s') !! c = None
                else (closeRequest w ∉ batch) ∧ editorColumnsToWinId (manager s') !! c = Some w)
      | None =>
          noColumnEditorsToWinId (manager s1) !! p = noColumnEditorsToWinId (manager s) !! p ∧
          ∀ w, noColumnEditorsToWinId (manager s1) !! p = Some w →
               if truthy w
               then closeRequest w ∈ batch ∧ noColumnEditorsToWinId (manager s') !! p = None
               else (closeRequest w ∉ batch) ∧ noColumnEditorsToWinId (manager s') !! p = Some w
      end).
Proof.
  intros h cur prev. split.
  { intros d. eexists. split; [reflexivity|]. simpl. split; [done|apply lookup_delete_eq]. }
  intros Hrel.
  destruct (pass_cleanup (Logged.backend s)) as (l1 & t1 & batch & t' & E1 & E & Hb & Hall).
  destruct (agrees_run _ _ _ _ _ (agrees_firstLoop Hrel prev cur) E1) as (s1 & E1' & <-).
  destruct (agrees_run _ _ _ _ _ (agrees_syncLayout Hrel) E) as (s' & E' & <-).
  by exists l1, s1, batch, s'.
Qed.



End Logging.

(** * The properties on concrete inputs *)

(** ** The event loop *)

(** C3.  The failing execution.  Editor 1 is visible and its first pass
    waits for the answer to its batch when, at 110 ms, a second editor opens
    and the host reports the visible editors and the active editor at once.
    The readiness promise of the first pass is still there, so no new one
    is made; the first pass settles it at 120 ms and clears it; the
    synchroniser of the active editor runs at 160 ms, finds no promise to
    wait for and asks for the current window; the pass for the second
    editor issues its batch at 210 ms only. *)
Theorem overlap_sets_window_before_batch :
  ∃ l, EventLoop.run (Sim.overlap Sim.two_first)
         (EventLoop.idle (Sim.boot Sim.one (Sim.start 1000 []))) = Some l ∧
       EventLoop.now l = 220%nat ∧
       let done := effects (EventLoop.system l) in
       done !! 8%nat = Some (EventLoop.setCurrentWin 1002) ∧
       last (batches (take 8 done)) = Some (Sim.shows 1002 1000) ∧
       last (batches (drop 9 done)) = Some (Sim.shows 1005 1003) ∧
       Sim.shows 1005 1003 ∉ batches (take 8 done).
Proof.
  eexists. split; [vm_compute; reflexivity|]. cbv zeta.
  split_and!; try (vm_compute; reflexivity).
  intros Hin. apply list_elem_of_In in Hin. vm_compute in Hin.
  repeat (destruct Hin as [Hin|Hin]; [discriminate Hin|]). done.
Qed.

(** The same schedule with the focus on the new editor: the synchroniser
    runs before the window of the new editor exists, logs that it cannot
    determine the window, and no window is made the current one. *)
Lemma overlap_loses_active_window :
  ∃ l, EventLoop.run (Sim.overlap Sim.two_second)
         (EventLoop.idle (Sim.boot Sim.one (Sim.start 1000 []))) = Some l ∧
       let done := effects (EventLoop.system l) in
       done !! 8%nat = Some (LoggerError (windowUnknownText Sim.two_second 2%positive)) ∧
       getWinIdForTextEditor (manager (EventLoop.system l)) Sim.two_second 2%positive
         = Some 1005 ∧
       Forall (λ e, match e with ClientRequest _ _ => False | _ => True end) done.
Proof.
  eexists. split; [vm_compute; reflexivity|]. vm_compute.
  split_and!; try reflexivity. repeat constructor.
Qed.

(** When nothing is under way the order is the intended one: the
    synchroniser waits for the promise and asks for the current window
    after the batch of the pass. *)
Lemma calm_sets_window_after_batch :
  ∃ l, EventLoop.run Sim.calm
         (EventLoop.idle (Sim.boot Sim.one (Sim.start 1000 []))) = Some l ∧
       let done := effects (EventLoop.system l) in
       done !! 8%nat = Some (EventLoop.setCurrentWin 1002) ∧
       done !! 7%nat = Some (ResolvePromise 0) ∧
       last (batches (take 7 done)) = Some (Sim.shows 1002 1000).
Proof.
  eexists. split; [vm_compute; reflexivity|]. vm_compute. by split_and!.
Qed.

(** ** Passes of the reconciler *)

(** Three editors were synchronised (columns 1 and 2, and one without
    column); now only the editor of column 2 is visible.  The pass closes
    the windows of column 1 and of the editor without column, and keeps the
    entries of the second document and of column 2 only. *)
Example pass_closes_what_is_gone :
  ∃ s', syncLayout (with_host (Sim.layout 2 [2%positive] (Some 2%positive)) Sim.synced)
          = (Ok tt, s') ∧
        last (batches (effects s')) = Some [closeRequest 1002; closeRequest 1008] ∧
        map_to_list (textDocumentToBufferId (manager s')) = [(2%positive, Int 1003)] ∧
        map_to_list (editorColumnsToWinId (manager s')) = [(2, 1005)] ∧
        map_to_list (noColumnEditorsToWinId (manager s')) = [].
Proof. eexists. split; [vm_compute; reflexivity|]. by vm_compute. Qed.

(** The backend refuses the scratch buffer of the first window: the error
    is logged, column 1 gets no window, and the second editor is served. *)
Example pass_survives_a_refused_window :
  ∃ s', syncLayout (Sim.boot Sim.two_first (Sim.start 1000 [1%nat])) = (Ok tt, s') ∧
        errors (effects s') =
          [ "BufferManager: Unable to create a temporary buffer for new neovim window, code: -1" ] ∧
        last (batches (effects s')) = Some (Sim.shows 1003 1001) ∧
        editorColumnsToWinId (manager s') !! 1 = None ∧
        editorColumnsToWinId (manager s') !! 2 = Some 1003 ∧
        textDocumentToBufferId (manager s') !! 1%positive = Some (Int 1000).
Proof. eexists. split; [vm_compute; reflexivity|]. by vm_compute. Qed.

(** The backend refuses the buffer of the first document: the code is
    logged, the document gets no entry, and the second editor is served. *)
Example pass_survives_a_refused_buffer :
  ∃ s', syncLayout (Sim.boot Sim.two_first (Sim.start 1000 [0%nat])) = (Ok tt, s') ∧
        errors (effects s') = [ "BufferManager: Cannot create a buffer, code: -1" ] ∧
        last (batches (effects s')) = Some (Sim.shows 1002 1000) ∧
        textDocumentToBufferId (manager s') !! 1%positive = None ∧
        editorColumnsToWinId (manager s') !! 1 = None ∧
        editorColumnsToWinId (manager s') !! 2 = Some 1002.
Proof. eexists. split; [vm_compute; reflexivity|]. by vm_compute. Qed.

(** ** Witnesses *)

(** C1 at the system that has just been synchronised with three editors. *)
Lemma syncLayout_idempotent_witness :
  ∃ s', syncLayout Sim.synced = (Ok tt, s') ∧
        batches (drop (length (effects Sim.synced)) (effects s')) = [[]] ∧
        same_maps (manager Sim.synced) (manager s').
Proof.
  destruct (syncLayout_idempotent Sim.synced) as (s' & E & _ & _ & Hb & Hm & _).
  - intros e. vm_compute. tauto.
  - intros e He. vm_compute in He.
    apply list_elem_of_In in He. simpl in He.
    destruct He as [<-|[<-|[<-|[]]]]; vm_compute; eexists; reflexivity.
  - exists s'. by split_and!.
Defined.

(** C4 at a request for a [file:] URI with the jump flag 0. *)
Lemma externalBuffer_without_jump_witness :
  handleExtensionRequest "external-buffer"
    (ExternalBufferArgs "file:///notes.txt" "7" 1 4 0) Sim.synced = (Ok tt, Sim.synced).
Proof. apply externalBuffer_without_jump; reflexivity. Defined.

(** The small host keeps the contract of the host commands. *)
Lemma sim_host_contract : host_contract.
Proof.
  split.
  - intros d arg h e h' [= <- <-]. simpl. split; [done|]. apply elem_of_cons. by left.
  - intros h e h' Ha He [= <-]. simpl. rewrite Ha. by rewrite bool_decide_eq_true_2.
Qed.

(** C5 (as amended) at the request of the third scenario: a new untitled
    document, close mode [all], two editors visible. *)
Lemma openFile_sequence_witness :
  ∃ s', handleExtensionRequest "open-file" (OpenFileArgs "__vscode_new__" CloseAll) Sim.pair
          = (Ok tt, s') ∧
        effects s' = [ OpenTextDocument Untitled;
                       ShowTextDocument 3%positive (InColumn None);
                       ExecuteCommand closeOthersCommand ] ∧
        visibleTextEditors (host s') = [3%positive].
Proof.
  set (s := Sim.pair).
  destruct (openFile_sequence "__vscode_new__" CloseAll s 3%positive 3%positive
              (workspace_openTextDocument Untitled (host s)).2
              (workspace_openTextDocument Untitled (host s)).2
              (window_showTextDocument 3%positive (InColumn None)
                 (workspace_openTextDocument Untitled (host s)).2).2
              (commands_executeCommand closeOthersCommand
                 (window_showTextDocument 3%positive (InColumn None)
                    (workspace_openTextDocument Untitled (host s)).2).2).2)
    as (s' & E & He & Hh & _ & _ & Hc); try reflexivity.
  exists s'. split_and!; [done|by rewrite He|].
  rewrite Hh. by destruct (Hc eq_refl sim_host_contract) as (_ & _ & ->).
Defined.

(** C5 as it is stated fails twice.  With the close mode 0, a number, and
    an active editor, the request closes nothing: it opens and shows the
    document.  With the close mode 1 and one visible editor, the editor is
    closed before the document is shown, and between the two the host shows
    no editor at all. *)
Lemma openFile_close_modes :
  (is_Some (activeTextEditor (host Sim.lone)) ∧
   ∃ s', handleExtensionRequest "open-file"
           (OpenFileArgs "notes.txt" (CloseNumber 0)) Sim.lone = (Ok tt, s') ∧
         effects s' = [ OpenTextDocument (FileName "notes.txt");
                        ShowTextDocument 2%positive (InColumn None) ]) ∧
  (∃ opened closed s',
     workspace_openTextDocument (FileName "notes.txt") (host Sim.lone)
       = (Ok 2%positive, opened) ∧
     commands_executeCommand closeActiveCommand opened = (Ok tt, closed) ∧
     visibleTextEditors opened = [1%positive] ∧
     visibleTextEditors closed = [] ∧
     handleExtensionRequest "open-file"
       (OpenFileArgs "notes.txt" (CloseNumber 1)) Sim.lone = (Ok tt, s') ∧
     effects s' = [ OpenTextDocument (FileName "notes.txt");
                    ExecuteCommand closeActiveCommand;
                    ShowTextDocument 2%positive (InColumn (Some 1)) ] ∧
     host s' = (window_showTextDocument 2%positive (InColumn (Some 1)) closed).2).
Proof.
  split.
  - split; [by eexists|]. eexists. split; [vm_compute; reflexivity|]. reflexivity.
  - do 3 eexists. split_and!; vm_compute; reflexivity.
Qed.

(** The small backend hands out fresh windows. *)
Lemma sim_next_grows (b b' : Sim.Nvim) : advances b b' → Sim.next b ≤ Sim.next b'.
Proof.
  induction 1 as [b|b b1 listed scratch r b2 _ IH E|b b1 buf enter opts r b2 _ IH E
                 |b b1 requests r b2 _ IH E|b b1 r b2 _ IH E|b b1 name args _ IH
                 |b b1 buf event _ IH]; simpl in *; try lia.
  - destruct (bool_decide _); injection E as <- <-; simpl; lia.
  - destruct (bool_decide _); injection E as <- <-; simpl; lia.
  - injection E as <- <-. lia.
  - injection E as <- <-. lia.
Qed.

Lemma sim_fresh_windows : fresh_windows Sim.known.
Proof.
  split.
  - intros buf enter opts b win b'. simpl. unfold Sim.known.
    destruct (bool_decide _); [done|]. intros [= <- <-]. simpl. lia.
  - intros b b' w Ha. apply sim_next_grows in Ha. unfold Sim.known. lia.
Qed.

Lemma sim_synced_reachable : reachable Sim.synced.
Proof.
  eapply (reach_syncLayout (Sim.boot Sim.three (Sim.start 1000 []))).
  - apply reach_start.
  - unfold Sim.synced. apply surjective_pairing.
Qed.

(** C6 at the system synchronised with three editors: the editor without
    column has the window 1008, which no column has. *)
Lemma mappings_unique_witness :
  noColumnEditorsToWinId (manager Sim.synced) !! 3%positive = Some 1008 ∧
  (∀ c, editorColumnsToWinId (manager Sim.synced) !! c ≠ Some 1008) ∧
  (∀ e', noColumnEditorsToWinId (manager Sim.synced) !! e' = Some 1008 → e' = 3%positive).
Proof.
  assert (noColumnEditorsToWinId (manager Sim.synced) !! 3%positive = Some 1008) as H3
    by (vm_compute; reflexivity).
  destruct (mappings_unique Sim.known sim_fresh_windows Sim.synced sim_synced_reachable)
    as (_ & _ & Hed & _).
  destruct (Hed _ _ H3) as (_ & _ & Hother & Hcol). by split_and!.
Defined.

(** ** Witnesses of the further properties *)

(** X1 at the grids of [Scenes.gridded]: grid 3 and window 1008. *)
Lemma getGridIdForWinId_round_trip_witness :
  getGridIdForWinId (listing Scenes.gridded) 1008 = Some 3 ∧
  getWinIdForGridId Scenes.gridded 3 = Some 1008.
Proof.
  destruct (getGridIdForWinId_round_trip (listing Scenes.gridded) Scenes.gridded 1008
              (listing_spreads Scenes.gridded)) as (Hsound & _ & _).
  split; [vm_compute; reflexivity|]. apply Hsound. vm_compute. reflexivity.
Defined.

(** X2 at the synchronised system: buffer 1003 and document 2. *)
Lemma getTextDocumentForBufferId_round_trip_witness :
  getTextDocumentForBufferId (listing (manager Sim.synced)) (host Sim.synced) (Int 1003) =
    Some 2%positive ∧
  getBufferIdForTextDocument (manager Sim.synced) 2%positive = Some (Int 1003).
Proof.
  destruct (getTextDocumentForBufferId_round_trip (listing (manager Sim.synced))
              (manager Sim.synced) (host Sim.synced) (Int 1003) (listing_spreads _))
    as (Hsound & _ & _).
  split; [vm_compute; reflexivity|]. apply Hsound. vm_compute. reflexivity.
Defined.

(** X3 at the synchronised system: window 1008 and editor 3. *)
Lemma getEditorFromWinId_sound_witness :
  noColumnEditorsToWinId (manager Sim.synced) !! 3%positive = Some 1008 ∨
  (3%positive ∈ openedEditors (manager Sim.synced) ∧
   is_Some (column (host Sim.synced) 3%positive) ∧
   getWinIdForTextEditor (manager Sim.synced) (host Sim.synced) 3%positive = Some 1008).
Proof.
  apply (getEditorFromWinId_sound (listing (manager Sim.synced))).
  - apply listing_spreads.
  - vm_compute. reflexivity.
Defined.

(** X4 at the synchronised system: column 2 has the window 1005. *)
Lemma column_keys_truthy_witness : truthy 2 = true ∧ 2 ≠ 0.
Proof.
  apply (column_keys_truthy Sim.synced 2 1005).
  - apply sim_synced_reachable.
  - vm_compute. reflexivity.
Defined.

(** X5 at the synchronised system: the window of the editor without column. *)
Lemma getEditorFromWinId_reachable_witness :
  getEditorFromWinId (listing (manager Sim.synced)) (manager Sim.synced) (host Sim.synced)
    1008 = Some 3%positive.
Proof.
  destruct (getEditorFromWinId_reachable Sim.known sim_fresh_windows Sim.synced
              (listing (manager Sim.synced)) sim_synced_reachable (listing_spreads _))
    as [Hed _].
  apply Hed. vm_compute. reflexivity.
Defined.

(** X6 at the redraw batch of [Scenes.gridded]: grid 4. *)
Lemma getEditorFromGridId_redraw_witness :
  getEditorFromGridId (listing (manager Sim.synced)) Scenes.gridded (host Sim.synced) 4 =
  getEditorFromWinId (listing (manager Sim.synced)) (manager Sim.synced) (host Sim.synced) 1002.
Proof.
  destruct (getEditorFromGridId_redraw (listing (manager Sim.synced)) (manager Sim.synced)
              (host Sim.synced) [] "win_pos" [(3, {| win_id := 1008 |})] []
              4 {| win_id := 1002 |}) as [Hpos _].
  - simpl. apply not_elem_of_nil.
  - destruct Hpos as [_ Hed]; [set_solver|]. exact Hed.
Defined.


(** X8 at the synchronised system. *)
Lemma syncLayout_twice_witness :
  ∃ s2, syncLayout Sim.synced = (Ok tt, s2) ∧
        same_maps (manager Sim.synced) (manager s2).
Proof.
  destruct (syncLayout_twice (Sim.boot Sim.three (Sim.start 1000 [])) Sim.synced)
    as (s2 & E & _ & Hm & _).
  - apply surjective_pairing.
  - vm_compute. reflexivity.
  - exists s2. split; [exact E|exact Hm].
Defined.




(** X14 at a jump to the open document [file:///1] with the listed buffer 7. *)
Lemma externalBuffer_jump_known_buffer_witness :
  ∃ s', handleExtensionRequest "external-buffer"
          (ExternalBufferArgs "file:///1" "7" 1 4 1) Scenes.external = (Ok tt, s') ∧
        textDocumentToBufferId (manager s') =
          <[1%positive := Int 7]> (textDocumentToBufferId (manager Scenes.external)).
Proof.
  destruct (externalBuffer_jump_known_buffer "file:///1" "7" 1 4 1 Scenes.external Scenes.external
              1%positive [{| buf_id := 7 |}] (nvim Scenes.external) {| buf_id := 7 |})
    as (s' & E & Hd & _); try reflexivity.
  exists s'. split; [exact E|exact Hd].
Defined.

(** X15 at a jump to the document [file:///1], which has the buffer 1000. *)
Lemma externalBuffer_jump_known_document_witness :
  ∃ s', handleExtensionRequest "external-buffer"
          (ExternalBufferArgs "file:///1" "7" 1 4 1) Scenes.paired = (Ok tt, s') ∧
        manager s' = manager Scenes.paired ∧ nvim s' = nvim Scenes.paired.
Proof.
  eexists. split.
  - apply (externalBuffer_jump_known_document "file:///1" "7" 1 4 1 Scenes.paired
             Scenes.paired 1%positive); try reflexivity.
    vm_compute. by eexists.
  - split; reflexivity.
Defined.

(** X16 at a blank file name, which the small host cannot open. *)
Lemma openFile_failure_witness :
  ∃ err s', handleExtensionRequest "open-file" (OpenFileArgs " " CloseAll) Sim.pair =
              (Throw err, s') ∧
            effects s' = [OpenTextDocument (FileName EmptyString)].
Proof.
  destruct (openFile_failure " " CloseAll Sim.pair) as [Hopen _].
  do 2 eexists. split.
  - apply (Hopen {| message := "cannot open" |} (host Sim.pair)). reflexivity.
  - reflexivity.
Defined.

(** X18 at a logger of level [warn] whose file has the empty path. *)
Lemma logger_unopened_file_witness :
  ∃ out, Logger.calls Scenes.fileless Disk.session
           (Logger.new "vscode-neovim" LogLevel.warn EmptyString false (Disk.blank 2)).2 =
         (Ok tt, Logger.put out
                   (Logger.new "vscode-neovim" LogLevel.warn EmptyString false
                      (Disk.blank 2)).2) ∧
         Logger.channelLines out = ["t ERROR no window"].
Proof.
  destruct (logger_unopened_file "vscode-neovim" EmptyString LogLevel.warn false
              (Disk.blank 2) Disk.session) as (out & E & _ & Hc & _).
  - done.
  - intros d. vm_compute. done.
  - exists out. split; [exact E|exact Hc].
Defined.

(** X19 at a disk without room: the write throws and nothing is shown. *)
Lemma logger_error_shown_witness :
  (Logger.error Scenes.filed "t" "no window" (Disk.blank 0)).1 = Throw {| message := "ENOSPC" |} ∧
  Logger.outputs (Logger.error Scenes.filed "t" "no window" (Disk.blank 0)).2 =
    [Logger.AppendFileSync 3 ("t ERROR no window" +:+ newline)].
Proof.
  pose proof (logger_error_shown Scenes.filed "t" "no window" (Disk.blank 0)) as H.
  cbv zeta in H.
  destruct (Logger.error Scenes.filed "t" "no window" (Disk.blank 0)).1 as [[]|e] eqn:E;
    [by vm_compute in E|].
  destruct H as (_ & _ & Hthrow & Hout). split; [|exact Hout].
  vm_compute in Hthrow. injection Hthrow as <-. reflexivity.
Defined.

(** X20 at the levels [error] and [debug]. *)
Lemma logger_level_monotone_witness :
  Logger.outputs (Logger.calls (Logger.atLevel LogLevel.error Scenes.fileless) Disk.session
                    (Disk.blank 2)).2
  `sublist_of`
  Logger.outputs (Logger.calls (Logger.atLevel LogLevel.debug Scenes.fileless) Disk.session
                    (Disk.blank 2)).2.
Proof.
  apply (logger_level_monotone Scenes.fileless LogLevel.error LogLevel.debug Disk.session
           (Disk.blank 2)).
  - reflexivity.
  - simpl. lia.
Defined.

(** X21 at a logger of level [debug] with its file. *)
Lemma logger_sinks_agree_witness :
  ∃ out, Logger.outputs (Logger.calls Scenes.filed Disk.session (Disk.blank 2)).2 = out ∧
         Logger.channelLines out = ["t DEBUG starting"; "t ERROR no window"] ∧
         Logger.fileData out = (λ l, l +:+ newline) <$> Logger.channelLines out.
Proof.
  destruct (logger_sinks_agree Scenes.filed Disk.session (Disk.blank 2))
    as (out & Ho & Hc & Hf); try reflexivity.
  exists out. split_and!; [exact Ho|exact Hc|exact Hf].
Defined.


(** X27 at the layout that has moved: document 2 keeps the buffer 1003. *)
Lemma syncLayout_keeps_visible_buffers_witness :
  ∃ s', syncLayout Scenes.shifted = (Ok tt, s') ∧
        getBufferIdForTextDocument (manager s')
          (document (editors (host s') 2%positive)) = Some (Int 1003).
Proof.
  apply (syncLayout_keeps_visible_buffers Scenes.shifted 2%positive (Int 1003)).
  - vm_compute. apply list_elem_of_In. simpl. auto.
  - vm_compute. reflexivity.
Defined.

(** ** The handlers with their logger *)

Lemma silent_reliable : Logged.reliable (Log0 := Scenes.silent).
Proof. intros msg g. split; reflexivity. Qed.

(** C2 (as amended) at three synchronised editors of which the second alone
    stays visible: the first editor. *)
Lemma syncLayout_cleanup_witness :
  ∃ s' batch, Logged.syncLayout (Log0 := Scenes.silent) Scenes.gone = (Ok tt, s') ∧
              last (batches (effects s')) = Some batch ∧
              textDocumentToBufferId (manager s') !! 1%positive = None ∧
              closeRequest 1002 ∈ batch ∧
              editorColumnsToWinId (manager s') !! 1 = None.
Proof.
  destruct (syncLayout_cleanup (Log0 := Scenes.silent) Scenes.gone) as [_ Hpass].
  destruct (Hpass silent_reliable) as (l1 & s1 & batch & s' & E1 & E & Hb & Hall).
  destruct (Hall 1%positive) as (Hdoc & _ & Hcol).
  { vm_compute. apply list_elem_of_In. simpl. auto. }
  { vm_compute. intros Hin%list_elem_of_In. simpl in Hin. by destruct Hin as [|[]]. }
  change (column (host Scenes.gone) 1%positive) with (Some 1) in Hcol.
  destruct Hcol as [Hfree Hclose].
  destruct Hfree as [Hkeep Hw].
  { intros e Hin. vm_compute in Hin. apply list_elem_of_singleton in Hin. by subst e. }
  assert (editorColumnsToWinId (manager Scenes.gone) !! 1 = Some 1002) as Hw0
    by (vm_compute; reflexivity).
  rewrite Hw0 in Hw. specialize (Hclose Hkeep 1002 Hw).
  change (truthy 1002) with true in Hclose. destruct Hclose as [Hreq Hnone].
  exists s', batch. split_and!; [exact E|exact Hb| |exact Hreq|exact Hnone].
  apply Hdoc. intros (e & Hin & He). vm_compute in Hin.
  apply list_elem_of_singleton in Hin. by subst e.
Defined.

(** C2 as it is stated fails in three ways.  A window id 0 is not closed:
    its entry stays and the batch is empty, although the editor is gone
    and no visible editor has its column.  And a call of the logger that
    throws ends the pass in the middle of the cleanup: with room for five
    lines on the disk the call of line 356 throws, and the document that no
    visible editor shows keeps its entry; with room for six lines the call
    of line 377 throws, and the entry of the column is removed but no
    request closes the window 1002, as no batch is issued. *)
Lemma cleanup_left_undone :
  (openedEditors (manager Scenes.zeroed) = [1%positive] ∧
   visibleTextEditors (host Scenes.zeroed) = [] ∧
   column (host Scenes.zeroed) 1%positive = Some 1 ∧
   editorColumnsToWinId (manager Scenes.zeroed) !! 1 = Some 0 ∧
   ∃ s', Logged.syncLayout (Log0 := Scenes.silent) Scenes.zeroed = (Ok tt, s') ∧
         last (batches (effects s')) = Some [] ∧
         editorColumnsToWinId (manager s') !! 1 = Some 0) ∧
  (openedEditors (manager (Scenes.leaving 5)) = [1%positive; 2%positive; 3%positive] ∧
   visibleTextEditors (host (Scenes.leaving 5)) = [2%positive] ∧
   document (editors (host (Scenes.leaving 5)) 2%positive) = 2%positive ∧
   document (editors (host (Scenes.leaving 5)) 1%positive) = 1%positive ∧
   ∃ s', Logged.syncLayout (Log0 := Scenes.noisy) (Scenes.leaving 5)
           = (Throw {| message := "ENOSPC" |}, s') ∧
         textDocumentToBufferId (manager s') !! 1%positive = Some (Int 1000)) ∧
  (column (host (Scenes.leaving 6)) 1%positive = Some 1 ∧
   editorColumnsToWinId (manager (Scenes.leaving 6)) !! 1 = Some 1002 ∧
   ∃ s', Logged.syncLayout (Log0 := Scenes.noisy) (Scenes.leaving 6)
           = (Throw {| message := "ENOSPC" |}, s') ∧
         editorColumnsToWinId (manager s') !! 1 = None ∧
         batches (drop (length (effects (Scenes.leaving 6))) (effects s')) = []).
Proof.
  split_and!; try (vm_compute; reflexivity);
    (eexists; split; [vm_compute; reflexivity|]; by vm_compute).
Qed.



(** C9 (as amended) at a jump to the open document [file:///1], which has
    no entry yet, with a backend that has no buffer 7. *)
Lemma externalBuffer_jump_unknown_buffer_witness :
  ∃ s', Logged.handleExtensionRequest (Log0 := Scenes.silent) "external-buffer" Scenes.jump
          (Scenes.logged 0 Sim.lone) = (Ok tt, s') ∧
        textDocumentToBufferId (manager s') !! 1%positive = Some (Int 7) ∧
        batches (effects s') = [].
Proof.
  set (s := Scenes.logged 0 Sim.lone).
  set (s0 := (Logged.logger_debug (Log0 := Scenes.silent)
                (Logged.openingText "file:///1") s).2).
  destruct (externalBuffer_jump_unknown_buffer (Log0 := Scenes.silent)
              "file:///1" "7" 1 4 1 s s0 s0 1%positive) as [Hrec _];
    try reflexivity.
  destruct (Hrec (Logged.logger_debug (Log0 := Scenes.silent) Logged.mappingText s0).2
              [] (Sim.start 1000 [])) as (s' & E & _ & Hd & He & Hb); try reflexivity.
  exists s'. split_and!; [exact E|exact Hd|]. by rewrite <- Hb.
Defined.

(** C9 as it is stated fails when the disk of the logger has room for one
    line: the call of line 192 takes it, the call of line 203 throws, and
    the request returns without an entry for the document. *)
Lemma jump_records_nothing :
  uri (documents (host Sim.lone) 1%positive) = "file:///1" ∧
  textDocumentToBufferId (manager Sim.lone) !! 1%positive = None ∧
  (client_buffers (nvim Sim.lone)).1 = [] ∧
  ∃ s', Logged.handleExtensionRequest (Log0 := Scenes.noisy) "external-buffer" Scenes.jump
          (Scenes.logged 1 Sim.lone) = (Ok tt, s') ∧
        textDocumentToBufferId (manager s') !! 1%positive = None ∧
        effects s' = [].
Proof.
  split_and!; try (vm_compute; reflexivity).
  eexists. split; [vm_compute; reflexivity|]. by vm_compute.
Qed.


